(** * TraceBridge AI: chunker and vector store

    A shallow embedding of
      - [backend/app/services/chunker.py]      ([chunk_text],
        [chunk_document]),
      - [app/services/chunker.py]              (the older [chunk_text]),
      - [backend/app/services/vector_store.py] ([SimpleVectorStore],
        [index_chunks], [get_document_chunk_count], [document_exists],
        [delete_document], [query_chunks]),
      - [app/services/vector_store.py]         (the older filter of [get]),
      - [backend/app/services/embeddings.py]   ([get_embeddings],
        [get_embedding], over the embedding provider),
      - [backend/app/services/metadata_extractor.py] (over the functions
        of [re] and [str.upper]),
    and the properties the specification states about them, followed by
    further properties of the same code.

    Python values are modelled as follows.
      - [int] is [Z]; [//] is [Z.div] (both round towards minus infinity).
      - [str] is the list of its code points, each a number of [N].
      - an exception is a value of [exn]; a call that may raise returns a
        [result].
      - a [while] loop carries a fuel argument; running out of fuel is
        [None], and the termination theorems show how much fuel is enough.
      - [dict] is stdpp's [gmap].  Python enumerates a dictionary in the
        order of insertion, which a finite map does not record: the store
        keeps the order of the keys of [self.metadatas], the one dictionary
        it enumerates, in a list beside the map.  A filter is enumerated
        for a conjunction, which no order changes.
      - numpy's [float64] is the kernel's binary64 [float].  The sum of
        products behind [np.dot] and [np.linalg.norm] is a parameter, and
        so is [list.sort], which is known to return a permutation and, on
        keys without NaN, the stable ascending sort.
      - the disk holds the files by path, and says whether a directory can
        be made and what opening and writing a file does. *)

From Stdlib Require Import ZArith List Ascii String Lia Bool Floats.
From Stdlib Require Import Sorting.Sorted Sorting.Permutation.
From stdpp Require Import gmap strings list fin_maps pretty.

Local Open Scope Z_scope.

(** ** Exceptions *)

Inductive exn : Type :=
  | IndexError
  | KeyError
  | TypeError
  | ValueError
  | OSError.

Inductive result (A : Type) : Type :=
  | Ok (a : A)
  | Raise (e : exn).

Arguments Ok {A} a.
Arguments Raise {A} e.

(** ** Python strings *)

Module PyStr.

Definition char : Type := N.

Definition text : Type := list char.

(** The text of a string literal. *)
Definition of_string (s : string) : text :=
  List.map N_of_ascii (list_ascii_of_string s).

Definition len (t : text) : Z := Z.of_nat (List.length t).

(** [str.isspace], which is also the white space that [strip] removes:
    U+0009..U+000D, U+001C..U+0020, U+0085, U+00A0, U+1680,
    U+2000..U+200A, U+2028, U+2029, U+202F, U+205F and U+3000. *)
Definition isspace (c : char) : bool :=
  ((9 <=? c) && (c <=? 13) || (28 <=? c) && (c <=? 32)
   || (c =? 133) || (c =? 160) || (c =? 5760)
   || (8192 <=? c) && (c <=? 8202)
   || (c =? 8232) || (c =? 8233) || (c =? 8239) || (c =? 8287)
   || (c =? 12288))%N.

Fixpoint lstrip (t : text) : text :=
  match t with
  | [] => []
  | c :: t' => if isspace c then lstrip t' else t
  end.

Definition rstrip (t : text) : text := rev (lstrip (rev t)).

(** [t.strip()] *)
Definition strip (t : text) : text := rstrip (lstrip t).

(** The index adjustment of slices and of [rfind]'s bounds: a negative
    index counts from the end; the result is clamped to [0, len]. *)
Definition adjust (n i : Z) : Z :=
  if i <? 0 then Z.max 0 (i + n) else Z.min i n.

(** [t[lo:hi]] *)
Definition slice (t : text) (lo hi : Z) : text :=
  let a := adjust (len t) lo in
  let b := adjust (len t) hi in
  firstn (Z.to_nat (b - a)) (skipn (Z.to_nat a) t).

Fixpoint text_eqb (a b : text) : bool :=
  match a, b with
  | [], [] => true
  | x :: a', y :: b' => N.eqb x y && text_eqb a' b'
  | _, _ => false
  end.

(** [t[i:i+len(sub)] == sub], for [0 <= i]. *)
Definition occurs_at (t sub : text) (i : Z) : bool :=
  text_eqb (firstn (List.length sub) (skipn (Z.to_nat i) t)) sub.

(** The candidates [lo + n - 1], ..., [lo], highest first. *)
Fixpoint rfind_down (t sub : text) (lo : Z) (n : nat) : Z :=
  match n with
  | O => -1
  | S n' =>
      let i := lo + Z.of_nat n' in
      if occurs_at t sub i then i else rfind_down t sub lo n'
  end.

(** [t.rfind(sub, lo, hi)]: the highest index [i] with
    [t[i:i+len(sub)] == sub] inside [t[lo:hi]], or [-1].  The lower
    bound is made non-negative but, as in CPython, not clamped to the
    length. *)
Definition rfind (t sub : text) (lo hi : Z) : Z :=
  let a := if lo <? 0 then Z.max 0 (lo + len t) else lo in
  let b := adjust (len t) hi in
  rfind_down t sub a (Z.to_nat (b - len sub - a + 1)).

End PyStr.

Import PyStr.

(** ** The chunker *)

Module Chunker.

Definition para_sep : text := of_string (String "010" (String "010" EmptyString)).

(** [[". ", ".\n", "! ", "!\n", "? ", "?\n"]] *)
Definition sentence_seps : list text :=
  [ of_string ". "; of_string (String "." (String "010" EmptyString));
    of_string "! "; of_string (String "!" (String "010" EmptyString));
    of_string "? "; of_string (String "?" (String "010" EmptyString)) ].

Definition space_sep : text := of_string " ".

(** The [for sep in ...: ... break] loop: [Some end] when a separator
    kind breaks out of the loop, [None] when the [else] branch runs. *)
Fixpoint sentence_break (t : text) (seps : list text) (start chunk_size end_ : Z)
  : option Z :=
  match seps with
  | [] => None
  | sep :: seps' =>
      let sent_break := rfind t sep (start + chunk_size / 2) end_ in
      if sent_break >? start then Some (sent_break + len sep)
      else sentence_break t seps' start chunk_size end_
  end.

(** The value of [end] when the chunk is extracted. *)
Definition window_end (t : text) (chunk_size start : Z) : Z :=
  let end_ := start + chunk_size in
  if end_ <? len t then
    let para_break := rfind t para_sep start end_ in
    if para_break >? start + chunk_size / 2 then para_break + 2
    else
      match sentence_break t sentence_seps start chunk_size end_ with
      | Some e => e
      | None =>
          let space := rfind t space_sep (start + chunk_size / 2) end_ in
          if space >? start then space + 1 else end_
      end
  else end_.

(** [chunks.append(chunk)] guarded by [if chunk:]. *)
Definition emit (chunks : list text) (chunk : text) : list text :=
  match chunk with
  | [] => chunks
  | _ :: _ => chunks ++ [chunk]
  end.

(** [text[start:end].strip()] *)
Definition chunk_at (t : text) (chunk_size start : Z) : text :=
  strip (slice t start (window_end t chunk_size start)).

(** The value of [start] after the progress check of the backend:
    [new_start = end - chunk_overlap], replaced by [end] when
    [new_start <= start]. *)
Definition next_start (t : text) (chunk_size chunk_overlap start : Z) : Z :=
  let end_ := window_end t chunk_size start in
  let new_start := end_ - chunk_overlap in
  if new_start <=? start then end_ else new_start.

(** The [while start < len(text)] loop of the backend chunker.  The
    last component counts the executions of the loop body. *)
Fixpoint chunk_loop (fuel : nat) (t : text) (chunk_size chunk_overlap : Z)
    (start : Z) (chunks : list text) (iters : nat) : option (list text * nat) :=
  if start <? len t then
    match fuel with
    | O => None
    | S fuel' =>
        chunk_loop fuel' t chunk_size chunk_overlap
          (next_start t chunk_size chunk_overlap start)
          (emit chunks (chunk_at t chunk_size start)) (S iters)
    end
  else Some (chunks, iters).

(** [chunk_text(text, chunk_size, chunk_overlap)] together with the
    number of loop iterations. *)
Definition chunk_run (fuel : nat) (t : text) (chunk_size chunk_overlap : Z)
  : option (list text * nat) :=
  match strip t with
  | [] => Some ([], O)
  | _ :: _ =>
      let t' := strip t in
      if len t' <=? chunk_size then Some ([t'], O)
      else chunk_loop fuel t' chunk_size chunk_overlap 0 [] O
  end.

Definition chunk_text (fuel : nat) (t : text) (chunk_size chunk_overlap : Z)
  : option (list text) :=
  fst <$> chunk_run fuel t chunk_size chunk_overlap.

Definition chunk_iterations (fuel : nat) (t : text) (chunk_size chunk_overlap : Z)
  : option nat :=
  snd <$> chunk_run fuel t chunk_size chunk_overlap.

End Chunker.

(** ** The older chunker, [app/services/chunker.py] *)

Module LegacyChunker.

(** The progress check [if start <= chunks[-1] if chunks else 0:], which
    Python reads as [(start <= chunks[-1]) if chunks else 0].  With a
    chunk in the list it compares the [int] [start] with the [str]
    [chunks[-1]], which raises [TypeError]; with no chunk its value is
    [0], which is false. *)
Definition progress_check (chunks : list text) : result bool :=
  match chunks with
  | [] => Ok false
  | _ :: _ => Raise TypeError
  end.

(** The window computation and the extraction of the chunk are those of
    the backend, line for line. *)
Fixpoint chunk_loop (fuel : nat) (t : text) (chunk_size chunk_overlap : Z)
    (start : Z) (chunks : list text) : option (result (list text)) :=
  if start <? len t then
    match fuel with
    | O => None
    | S fuel' =>
        let end_ := Chunker.window_end t chunk_size start in
        let chunks' := Chunker.emit chunks (Chunker.chunk_at t chunk_size start) in
        let start' := end_ - chunk_overlap in
        match progress_check chunks' with
        | Raise e => Some (Raise e)
        | Ok b =>
            chunk_loop fuel' t chunk_size chunk_overlap
              (if b then end_ else start') chunks'
        end
    end
  else Some (Ok chunks).

Definition chunk_text (fuel : nat) (t : text) (chunk_size chunk_overlap : Z)
  : option (result (list text)) :=
  match strip t with
  | [] => Some (Ok [])
  | _ :: _ =>
      let t' := strip t in
      if len t' <=? chunk_size then Some (Ok [t'])
      else chunk_loop fuel t' chunk_size chunk_overlap 0 []
  end.

End LegacyChunker.

(** ** Metadata values and filters *)

(** The values a chunk's metadata holds ([index_chunks] stores strings,
    integers and lists of strings) and a filter may expect. *)
#[local] Unset Elimination Schemes.
Inductive pyval : Type :=
  | PNone
  | PStr (s : string)
  | PInt (n : Z)
  | PList (l : list pyval).
#[local] Set Elimination Schemes.

(** [a == b] *)
Fixpoint py_eqb (a b : pyval) : bool :=
  match a, b with
  | PNone, PNone => true
  | PStr s, PStr s' => String.eqb s s'
  | PInt n, PInt n' => Z.eqb n n'
  | PList l, PList l' =>
      (fix list_eqb (l l' : list pyval) : bool :=
         match l, l' with
         | [], [] => true
         | x :: r, x' :: r' => py_eqb x x' && list_eqb r r'
         | _, _ => false
         end) l l'
  | _, _ => false
  end.

(** [v in l] *)
Definition py_in (v : pyval) (l : list pyval) : bool :=
  existsb (fun x => py_eqb x v) l.

(** ** numpy on one-dimensional [float64] arrays *)

Module Numpy.

Local Open Scope float_scope.

(** The sum of the products of two arrays of the same length.  numpy
    leaves it to the BLAS routine of the platform, which fixes the order
    of the additions and their rounding: the development takes it as
    given. *)
Class Blas : Type := sum_products : list float -> list float -> float.

Section WithBlas.

Context {blas : Blas}.

(** [np.dot(a, b)]: [ValueError] when the shapes differ. *)
Definition dot (a b : list float) : result float :=
  if (List.length a =? List.length b)%nat then Ok (sum_products a b)
  else Raise ValueError.

(** [np.linalg.norm(a)], the square root of [a.dot(a)] *)
Definition norm (a : list float) : float := sqrt (sum_products a a).

End WithBlas.

(** One such routine, for the examples: the sum from left to right. *)
Definition left_to_right : Blas :=
  fun a b => fold_left (fun acc xy => acc + fst xy * snd xy) (combine a b) 0.

End Numpy.

(** ** The vector store *)

Module VectorStore.

Abbreviation metadata := (gmap string pyval).
Abbreviation embedding := (list float).

(** A finite map does not record the order in which a dictionary
    enumerates its keys, the order of their insertion.  The store iterates
    over [self.metadatas] only: [inserted] holds the keys of [metadatas] in
    that order. *)
Record store : Type := Store {
  persist_path : string;
  documents : gmap string string;
  embeddings : gmap string embedding;
  metadatas : gmap string metadata;
  inserted : list string
}.

(** [self.metadatas.items()].  In a store that the methods have built,
    [inserted] lists every key of [metadatas] once, and the entries come in
    this order; a key that [inserted] misses comes after them. *)
Definition items (s : store) : list (string * metadata) :=
  omap (fun id => pair id <$> metadatas s !! id) (remove_dups (inserted s))
  ++ List.filter (fun kv => negb (existsb (String.eqb (fst kv)) (inserted s)))
       (map_to_list (metadatas s)).

(** The keys of [self.metadatas], in this order. *)
Definition keys (s : store) : list string := List.map fst (items s).

(** *** Persistence *)

(** The dictionary [_save] pickles; [_load] reads each key with a
    default, so a key may be absent.  The pickled [metadatas] come with
    the order of their keys. *)
Record snapshot : Type := Snapshot {
  snap_documents : option (gmap string string);
  snap_embeddings : option (gmap string embedding);
  snap_metadatas : option (gmap string metadata * list string)
}.

Inductive file : Type :=
  | Pickled (data : snapshot)
  | Corrupt.

(** What happens when the data file is opened for writing and the
    dictionary is dumped into it: both succeed; [open] raises and the file
    is as it was; or [open] has emptied the file and a later step raises,
    which leaves a file that cannot be loaded. *)
Inductive writing : Type :=
  | Writes
  | OpenFails
  | DumpFails.

(** The files by path, whether the directory of a non-empty path can be
    made (or is there), and what a write does. *)
Record disk : Type := Disk {
  files : gmap string file;
  dirs_ok : bool;
  on_write : writing
}.

(** Opening and writing the data file succeeds. *)
Definition write_ok (d : disk) : bool :=
  match on_write d with
  | Writes => true
  | OpenFails | DumpFails => false
  end.

(** [os.makedirs(path, exist_ok=True)]: [FileNotFoundError] for the empty
    path, and an [OSError] when the directory cannot be made. *)
Definition makedirs (d : disk) (path : string) : result unit :=
  if String.eqb path "" then Raise OSError
  else if dirs_ok d then Ok tt else Raise OSError.

(** [os.path.join(persist_path, "vector_store.pkl")] *)
Definition data_file (path : string) : string :=
  if String.eqb path "" then "vector_store.pkl"
  else if String.eqb (String.substring (String.length path - 1) 1 path) "/"
       then (path ++ "vector_store.pkl")%string
       else (path ++ "/vector_store.pkl")%string.

Definition _load (s : store) (d : disk) : store :=
  match files d !! data_file (persist_path s) with
  | Some (Pickled data) =>
      Store (persist_path s)
        (default ∅ (snap_documents data))
        (default ∅ (snap_embeddings data))
        (fst (default (∅, []) (snap_metadatas data)))
        (snd (default (∅, []) (snap_metadatas data)))
  | Some Corrupt => s
  | None => s
  end.

(** [SimpleVectorStore(persist_path)] *)
Definition init (path : string) (d : disk) : store :=
  _load (Store path ∅ ∅ ∅ []) d.

Definition dump (s : store) : snapshot :=
  Snapshot (Some (documents s)) (Some (embeddings s))
    (Some (metadatas s, inserted s)).

(** [os.makedirs] stands before the [try], so its error leaves [_save];
    a failure to open or write the file is caught and logged. *)
Definition _save (s : store) (d : disk) : disk * result unit :=
  match makedirs d (persist_path s) with
  | Raise e => (d, Raise e)
  | Ok _ =>
      match on_write d with
      | Writes =>
          (Disk (<[data_file (persist_path s) := Pickled (dump s)]> (files d))
             (dirs_ok d) (on_write d), Ok tt)
      | OpenFails => (d, Ok tt)
      | DumpFails =>
          (Disk (<[data_file (persist_path s) := Corrupt]> (files d))
             (dirs_ok d) (on_write d), Ok tt)
      end
  end.

(** *** add *)

(** The loop [for i, id in enumerate(ids)], from index [i] on.  An index
    past the end of a list raises [IndexError] and leaves the
    assignments made so far in place.  An assignment to a key that
    [self.metadatas] holds leaves the key at its place, a new key comes
    last. *)
Fixpoint add_loop (i : nat) (ids : list string) (docs : list string)
    (embs : list embedding) (metas : list metadata) (s : store)
  : store * result unit :=
  match ids with
  | [] => (s, Ok tt)
  | id :: ids' =>
      match docs !! i with
      | None => (s, Raise IndexError)
      | Some doc =>
          let s1 := Store (persist_path s) (<[id := doc]> (documents s))
                      (embeddings s) (metadatas s) (inserted s) in
          match embs !! i with
          | None => (s1, Raise IndexError)
          | Some emb =>
              let s2 := Store (persist_path s1) (documents s1)
                          (<[id := emb]> (embeddings s1)) (metadatas s1)
                          (inserted s1) in
              match metas !! i with
              | None => (s2, Raise IndexError)
              | Some meta =>
                  let s3 := Store (persist_path s2) (documents s2)
                              (embeddings s2) (<[id := meta]> (metadatas s2))
                              (if decide (is_Some (metadatas s2 !! id))
                               then keys s2 else keys s2 ++ [id]) in
                  add_loop (S i) ids' docs embs metas s3
              end
          end
      end
  end.

Definition add (s : store) (d : disk) (ids : list string) (docs : list string)
    (embs : list embedding) (metas : list metadata)
  : store * disk * result unit :=
  match add_loop 0 ids docs embs metas s with
  | (s', Ok _) =>
      match _save s' d with
      | (d', Ok _) => (s', d', Ok tt)
      | (d', Raise e) => (s', d', Raise e)
      end
  | (s', Raise e) => (s', d, Raise e)
  end.

(** *** Filters *)

Definition _matches_filter (meta : metadata) (where_ : gmap string pyval) : bool :=
  forallb
    (fun kv =>
       match meta !! fst kv with
       | None => false
       | Some (PList l) => py_in (snd kv) l
       | Some meta_value => py_eqb meta_value (snd kv)
       end)
    (map_to_list where_).

(** [where is None or self._matches_filter(metadata, where)] *)
Definition selected (where_ : option (gmap string pyval)) (meta : metadata) : bool :=
  match where_ with
  | None => true
  | Some w => _matches_filter meta w
  end.

(** The entries of [self.metadatas.items()] that pass the filter. *)
Definition select (s : store) (where_ : option (gmap string pyval))
  : list (string * metadata) :=
  List.filter (fun kv => selected where_ (snd kv)) (items s).

(** The list [candidates] of [query]. *)
Definition candidates (s : store) (where_ : option (gmap string pyval)) : list string :=
  List.map fst (select s where_).

(** The list [to_delete] of [delete]. *)
Definition to_delete (s : store) (where_ : gmap string pyval) : list string :=
  List.map fst (select s (Some where_)).

(** *** get *)

Record get_result : Type := GetResult {
  gr_ids : list string;
  gr_documents : option (list string);
  gr_metadatas : option (list metadata)
}.

(** [include is None or name in include] *)
Definition included (include : option (list string)) (name : string) : bool :=
  match include with
  | None => true
  | Some l => existsb (String.eqb name) l
  end.

(** [l if l else None] *)
Definition or_none {A : Type} (l : list A) : option (list A) :=
  match l with
  | [] => None
  | _ :: _ => Some l
  end.

Definition get (s : store) (where_ : option (gmap string pyval))
    (include : option (list string)) : get_result :=
  let hits := select s where_ in
  let result_documents :=
    if included include "documents"
    then List.map (fun kv => default ""%string (documents s !! fst kv)) hits
    else [] in
  let result_metadatas :=
    if included include "metadatas" then List.map snd hits else [] in
  GetResult (List.map fst hits) (or_none result_documents) (or_none result_metadatas).

(** *** query *)

(** Each field is the inner list of the one-element list that the
    method returns for its single query.  The method does not use its
    [include] argument. *)
Record query_result : Type := QueryResult {
  qr_ids : list string;
  qr_documents : list string;
  qr_metadatas : list metadata;
  qr_distances : list float
}.

Definition empty_result : query_result := QueryResult [] [] [] [].

(** The binary64 value of the literal [1e-8]. *)
Definition epsilon : float := 0x1.5798ee2308c3ap-27%float.

(** The stable sort in ascending order of the distance, by insertion: an
    element goes in front of the first one whose key is greater. *)
Fixpoint insert_by_distance (x : string * float) (l : list (string * float))
  : list (string * float) :=
  match l with
  | [] => [x]
  | y :: l' =>
      if (snd x <? snd y)%float then x :: y :: l'
      else y :: insert_by_distance x l'
  end.

Definition sort_by_distance (l : list (string * float)) : list (string * float) :=
  fold_left (fun acc x => insert_by_distance x acc) l [].

(** [distances.sort(key=lambda x: x[1])].  [list.sort] compares the keys
    with [<]: it returns a permutation of the list, and the stable sort in
    ascending order when [<] orders the keys, that is, when no key is NaN.
    With a NaN among the keys the result depends on the runs and merges of
    the algorithm, which the development leaves open. *)
Class ListSort : Type := {
  list_sort : list (string * float) -> list (string * float);
  list_sort_perm : forall l, Permutation l (list_sort l);
  list_sort_stable : forall l,
    Forall (fun x => PrimFloat.is_nan (snd x) = false) l ->
    list_sort l = sort_by_distance l
}.

Section WithLibraries.

Context {blas : Numpy.Blas} {sorting : ListSort}.

(** [1 - np.dot(q, e) / (np.linalg.norm(q) * np.linalg.norm(e) + 1e-8)] *)
Definition cosine_distance (q e : embedding) : result float :=
  match Numpy.dot q e with
  | Ok d => Ok (1 - d / (Numpy.norm q * Numpy.norm e + epsilon))%float
  | Raise x => Raise x
  end.

(** The loop that fills [distances]; [self.embeddings[id]] raises
    [KeyError] for an id without embedding. *)
Fixpoint distances_of (s : store) (q : embedding) (ids : list string)
  : result (list (string * float)) :=
  match ids with
  | [] => Ok []
  | id :: rest =>
      match embeddings s !! id with
      | None => Raise KeyError
      | Some emb =>
          match cosine_distance q emb with
          | Raise x => Raise x
          | Ok dist =>
              match distances_of s q rest with
              | Raise x => Raise x
              | Ok l => Ok ((id, dist) :: l)
              end
          end
      end
  end.

(** [l[:n]] *)
Definition take_py {A : Type} (n : Z) (l : list A) : list A :=
  firstn (Z.to_nat (adjust (Z.of_nat (List.length l)) n)) l.

Definition query (s : store) (query_embeddings : list embedding) (n_results : Z)
    (where_ : option (gmap string pyval)) : result query_result :=
  if decide (embeddings s = ∅) then Ok empty_result
  else
    match query_embeddings with
    | [] => Raise IndexError
    | query_emb :: _ =>
        match candidates s where_ with
        | [] => Ok empty_result
        | _ :: _ =>
            match distances_of s query_emb (candidates s where_) with
            | Raise x => Raise x
            | Ok distances =>
                let top_results := take_py n_results (list_sort distances) in
                let result_ids := List.map fst top_results in
                Ok (QueryResult result_ids
                      (List.map (fun id => default ""%string (documents s !! id)) result_ids)
                      (List.map (fun id => default ∅ (metadatas s !! id)) result_ids)
                      (List.map snd top_results))
            end
        end
    end.

End WithLibraries.

(** *** delete *)

(** The loop [for id in to_delete]; [del] raises [KeyError] for a
    missing key and leaves the deletions made so far in place. *)
Fixpoint delete_loop (to_delete : list string) (s : store) : store * result unit :=
  match to_delete with
  | [] => (s, Ok tt)
  | id :: rest =>
      match documents s !! id with
      | None => (s, Raise KeyError)
      | Some _ =>
          let s1 := Store (persist_path s) (delete id (documents s))
                      (embeddings s) (metadatas s) (inserted s) in
          match embeddings s1 !! id with
          | None => (s1, Raise KeyError)
          | Some _ =>
              let s2 := Store (persist_path s1) (documents s1)
                          (delete id (embeddings s1)) (metadatas s1)
                          (inserted s1) in
              match metadatas s2 !! id with
              | None => (s2, Raise KeyError)
              | Some _ =>
                  let s3 := Store (persist_path s2) (documents s2)
                              (embeddings s2) (delete id (metadatas s2))
                              (List.filter (fun k => negb (String.eqb k id))
                                 (keys s2)) in
                  delete_loop rest s3
              end
          end
      end
  end.

Definition delete (s : store) (d : disk) (where_ : gmap string pyval)
  : store * disk * result Z :=
  match delete_loop (to_delete s where_) s with
  | (s', Ok _) =>
      match _save s' d with
      | (d', Ok _) => (s', d', Ok (Z.of_nat (List.length (to_delete s where_))))
      | (d', Raise e) => (s', d', Raise e)
      end
  | (s', Raise e) => (s', d, Raise e)
  end.

(** *** Sequences of mutations *)

Inductive op : Type :=
  | OpAdd (ids : list string) (docs : list string) (embs : list embedding)
      (metas : list metadata)
  | OpDelete (where_ : gmap string pyval).

Definition run_op (sd : store * disk) (o : op) : store * disk :=
  match o with
  | OpAdd ids docs embs metas => fst (add (fst sd) (snd sd) ids docs embs metas)
  | OpDelete w => fst (delete (fst sd) (snd sd) w)
  end.

(** The states after each operation of the sequence, in order. *)
Fixpoint trace (sd : store * disk) (ops : list op) : list (store * disk) :=
  match ops with
  | [] => []
  | o :: ops' => let sd' := run_op sd o in sd' :: trace sd' ops'
  end.

End VectorStore.

(** ** The filter of the older store, [app/services/vector_store.py] *)

Module LegacyVectorStore.

(** [all(metadata.get(k) == v for k, v in where.items())] *)
Definition matches (meta : gmap string pyval) (where_ : gmap string pyval) : bool :=
  forallb (fun kv => py_eqb (default PNone (meta !! fst kv)) (snd kv))
    (map_to_list where_).

End LegacyVectorStore.

(** ** The order of binary64 values *)

Module FloatOrder.

(** Three integers that order the values other than NaN as [<=?] does:
    the sign class, then the exponent, then the mantissa. *)
Definition key1 (f : spec_float) : Z :=
  match f with
  | S754_infinity true => -2
  | S754_finite true _ _ => -1
  | S754_finite false _ _ => 1
  | S754_infinity false => 2
  | _ => 0
  end.

Definition key2 (f : spec_float) : Z :=
  match f with
  | S754_finite true _ e => - e
  | S754_finite false _ e => e
  | _ => 0
  end.

Definition key3 (f : spec_float) : Z :=
  match f with
  | S754_finite true m _ => - Zpos m
  | S754_finite false m _ => Zpos m
  | _ => 0
  end.

Definition key_le (a b : spec_float) : Prop :=
  key1 a < key1 b
  \/ (key1 a = key1 b
      /\ (key2 a < key2 b \/ (key2 a = key2 b /\ key3 a <= key3 b))).

End FloatOrder.

(** ** Notions the specification uses *)

Module Spec.

(** [ceil(a / b)] for [0 < b]. *)
Definition ceil_div (a b : Z) : Z := (a + b - 1) / b.

(** The bound the specification gives for the loop of the chunker:
    [ceil(len(t) / (max_size - overlap)) + 1]. *)
Definition claimed_iterations (t : text) (max_size overlap : Z) : Z :=
  ceil_div (len t) (max_size - overlap) + 1.

(** The least advance of [start] in one iteration. *)
Definition stride (max_size overlap : Z) : Z :=
  Z.max 1 (max_size / 2 + 1 - overlap).

(** White space, as [strip] removes it. *)
Definition blank (c : PyStr.char) : Prop := isspace c = true.

(** The character at position [i] of [t] lies inside an occurrence of
    the chunk [c] in [t]. *)
Definition covers (t c : text) (i : nat) : Prop :=
  exists l r, t = l ++ c ++ r /\ (List.length l <= i < List.length l + List.length c)%nat.

(** The filter semantics in the specification's words: for every filter
    key, the record's field is a list that contains the expected value,
    or the field equals the expected value. *)
Definition matches (meta where_ : gmap string pyval) : Prop :=
  forall k v, where_ !! k = Some v ->
    exists field, meta !! k = Some field /\
      ((exists l, field = PList l /\ In v l) \/ field = v).

(** The same with the second case kept to the fields that are no list:
    for every filter key, the record's field is a list that contains the
    expected value, or it is not a list and equals the expected value. *)
Definition matches_by_kind (meta where_ : gmap string pyval) : Prop :=
  forall k v, where_ !! k = Some v ->
    exists field, meta !! k = Some field /\
      ((exists l, field = PList l /\ In v l) \/
       ((forall l, field <> PList l) /\ field = v)).

(** The selection of the backend's [get] and [query], whose filter is
    optional: without a filter every record passes. *)
Definition passes (where_ : option (gmap string pyval)) (meta : gmap string pyval) : Prop :=
  match where_ with
  | None => True
  | Some w => matches_by_kind meta w
  end.

(** What the older store's filter decides: every expected value equals
    the field, where an absent field counts as [None]. *)
Definition matches_exactly (meta where_ : gmap string pyval) : Prop :=
  forall k v, where_ !! k = Some v -> default PNone (meta !! k) = v.

Section WithNumpy.

Context {blas : Numpy.Blas}.

#[local] Set Warnings "-inexact-float".

(** The cosine distance [1 - (q.e) / (|q| * |e| + 1e-8)], where [q.e] is
    the sum of the products and [|q|] the square root of [q.q]. *)
Definition cosine (q e : list float) : float :=
  (1 - Numpy.sum_products q e
       / (sqrt (Numpy.sum_products q q) * sqrt (Numpy.sum_products e e) + 1e-8))%float.

(** [dist] is the cosine distance from [q] to the embedding of [id]. *)
Definition distance_of (s : VectorStore.store) (q : list float) (id : string)
    (dist : float) : Prop :=
  exists e, VectorStore.embeddings s !! id = Some e /\ dist = cosine q e.

End WithNumpy.

(** The distance of the entry is a number. *)
Definition real (x : string * float) : Prop := PrimFloat.is_nan (snd x) = false.

(** Ascending order of the distances. *)
Definition by_distance (a b : string * float) : Prop :=
  (snd a <=? snd b)%float = true.

(** The store's core invariant: the three mappings have the same keys. *)
Definition same_keys (s : VectorStore.store) : Prop :=
  dom (VectorStore.documents s) = dom (VectorStore.embeddings s) /\
  dom (VectorStore.embeddings s) = dom (VectorStore.metadatas s).

(** The arrays of an [add] have the length of [ids]. *)
Definition equal_lengths (o : VectorStore.op) : Prop :=
  match o with
  | VectorStore.OpAdd ids docs embs metas =>
      List.length docs = List.length ids /\
      List.length embs = List.length ids /\
      List.length metas = List.length ids
  | VectorStore.OpDelete _ => True
  end.

End Spec.

(** ** Further notions *)

Module StoreSpec.

(** No expected value of the filter is a list. *)
Definition scalar_filter (w : gmap string pyval) : Prop :=
  forall k v, w !! k = Some v -> forall l, v <> PList l.

(** The same for an optional filter. *)
Definition scalar (where_ : option (gmap string pyval)) : Prop :=
  match where_ with
  | None => True
  | Some w => scalar_filter w
  end.

(** The selection in the specification's words: without a filter every
    record is selected. *)
Definition selects (where_ : option (gmap string pyval)) (meta : gmap string pyval)
  : Prop :=
  match where_ with
  | None => True
  | Some w => Spec.matches meta w
  end.

(** The directory of the store's persistence path can be made. *)
Definition can_make_dir (s : VectorStore.store) (d : VectorStore.disk) : Prop :=
  VectorStore.persist_path s <> ""%string /\ VectorStore.dirs_ok d = true.

End StoreSpec.

Module ChunkSpec.

(** The separators after which the boundary search places a cut: the
    paragraph break, the six sentence breaks, and the space. *)
Definition cut_separators : list text :=
  Chunker.para_sep :: Chunker.sentence_seps ++ [Chunker.space_sep].

(** [c] occurs in [t] as a contiguous piece. *)
Definition substring_of (c t : text) : Prop := exists l r, t = l ++ c ++ r.

End ChunkSpec.

(** ** The models of [models.py] *)

(** [ChunkMetadata] and [Chunk], over the representation [S] of [str]:
    the chunker works on [text], the store on [string]. *)
Module Models.

Record ChunkMetadata (S : Type) : Type := {
  doc_id : S;
  filename : S;
  chunk_id : S;
  page_number : option Z;
  chunk_index : Z;
  device_name : option S;
  doc_type : S;
  standards_referenced : list S;
  section_heading : option S;
  requirement_ids : list S;
  test_case_ids : list S;
  risk_ids : list S
}.

Record Chunk (S : Type) : Type := {
  text : S;
  metadata : ChunkMetadata S
}.

Arguments doc_id {S} _.
Arguments filename {S} _.
Arguments chunk_id {S} _.
Arguments page_number {S} _.
Arguments chunk_index {S} _.
Arguments device_name {S} _.
Arguments doc_type {S} _.
Arguments standards_referenced {S} _.
Arguments section_heading {S} _.
Arguments requirement_ids {S} _.
Arguments test_case_ids {S} _.
Arguments risk_ids {S} _.
Arguments text {S} _.
Arguments metadata {S} _.

End Models.

(** ** The functions of [vector_store.py] around the store *)

Module Documents.

Import VectorStore.

(** [bool(x)] for an optional string: [None] and [""] are false. *)
Definition truthy (o : option string) : bool :=
  match o with
  | Some x => negb (String.eqb x "")
  | None => false
  end.

(** [a or b] for an optional string [a] and a string [b]. *)
Definition str_or (a : option string) (b : string) : string :=
  if truthy a then default ""%string a else b.

(** [{"doc_id": doc_id}] *)
Definition by_doc (doc_id : string) : gmap string pyval :=
  {[ "doc_id"%string := PStr doc_id ]}.

(** The metadata dictionary that [index_chunks] builds for a chunk. *)
Definition chunk_metadata (uploaded_at : string) (device_name : option string)
    (doc_type : string) (chunk : Models.Chunk string) : metadata :=
  let m := Models.metadata chunk in
  list_to_map
    [ ("doc_id", PStr (Models.doc_id m));
      ("filename", PStr (Models.filename m));
      ("chunk_id", PStr (Models.chunk_id m));
      ("page_number",
       PInt (match Models.page_number m with
             | Some n => if (n =? 0)%Z then (-1)%Z else n
             | None => (-1)%Z
             end));
      ("chunk_index", PInt (Models.chunk_index m));
      ("uploaded_at", PStr uploaded_at);
      ("device_name", PStr (str_or device_name (str_or (Models.device_name m) "")));
      ("doc_type",
       PStr (str_or (Some doc_type) (str_or (Some (Models.doc_type m)) "other")));
      ("standards_referenced", PList (List.map PStr (Models.standards_referenced m)));
      ("section_heading", PStr (str_or (Models.section_heading m) ""));
      ("requirement_ids", PList (List.map PStr (Models.requirement_ids m)));
      ("test_case_ids", PList (List.map PStr (Models.test_case_ids m)));
      ("risk_ids", PList (List.map PStr (Models.risk_ids m))) ]%string.

(** [get_document_chunk_count]; [get] does not raise, so the handler
    that returns 0 never runs. *)
Definition get_document_chunk_count (s : store) (doc_id : string) : Z :=
  let results := get s (Some (by_doc doc_id)) None in
  match gr_ids results with
  | [] => 0
  | _ :: _ => Z.of_nat (List.length (gr_ids results))
  end.

Definition document_exists (s : store) (doc_id : string) : bool :=
  get_document_chunk_count s doc_id >? 0.

(** [delete_document]; its handler logs and raises again. *)
Definition delete_document (s : store) (d : disk) (doc_id : string)
  : store * disk * result Z :=
  let chunk_count := get_document_chunk_count s doc_id in
  if chunk_count =? 0 then (s, d, Ok 0)
  else
    match delete s d (by_doc doc_id) with
    | (s', d', Ok _) => (s', d', Ok chunk_count)
    | (s', d', Raise e) => (s', d', Raise e)
    end.

(** One entry of the list that [query_chunks] returns. *)
Record hit : Type := Hit {
  hit_chunk_id : string;
  hit_text : string;
  hit_metadata : metadata;
  hit_distance : float
}.

(** The filter that [query_chunks] builds from its optional arguments. *)
Definition build_where (doc_id device_name doc_type : option string)
  : gmap string pyval :=
  let w0 : gmap string pyval := ∅ in
  let w1 := if truthy doc_id then <["doc_id"%string := PStr (default ""%string doc_id)]> w0
            else w0 in
  let w2 := if truthy device_name
            then <["device_name"%string := PStr (default ""%string device_name)]> w1
            else w1 in
  if truthy doc_type then <["doc_type"%string := PStr (default ""%string doc_type)]> w2
  else w2.

(** [sub in s] for strings. *)
Definition str_contains (s sub : string) : bool :=
  match String.index 0 sub s with
  | Some _ => true
  | None => false
  end.

(** [standard in metadata.get("standards_referenced", [])]: membership
    in a list, a substring test on a string, and [TypeError] on a value
    that is not iterable. *)
Definition holds_standard (meta : metadata) (standard : string) : result bool :=
  match default (PList []) (meta !! "standards_referenced"%string) with
  | PList l => Ok (py_in (PStr standard) l)
  | PStr x => Ok (str_contains x standard)
  | PNone | PInt _ => Raise TypeError
  end.

(** The loop [for i, chunk_id in enumerate(results["ids"][0])], from
    index [i] on. *)
Fixpoint format_results (standard : option string) (results : query_result)
    (i : nat) (ids : list string) : result (list hit) :=
  match ids with
  | [] => Ok []
  | chunk_id :: rest =>
      match qr_metadatas results !! i with
      | None => Raise IndexError
      | Some meta =>
          match (if truthy standard
                 then holds_standard meta (default ""%string standard)
                 else Ok true) with
          | Raise e => Raise e
          | Ok false => format_results standard results (S i) rest
          | Ok true =>
              match qr_documents results !! i, qr_distances results !! i with
              | Some text, Some dist =>
                  match format_results standard results (S i) rest with
                  | Ok l => Ok (Hit chunk_id text meta dist :: l)
                  | Raise e => Raise e
                  end
              | _, _ => Raise IndexError
              end
          end
      end
  end.

Section Provider.

(** The embedding provider behind [get_embeddings]: the OpenAI client or
    the local model, which may raise. *)
Variable provider : list string -> result (list embedding).

Context {blas : Numpy.Blas} {sorting : ListSort}.

Definition get_embeddings (texts : list string) : result (list embedding) :=
  match texts with
  | [] => Ok []
  | _ :: _ => provider texts
  end.

(** [embeddings[0] if embeddings else []] *)
Definition get_embedding (text : string) : result embedding :=
  match get_embeddings [text] with
  | Ok (e :: _) => Ok e
  | Ok [] => Ok []
  | Raise x => Raise x
  end.

(** [index_chunks]; [uploaded_at] is the time that [datetime.utcnow()]
    gives, and [doc_id] and [filename] are only logged. *)
Definition index_chunks (uploaded_at : string) (s : store) (d : disk)
    (chunks : list (Models.Chunk string)) (doc_id filename : string)
    (device_name : option string) (doc_type : string) : store * disk * result Z :=
  match chunks with
  | [] => (s, d, Ok 0)
  | _ :: _ =>
      let ids := List.map (fun c => Models.chunk_id (Models.metadata c)) chunks in
      let documents := List.map Models.text chunks in
      let metadatas := List.map (chunk_metadata uploaded_at device_name doc_type) chunks in
      match get_embeddings documents with
      | Raise e => (s, d, Raise e)
      | Ok embeddings =>
          match add s d ids documents embeddings metadatas with
          | (s', d', Ok _) => (s', d', Ok (Z.of_nat (List.length chunks)))
          | (s', d', Raise e) => (s', d', Raise e)
          end
      end
  end.

Definition query_chunks (s : store) (query : string)
    (doc_id device_name doc_type standard : option string) (top_k : Z)
  : result (list hit) :=
  let where_ := build_where doc_id device_name doc_type in
  match get_embedding query with
  | Raise e => Raise e
  | Ok query_embedding =>
      match VectorStore.query s [query_embedding] top_k
              (if decide (where_ = ∅) then None else Some where_) with
      | Raise e => Raise e
      | Ok results =>
          match qr_ids results with
          | [] => Ok []
          | _ :: _ => format_results standard results 0 (qr_ids results)
          end
      end
  end.

End Provider.

End Documents.

(** ** Notions about stored documents *)

Module DocSpec.

(** The field [key] of [meta] is the string [v], or a list that holds
    it. *)
Definition field_is (meta : gmap string pyval) (key v : string) : Prop :=
  meta !! key = Some (PStr v)
  \/ exists l, meta !! key = Some (PList l) /\ In (PStr v) l.

(** The record with metadata [meta] belongs to the document [doc]. *)
Definition of_document (meta : gmap string pyval) (doc : string) : Prop :=
  field_is meta "doc_id" doc.

(** The field [standards_referenced] of [meta] is a list that holds
    [standard]. *)
Definition cites (meta : gmap string pyval) (standard : string) : Prop :=
  exists l, meta !! "standards_referenced"%string = Some (PList l)
            /\ In (PStr standard) l.

(** The field [standards_referenced] of [meta] is absent or a list, as
    [index_chunks] writes it. *)
Definition standards_listed (meta : gmap string pyval) : Prop :=
  forall v, meta !! "standards_referenced"%string = Some v -> exists l, v = PList l.

End DocSpec.

(** ** Parsed documents, [app/services/parser.py] *)

Module Parser.

Record ParsedPage : Type := {
  text : PyStr.text;
  page_number : option Z
}.

Record ParsedDocument : Type := {
  filename : PyStr.text;
  pages : list ParsedPage
}.

End Parser.

(** ** [set] and [sorted] on strings *)

Module PySeq.

(** [a < b] on strings: the order of the code points at the first
    difference; a proper prefix is smaller. *)
Fixpoint str_lt (a b : text) : bool :=
  match a, b with
  | _, [] => false
  | [], _ :: _ => true
  | x :: a', y :: b' => (x <? y)%N || ((x =? y)%N && str_lt a' b')
  end.

(** One step of a stable sort that compares with [<]: [x] goes in
    front of the first element that is greater. *)
Fixpoint insert_sorted (x : text) (l : list text) : list text :=
  match l with
  | [] => [x]
  | y :: l' => if str_lt x y then x :: y :: l' else y :: insert_sorted x l'
  end.

(** [sorted(l)] *)
Definition sorted (l : list text) : list text :=
  fold_left (fun acc x => insert_sorted x acc) l [].

(** The elements of [set(l)], each once.  Python enumerates a set in an
    order of its own; [sorted] returns the same list for every order. *)
Fixpoint distinct (l : list text) : list text :=
  match l with
  | [] => []
  | x :: l' => if existsb (text_eqb x) l' then distinct l' else x :: distinct l'
  end.

End PySeq.

(** ** The metadata extractor, [metadata_extractor.py] *)

Module MetadataExtractor.

Import PySeq.

(** The name and the pattern of each standard. *)
Definition STANDARD_PATTERNS : list (string * string) :=
  [ ("ISO 10993", "\bISO\s*10993(?:-\d+)?\b");
    ("IEC 62304", "\bIEC\s*62304\b");
    ("ISO 14971", "\bISO\s*14971\b");
    ("IEC 60601", "\bIEC\s*60601(?:-\d+(?:-\d+)?)?\b");
    ("ISO 13485", "\bISO\s*13485\b");
    ("IEC 62366", "\bIEC\s*62366(?:-\d+)?\b");
    ("FDA 21 CFR", "\b21\s*CFR\s*\d+(?:\.\d+)?\b");
    ("HIPAA", "\bHIPAA\b");
    ("GDPR", "\bGDPR\b") ]%string.

(** The keys of [ID_PATTERNS]. *)
Inductive id_kind : Type :=
  | requirement
  | test_case
  | risk.

Definition ID_PATTERNS (kind : id_kind) : list string :=
  match kind with
  | requirement =>
      [ "\bREQ[-_]?\d+(?:\.\d+)*\b"; "\bSRS[-_]?\d+(?:\.\d+)*\b";
        "\bSYS[-_]?\d+(?:\.\d+)*\b"; "\bUR[-_]?\d+\b"; "\bFR[-_]?\d+\b" ]%string
  | test_case =>
      [ "\bTC[-_]?\d+(?:\.\d+)*\b"; "\bTEST[-_]?\d+(?:\.\d+)*\b";
        "\bVT[-_]?\d+\b"; "\bSVT[-_]?\d+\b"; "\bUT[-_]?\d+\b" ]%string
  | risk =>
      [ "\bRISK[-_]?\d+(?:\.\d+)*\b"; "\bHAZ[-_]?\d+(?:\.\d+)*\b";
        "\bFMEA[-_]?\d+\b"; "\bRM[-_]?\d+\b" ]%string
  end.

Definition heading_patterns : list string :=
  [ "^\d+(?:\.\d+)*\s+[A-Z]"; "^[A-Z][A-Z\s]+$";
    "^(?:Section|Chapter|Part)\s+\d+" ]%string.

(** What [extract_all_metadata] returns. *)
Record extracted : Type := Extracted {
  standards_referenced : list text;
  requirement_ids : list text;
  test_case_ids : list text;
  risk_ids : list text;
  section_heading : option text
}.

(** [t.split('\n')[0]] *)
Fixpoint until_newline (t : text) : text :=
  match t with
  | [] => []
  | c :: t' => if (c =? 10)%N then [] else c :: until_newline t'
  end.

(** The value of [standards_referenced] in a dictionary passed to
    [aggregate_standards_from_chunks]: the key may be absent, and a value
    that is not a list is passed over. *)
Inductive standards_field : Type :=
  | Absent
  | Strings (l : list text)
  | NotAList.

(** [aggregate_standards_from_chunks] *)
Definition aggregate_standards_from_chunks (chunks_metadata : list standards_field)
  : list text :=
  sorted (distinct
            (flat_map (fun metadata =>
                         match metadata with
                         | Absent => []
                         | Strings standards => standards
                         | NotAList => []
                         end) chunks_metadata)).

Section Regex.

(** The library functions the extractor calls:
    [re.search(pattern, text, re.IGNORECASE)] (whether there is a match),
    [re.findall(pattern, text, re.IGNORECASE)] (the matched pieces; no
    pattern has a capturing group), [re.match(pattern, text)] and
    [str.upper]. *)
Variable re_search_ignorecase : string -> text -> bool.
Variable re_findall_ignorecase : string -> text -> list text.
Variable re_match : string -> text -> bool.
Variable upper : text -> text.

Definition detect_standards (t : text) : list text :=
  match t with
  | [] => []
  | _ :: _ =>
      sorted (distinct
                (List.map (fun entry => of_string (fst entry))
                   (List.filter (fun entry => re_search_ignorecase (snd entry) t)
                      STANDARD_PATTERNS)))
  end.

(** The body that [detect_requirement_ids], [detect_test_case_ids] and
    [detect_risk_ids] share, for the patterns of [kind]. *)
Definition detect_ids (kind : id_kind) (t : text) : list text :=
  match t with
  | [] => []
  | _ :: _ =>
      VectorStore.take_py 10
        (sorted (distinct
                   (flat_map (fun pattern =>
                                List.map upper (re_findall_ignorecase pattern t))
                      (ID_PATTERNS kind))))
  end.

Definition detect_requirement_ids : text -> list text := detect_ids requirement.

Definition detect_test_case_ids : text -> list text := detect_ids test_case.

Definition detect_risk_ids : text -> list text := detect_ids risk.

Definition detect_section_heading (t : text) : option text :=
  match t with
  | [] => None
  | _ :: _ =>
      let first_line := strip (until_newline (strip t)) in
      if len first_line <? 100 then
        if existsb (fun pattern => re_match pattern first_line) heading_patterns
        then Some (slice first_line 0 80)
        else None
      else None
  end.

Definition extract_all_metadata (t : text) : extracted :=
  Extracted (detect_standards t) (detect_requirement_ids t) (detect_test_case_ids t)
    (detect_risk_ids t) (detect_section_heading t).

End Regex.

End MetadataExtractor.

(** ** [chunk_document], [backend/app/services/chunker.py] *)

Module DocChunker.

(** The values of the type [DocType]; the model [ChunkMetadata] accepts
    no other. *)
Inductive DocType : Type :=
  | device_description
  | vnv
  | biocompatibility
  | regulatory
  | other.

Definition doc_type_name (doc_type : DocType) : string :=
  match doc_type with
  | device_description => "device_description"
  | vnv => "vnv"
  | biocompatibility => "biocompatibility"
  | regulatory => "regulatory"
  | other => "other"
  end.

(** [f"{doc_id}_chunk_{chunk_index}"] *)
Definition chunk_id_of (doc_id : text) (chunk_index : Z) : text :=
  doc_id ++ of_string "_chunk_" ++ of_string (pretty chunk_index).

Section Regex.

(** The library functions that [extract_all_metadata] calls. *)
Variable re_search_ignorecase : string -> text -> bool.
Variable re_findall_ignorecase : string -> text -> list text.
Variable re_match : string -> text -> bool.
Variable upper : text -> text.

(** The chunk that the inner loop builds for a piece [t] of a page. *)
Definition make_chunk (doc_id filename : text) (device_name : option text)
    (doc_type : DocType) (page_number : option Z) (chunk_index : Z) (t : text)
  : Models.Chunk text :=
  let extracted :=
    MetadataExtractor.extract_all_metadata re_search_ignorecase re_findall_ignorecase
      re_match upper t in
  Models.Build_Chunk text t
    (Models.Build_ChunkMetadata text doc_id filename (chunk_id_of doc_id chunk_index)
       page_number chunk_index device_name (of_string (doc_type_name doc_type))
       (MetadataExtractor.standards_referenced extracted)
       (MetadataExtractor.section_heading extracted)
       (MetadataExtractor.requirement_ids extracted)
       (MetadataExtractor.test_case_ids extracted)
       (MetadataExtractor.risk_ids extracted)).

(** The loop [for text in text_chunks]; it returns [all_chunks] and
    [chunk_index]. *)
Fixpoint page_loop (doc_id filename : text) (device_name : option text)
    (doc_type : DocType) (page_number : option Z) (text_chunks : list text)
    (all_chunks : list (Models.Chunk text)) (chunk_index : Z)
  : list (Models.Chunk text) * Z :=
  match text_chunks with
  | [] => (all_chunks, chunk_index)
  | t :: rest =>
      page_loop doc_id filename device_name doc_type page_number rest
        (all_chunks
         ++ [make_chunk doc_id filename device_name doc_type page_number chunk_index t])
        (chunk_index + 1)
  end.

(** The loop [for page in doc.pages]. *)
Fixpoint pages_loop (fuel : nat) (doc_id filename : text) (device_name : option text)
    (doc_type : DocType) (chunk_size chunk_overlap : Z) (pages : list Parser.ParsedPage)
    (all_chunks : list (Models.Chunk text)) (chunk_index : Z)
  : option (list (Models.Chunk text)) :=
  match pages with
  | [] => Some all_chunks
  | page :: rest =>
      match Parser.text page, strip (Parser.text page) with
      | [], _ | _, [] =>
          pages_loop fuel doc_id filename device_name doc_type chunk_size chunk_overlap
            rest all_chunks chunk_index
      | _ :: _, _ :: _ =>
          match Chunker.chunk_text fuel (Parser.text page) chunk_size chunk_overlap with
          | None => None
          | Some text_chunks =>
              let (all_chunks', chunk_index') :=
                page_loop doc_id filename device_name doc_type
                  (Parser.page_number page) text_chunks all_chunks chunk_index in
              pages_loop fuel doc_id filename device_name doc_type chunk_size
                chunk_overlap rest all_chunks' chunk_index'
          end
      end
  end.

Definition chunk_document (fuel : nat) (doc : Parser.ParsedDocument) (doc_id : text)
    (device_name : option text) (doc_type : DocType) (chunk_size chunk_overlap : Z)
  : option (list (Models.Chunk text)) :=
  pages_loop fuel doc_id (Parser.filename doc) device_name doc_type chunk_size
    chunk_overlap (Parser.pages doc) [] 0.

End Regex.

End DocChunker.

(** ** Notions about the extractor *)

Module ExtractSpec.

(** [a <= b] on strings. *)
Definition str_le (a b : text) : Prop := PySeq.str_lt b a = false.

(** Strictly ascending. *)
Definition ascending (l : list text) : Prop :=
  StronglySorted (fun a b => PySeq.str_lt a b = true) l.

End ExtractSpec.

(** * Properties *)

(** ** Strings *)

Import Spec.

Section StringFacts.

Implicit Types (t c : text) (i : nat).

(** The white space code points, all of them. *)
Lemma isspace_table (x : char) :
  isspace x = true
  <-> In x [9; 10; 11; 12; 13; 28; 29; 30; 31; 32; 133; 160; 5760;
            8192; 8193; 8194; 8195; 8196; 8197; 8198; 8199; 8200; 8201; 8202;
            8232; 8233; 8239; 8287; 12288]%N.
Proof.
  unfold isspace.
  rewrite !orb_true_iff, !andb_true_iff, !N.leb_le, !N.eqb_eq. simpl. lia.
Qed.

Lemma lstrip_split t : exists pre, t = pre ++ lstrip t /\ Forall blank pre.
Proof.
  induction t as [|x t IH]; simpl.
  - exists []. split; [reflexivity | constructor].
  - destruct (isspace x) eqn:Hx.
    + destruct IH as (pre & Ht & Hpre). exists (x :: pre). split.
      * simpl. now rewrite <- Ht.
      * now constructor.
    + exists []. split; [reflexivity | constructor].
Qed.

Lemma rstrip_split t : exists post, t = rstrip t ++ post /\ Forall blank post.
Proof.
  unfold rstrip. destruct (lstrip_split (rev t)) as (pre & Ht & Hpre).
  exists (rev pre). split.
  - rewrite <- rev_app_distr, <- Ht. symmetry. apply rev_involutive.
  - now apply Forall_rev.
Qed.

Lemma strip_split t :
  exists pre post, t = pre ++ strip t ++ post /\ Forall blank pre /\ Forall blank post.
Proof.
  destruct (lstrip_split t) as (pre & Ht & Hpre).
  destruct (rstrip_split (lstrip t)) as (post & Hl & Hpost).
  exists pre, post. unfold strip. rewrite <- Hl. auto.
Qed.

Lemma strip_length t : (List.length (strip t) <= List.length t)%nat.
Proof.
  destruct (strip_split t) as (pre & post & Ht & _).
  rewrite Ht at 2. rewrite !length_app. lia.
Qed.

Lemma lstrip_head t x r : lstrip t = x :: r -> isspace x = false.
Proof.
  induction t as [|y t IH]; simpl; [discriminate|].
  destruct (isspace y) eqn:Hy; [assumption|]. intros [= <- _]. assumption.
Qed.

Lemma lstrip_snoc t x : isspace x = false -> lstrip (t ++ [x]) = lstrip t ++ [x].
Proof.
  intros Hx. induction t as [|y t IH]; simpl.
  - now rewrite Hx.
  - destruct (isspace y); [assumption | reflexivity].
Qed.

(** A stripped text that is not empty starts with a character that is
    not white space. *)
Lemma strip_head t x r : strip t = x :: r -> isspace x = false.
Proof.
  unfold strip, rstrip. destruct (lstrip t) as [|y m] eqn:Hm; [discriminate|].
  pose proof (lstrip_head _ _ _ Hm) as Hy.
  simpl rev. rewrite lstrip_snoc by assumption.
  rewrite rev_app_distr. simpl. intros [= <- _]. assumption.
Qed.

Lemma nonblank_in_middle (pre mid post : text) i x :
  (pre ++ mid ++ post) !! i = Some x -> isspace x = false ->
  Forall blank pre -> Forall blank post ->
  (List.length pre <= i < List.length pre + List.length mid)%nat.
Proof.
  intros Hi Hx Hpre Hpost.
  assert (Hno : forall l : text, Forall blank l -> forall j, l !! j = Some x -> False).
  { intros l Hl j Hj. rewrite Forall_lookup in Hl. specialize (Hl _ _ Hj).
    unfold blank in Hl. congruence. }
  destruct (Nat.lt_ge_cases i (List.length pre)) as [Hlt|Hge].
  { rewrite lookup_app_l in Hi by assumption. destruct (Hno _ Hpre _ Hi). }
  rewrite lookup_app_r in Hi by assumption.
  destruct (Nat.lt_ge_cases (i - List.length pre) (List.length mid)) as [Hlt'|Hge'].
  { lia. }
  rewrite lookup_app_r in Hi by assumption. destruct (Hno _ Hpost _ Hi).
Qed.

Lemma len_nonneg t : 0 <= len t.
Proof. unfold len. lia. Qed.

(** A slice with bounds [0 <= lo <= hi] and the text around it. *)
Lemma slice_split t lo hi :
  0 <= lo -> lo <= hi -> lo <= len t ->
  t = firstn (Z.to_nat lo) t ++ slice t lo hi ++ skipn (Z.to_nat (Z.min hi (len t))) t.
Proof.
  intros Hlo Hhi Hlen. unfold slice, adjust.
  destruct (Z.ltb_spec lo 0); [lia|]. destruct (Z.ltb_spec hi 0); [lia|].
  rewrite (Z.min_l lo) by lia.
  rewrite <- (firstn_skipn (Z.to_nat lo) t) at 1. f_equal.
  rewrite <- (firstn_skipn (Z.to_nat (Z.min hi (len t) - lo)) (skipn (Z.to_nat lo) t)) at 1.
  f_equal. rewrite skipn_skipn. f_equal. lia.
Qed.

Lemma slice_length t lo hi :
  0 <= lo -> 0 <= hi -> len (slice t lo hi) <= Z.max 0 (hi - lo).
Proof.
  intros Hlo Hhi. unfold slice, adjust, len.
  destruct (Z.ltb_spec lo 0); [lia|]. destruct (Z.ltb_spec hi 0); [lia|].
  rewrite length_firstn. unfold len. lia.
Qed.

(** A character of [t] that is not white space and lies in the window
    [lo, hi) lies in the stripped slice. *)
Lemma strip_slice_covers t lo hi i x :
  0 <= lo -> lo <= Z.of_nat i < hi ->
  t !! i = Some x -> isspace x = false ->
  covers t (strip (slice t lo hi)) i.
Proof.
  intros Hlo Hi Hx Hns.
  pose proof (lookup_lt_Some _ _ _ Hx) as Hlt.
  assert (Hlen : lo <= len t) by (unfold len; lia).
  pose proof (slice_split t lo hi Hlo ltac:(lia) Hlen) as Ht.
  destruct (strip_split (slice t lo hi)) as (pre & post & Hs & Hpre & Hpost).
  set (a := firstn (Z.to_nat lo) t) in *.
  set (b := skipn (Z.to_nat (Z.min hi (len t))) t) in *.
  assert (Ha : List.length a = Z.to_nat lo).
  { subst a. rewrite length_firstn. unfold len in Hlen. lia. }
  assert (Hb : (List.length a + List.length (slice t lo hi) = Z.to_nat (Z.min hi (len t)))%nat).
  { apply (f_equal (@List.length char)) in Ht. rewrite !length_app in Ht.
    subst b. rewrite length_skipn in Ht. unfold len in *. lia. }
  assert (Hsl : slice t lo hi !! (i - List.length a)%nat = Some x).
  { assert (Hx' : (a ++ slice t lo hi ++ b) !! i = Some x) by (rewrite <- Ht; exact Hx).
    rewrite lookup_app_r in Hx' by lia.
    rewrite lookup_app_l in Hx'; [assumption|]. unfold len in *. lia. }
  rewrite Hs in Hsl.
  pose proof (nonblank_in_middle _ _ _ _ _ Hsl Hns Hpre Hpost) as Hmid.
  exists (a ++ pre), (post ++ b). split.
  - rewrite Ht at 1. rewrite Hs at 1. now rewrite <- !app_assoc.
  - rewrite length_app. lia.
Qed.

Lemma rfind_down_range t sub lo n :
  rfind_down t sub lo n = -1 \/
  (lo <= rfind_down t sub lo n < lo + Z.of_nat n).
Proof.
  induction n as [|n IH]; simpl; [now left|].
  destruct (occurs_at t sub (lo + Z.of_nat n)); [right; lia|].
  destruct IH as [IH|IH]; [now left | right; lia].
Qed.

(** What [rfind_down] returns is an occurrence, and no candidate above
    it is one. *)
Lemma rfind_down_highest t sub lo n :
  0 <= lo -> rfind_down t sub lo n <> -1 ->
  occurs_at t sub (rfind_down t sub lo n) = true /\
  forall j, rfind_down t sub lo n < j < lo + Z.of_nat n -> occurs_at t sub j = false.
Proof.
  intros Hlo. induction n as [|n IH]; simpl; [congruence|].
  destruct (occurs_at t sub (lo + Z.of_nat n)) eqn:Hocc.
  - intros _. split; [exact Hocc | intros j Hj; lia].
  - intros Hr. destruct (IH Hr) as [Hfound Hnone]. split; [exact Hfound|].
    intros j Hj. destruct (Z.eq_dec j (lo + Z.of_nat n)) as [->|Hne]; [exact Hocc|].
    apply Hnone. lia.
Qed.

(** With bounds that are not negative, a match of [rfind] starts at or
    after [lo] and ends at or before [hi]. *)
Lemma rfind_range t sub lo hi :
  0 <= lo -> 0 <= hi ->
  rfind t sub lo hi = -1 \/
  (lo <= rfind t sub lo hi /\ rfind t sub lo hi + len sub <= hi).
Proof.
  intros Hlo Hhi. unfold rfind, adjust.
  destruct (Z.ltb_spec lo 0); [lia|]. destruct (Z.ltb_spec hi 0); [lia|].
  match goal with |- context [rfind_down t sub lo ?n] =>
    destruct (rfind_down_range t sub lo n) as [H1|H1] end; [now left | right].
  lia.
Qed.

End StringFacts.

(** ** The window and the advance of [start] *)

Section WindowFacts.

Import Chunker.

Variables (t : text) (chunk_size chunk_overlap : Z).
Hypothesis size_pos : 1 <= chunk_size.

Lemma half_bounds : 0 <= chunk_size / 2 /\ chunk_size / 2 + 1 <= chunk_size.
Proof.
  pose proof (Z.div_pos chunk_size 2 ltac:(lia) ltac:(lia)).
  pose proof (Z.mul_div_le chunk_size 2 ltac:(lia)). lia.
Qed.

Lemma sentence_break_bounds seps start end_ e :
  Forall (fun sep => 1 <= len sep) seps ->
  0 <= start -> 0 <= end_ ->
  sentence_break t seps start chunk_size end_ = Some e ->
  start + chunk_size / 2 + 1 <= e <= end_.
Proof.
  intros Hseps Hs He. pose proof half_bounds as Hh.
  induction Hseps as [|sep seps Hsep _ IH]; simpl; [discriminate|].
  destruct (Z.gtb_spec (rfind t sep (start + chunk_size / 2) end_) start) as [Hgt|_];
    [|exact IH].
  intros [= <-].
  destruct (rfind_range t sep (start + chunk_size / 2) end_) as [H1|H1]; lia.
Qed.

(** The separators as code points: line feed is 10, space 32, then
    [.] 46, [!] 33 and [?] 63. *)
Example separators :
  para_sep = [10; 10]%N /\ space_sep = [32]%N /\
  sentence_seps = [[46; 32]; [46; 10]; [33; 32]; [33; 10]; [63; 32]; [63; 10]]%N.
Proof. repeat split. Qed.

Lemma sentence_seps_len : Forall (fun sep => 1 <= len sep) sentence_seps.
Proof. repeat constructor; vm_compute; discriminate. Qed.

(** The window is never empty, reaches past its midpoint, and is at
    most [chunk_size] long. *)
Lemma window_end_bounds start :
  0 <= start ->
  start + chunk_size / 2 + 1 <= window_end t chunk_size start <= start + chunk_size.
Proof.
  intros Hs. pose proof half_bounds as Hh. unfold window_end.
  destruct (Z.ltb_spec (start + chunk_size) (len t)) as [Hlt|Hge]; [|lia].
  destruct (Z.gtb_spec (rfind t para_sep start (start + chunk_size))
              (start + chunk_size / 2)) as [Hp|_].
  { destruct (rfind_range t para_sep start (start + chunk_size)) as [H1|H1];
      [lia | lia | lia |]. change (len para_sep) with 2 in H1. lia. }
  destruct (sentence_break t sentence_seps start chunk_size (start + chunk_size))
    as [e|] eqn:He.
  { apply sentence_break_bounds in He; [lia | apply sentence_seps_len | lia | lia]. }
  destruct (Z.gtb_spec (rfind t space_sep (start + chunk_size / 2) (start + chunk_size))
              start) as [Hsp|_]; [|lia].
  destruct (rfind_range t space_sep (start + chunk_size / 2) (start + chunk_size))
    as [H1|H1]; [lia | lia | lia |]. change (len space_sep) with 1 in H1. lia.
Qed.

Hypothesis overlap_nonneg : 0 <= chunk_overlap.

(** Every iteration moves [start] forward by [stride] at least, and
    never past the end of the window. *)
Lemma next_start_bounds start :
  0 <= start ->
  start + stride chunk_size chunk_overlap <= next_start t chunk_size chunk_overlap start
  /\ next_start t chunk_size chunk_overlap start <= window_end t chunk_size start.
Proof.
  intros Hs. pose proof (window_end_bounds start Hs) as Hw.
  pose proof half_bounds as Hh. unfold next_start, stride.
  destruct (Z.leb_spec (window_end t chunk_size start - chunk_overlap) start); lia.
Qed.

Lemma stride_pos : 1 <= stride chunk_size chunk_overlap.
Proof. unfold stride. lia. Qed.

Lemma chunk_at_length start :
  0 <= start -> len (chunk_at t chunk_size start) <= chunk_size.
Proof.
  intros Hs. pose proof (window_end_bounds start Hs) as Hw.
  pose proof half_bounds as Hh. unfold chunk_at.
  pose proof (strip_length (slice t start (window_end t chunk_size start))) as H1.
  pose proof (slice_length t start (window_end t chunk_size start) Hs ltac:(lia)) as H2.
  unfold len in *. lia.
Qed.

Lemma emit_incl chunks c x : In x chunks -> In x (emit chunks c).
Proof. destruct c; simpl; [auto|]. intros H. apply in_or_app. now left. Qed.

Lemma emit_new chunks c : c <> [] -> In c (emit chunks c).
Proof. destruct c; [congruence|]. intros _. simpl. apply in_or_app. right. now left. Qed.

Lemma emit_elim chunks c x : In x (emit chunks c) -> In x chunks \/ (x = c /\ c <> []).
Proof.
  destruct c; simpl; [auto|]. intros H. apply in_app_or in H.
  destruct H as [H|[H|[]]]; [now left|]. right. now split.
Qed.

(** *** The loop *)

(** An invariant of the loop body holds when the loop ends, and [start]
    is then at or past the end of the text. *)
Lemma chunk_loop_invariant (I : Z -> list text -> nat -> Prop) :
  (forall start chunks n,
      I start chunks n -> start < len t ->
      I (next_start t chunk_size chunk_overlap start)
        (emit chunks (chunk_at t chunk_size start)) (S n)) ->
  forall fuel start chunks n out m,
    I start chunks n ->
    chunk_loop fuel t chunk_size chunk_overlap start chunks n = Some (out, m) ->
    exists start', len t <= start' /\ I start' out m.
Proof.
  intros Hstep fuel. induction fuel as [|fuel IH]; intros start chunks n out m HI; simpl.
  - destruct (Z.ltb_spec start (len t)); [discriminate|].
    intros [= <- <-]. eauto.
  - destruct (Z.ltb_spec start (len t)) as [Hlt|Hge].
    + apply IH. now apply Hstep.
    + intros [= <- <-]. eauto.
Qed.

(** The loop ends within [len(text) - start] iterations. *)
Lemma chunk_loop_terminates fuel start chunks n :
  0 <= start -> (Z.to_nat (len t - start) <= fuel)%nat ->
  is_Some (chunk_loop fuel t chunk_size chunk_overlap start chunks n).
Proof.
  revert start chunks n. induction fuel as [|fuel IH]; intros start chunks n Hs Hf; simpl.
  - destruct (Z.ltb_spec start (len t)); [lia | eauto].
  - destruct (Z.ltb_spec start (len t)) as [Hlt|Hge]; [|eauto].
    pose proof (next_start_bounds start Hs) as [Hn _]. pose proof stride_pos.
    apply IH; lia.
Qed.

(** More fuel does not change a result. *)
Lemma chunk_loop_fuel fuel fuel' start chunks n r :
  (fuel <= fuel')%nat ->
  chunk_loop fuel t chunk_size chunk_overlap start chunks n = Some r ->
  chunk_loop fuel' t chunk_size chunk_overlap start chunks n = Some r.
Proof.
  revert fuel' start chunks n. induction fuel as [|fuel IH]; intros fuel' start chunks n Hle; simpl.
  - destruct (Z.ltb_spec start (len t)) as [Hlt|Hge]; [discriminate|].
    intros <-. destruct fuel'; simpl; destruct (Z.ltb_spec start (len t)); (lia || reflexivity).
  - destruct fuel' as [|fuel']; [lia|]. simpl.
    destruct (Z.ltb_spec start (len t)) as [Hlt|Hge]; [|auto].
    apply IH. lia.
Qed.

End WindowFacts.

(** ** The chunker *)

Section ChunkerFacts.

Import Chunker.

Implicit Types (t : text) (max_size overlap : Z) (fuel : nat).

Lemma strip_nonblank t :
  (exists x, In x t /\ isspace x = false) -> strip t <> [].
Proof.
  intros (x & Hin & Hx) He.
  destruct (strip_split t) as (pre & post & Ht & Hpre & Hpost).
  rewrite He in Ht. simpl in Ht. rewrite Ht in Hin.
  apply in_app_or in Hin. rewrite !List.Forall_forall in *.
  destruct Hin as [Hin|Hin]; [apply Hpre in Hin | apply Hpost in Hin];
    unfold blank in Hin; congruence.
Qed.

Lemma strip_len t : len (strip t) <= len t.
Proof. pose proof (strip_length t). unfold len. lia. Qed.

Lemma chunk_run_short t max_size overlap fuel :
  strip t <> [] -> len (strip t) <= max_size ->
  chunk_run fuel t max_size overlap = Some ([strip t], O).
Proof.
  intros Hne Hlen. unfold chunk_run. destruct (strip t) as [|x r] eqn:Hs; [congruence|].
  destruct (Z.leb_spec (len (x :: r)) max_size); [reflexivity | lia].
Qed.

Lemma chunk_run_long t max_size overlap fuel :
  max_size < len (strip t) ->
  chunk_run fuel t max_size overlap
  = chunk_loop fuel (strip t) max_size overlap 0 [] O.
Proof.
  intros Hlen. unfold chunk_run. destruct (strip t) as [|x r] eqn:Hs.
  - destruct fuel; simpl; destruct (Z.ltb_spec 0 (len [])); try reflexivity;
      unfold len in *; simpl in *; lia.
  - destruct (Z.leb_spec (len (x :: r)) max_size); [lia | reflexivity].
Qed.

(** The three cases of [chunk_text]. *)
Lemma chunk_run_cases t max_size overlap fuel :
  (strip t = [] /\ chunk_run fuel t max_size overlap = Some ([], O))
  \/ (strip t <> [] /\ len (strip t) <= max_size
      /\ chunk_run fuel t max_size overlap = Some ([strip t], O))
  \/ (max_size < len (strip t)
      /\ chunk_run fuel t max_size overlap
         = chunk_loop fuel (strip t) max_size overlap 0 [] O).
Proof.
  destruct (strip t) as [|x r] eqn:Hs.
  - left. split; [reflexivity|]. unfold chunk_run. now rewrite Hs.
  - right. destruct (Z.le_gt_cases (len (x :: r)) max_size) as [Hle|Hgt].
    + left. rewrite <- Hs in *. split; [congruence|]. split; [assumption|].
      apply chunk_run_short; [congruence | assumption].
    + right. rewrite <- Hs in *. split; [lia|]. apply chunk_run_long. lia.
Qed.

(** With [0 <= overlap < max_size], [chunk_text] returns; fuel equal to
    the length of the text is enough. *)
Lemma chunk_run_terminates t max_size overlap fuel :
  0 <= overlap < max_size -> (List.length t <= fuel)%nat ->
  is_Some (chunk_run fuel t max_size overlap).
Proof.
  intros Hov Hfuel.
  destruct (chunk_run_cases t max_size overlap fuel) as [[_ ->]|[(_ & _ & ->)|[Hlong ->]]];
    [eauto | eauto |].
  apply chunk_loop_terminates; [lia | lia | lia |].
  pose proof (strip_length t). unfold len. lia.
Qed.

(** More fuel does not change a result. *)
Lemma chunk_run_fuel t max_size overlap fuel fuel' r :
  (fuel <= fuel')%nat ->
  chunk_run fuel t max_size overlap = Some r ->
  chunk_run fuel' t max_size overlap = Some r.
Proof.
  intros Hle. unfold chunk_run. destruct (strip t) as [|x s]; [auto|].
  destruct (len (x :: s) <=? max_size); [auto|]. now apply chunk_loop_fuel.
Qed.

Lemma ceil_div_nonneg a b : 0 <= a -> 1 <= b -> 0 <= ceil_div a b.
Proof. intros Ha Hb. unfold ceil_div. apply Z.div_pos; lia. Qed.

Lemma ceil_div_le a b : 0 <= a -> 1 <= b -> ceil_div a b <= a.
Proof.
  intros Ha Hb. unfold ceil_div.
  assert ((a + b - 1) / b < a + 1); [|lia].
  apply Z.div_lt_upper_bound; nia.
Qed.

End ChunkerFacts.

(** ** Claims about the chunker *)

Section ChunkerClaims.

Import Chunker.

Implicit Types (t : text) (max_size overlap : Z) (fuel : nat).

(** The first window of a stripped text that is not empty yields a
    chunk. *)
Lemma first_chunk_nonempty t max_size :
  1 <= max_size -> strip t <> [] -> chunk_at (strip t) max_size 0 <> [].
Proof.
  intros Hsize Hne Hempty. destruct (strip t) as [|x r] eqn:Hs; [congruence|].
  pose proof (strip_head _ _ _ Hs) as Hx. rewrite <- Hs in *.
  pose proof (window_end_bounds (strip t) max_size Hsize 0 ltac:(lia)) as Hw.
  pose proof (half_bounds max_size Hsize) as Hh.
  assert (Hc : covers (strip t) (chunk_at (strip t) max_size 0) 0).
  { apply (strip_slice_covers _ 0 _ 0%nat x); [lia | lia | now rewrite Hs | assumption]. }
  rewrite Hempty in Hc. destruct Hc as (l & r' & _ & Hr). simpl in Hr. lia.
Qed.

(** For a text longer than [chunk_size] the older chunker raises
    [TypeError] in the first iteration of its loop. *)
Lemma legacy_chunk_text_raises t max_size overlap fuel :
  1 <= max_size -> max_size < len (strip t) ->
  LegacyChunker.chunk_text (S fuel) t max_size overlap = Some (Raise TypeError).
Proof.
  intros Hsize Hlong. unfold LegacyChunker.chunk_text.
  destruct (strip t) as [|x r] eqn:Hs; [unfold len in Hlong; simpl in Hlong; lia|].
  rewrite <- Hs in *.
  destruct (Z.leb_spec (len (strip t)) max_size); [lia|].
  simpl. destruct (Z.ltb_spec 0 (len (strip t))); [|lia].
  pose proof (first_chunk_nonempty t max_size Hsize ltac:(congruence)) as Hne.
  destruct (chunk_at (strip t) max_size 0); [congruence | reflexivity].
Qed.

Lemma legacy_chunk_text_cases t max_size overlap fuel :
  1 <= max_size ->
  (strip t = [] /\ LegacyChunker.chunk_text (S fuel) t max_size overlap = Some (Ok []))
  \/ (strip t <> [] /\ len (strip t) <= max_size
      /\ LegacyChunker.chunk_text (S fuel) t max_size overlap = Some (Ok [strip t]))
  \/ (max_size < len (strip t)
      /\ LegacyChunker.chunk_text (S fuel) t max_size overlap = Some (Raise TypeError)).
Proof.
  intros Hsize. destruct (Z.le_gt_cases (len (strip t)) max_size) as [Hle|Hgt].
  - unfold LegacyChunker.chunk_text. destruct (strip t) as [|x r] eqn:Hs; [now left|].
    right. left. split; [congruence|]. split; [assumption|].
    destruct (Z.leb_spec (len (x :: r)) max_size); [reflexivity | lia].
  - right. right. split; [lia|]. apply legacy_chunk_text_raises; lia.
Qed.

(** C9, amended: for every text [t] that has a character other than
    white space and with [len(t) <= max_size], [chunk_text(t, max_size,
    overlap)] returns exactly [[trim(t)]]. *)
Theorem chunk_text_short t max_size overlap fuel :
  (exists x, In x t /\ isspace x = false) ->
  len t <= max_size ->
  chunk_text fuel t max_size overlap = Some [strip t].
Proof.
  intros Hx Hlen. unfold chunk_text.
  rewrite chunk_run_short; [reflexivity | now apply strip_nonblank |].
  pose proof (strip_len t). lia.
Qed.

Lemma chunk_text_short_witness :
  chunk_text 0 (of_string " ab ") 5 0 = Some [strip (of_string " ab ")].
Proof.
  apply chunk_text_short.
  - exists 97%N. split; [simpl; tauto | reflexivity].
  - vm_compute. discriminate.
Defined.

(** C9 as stated fails for a text of white space only: it is not empty
    and not longer than [max_size], and the result is the empty list,
    not [[trim(t)]]. *)
Lemma chunk_text_short_counterexample :
  of_string " " <> [] /\ len (of_string " ") <= 5 /\
  (forall fuel, chunk_text fuel (of_string " ") 5 0 = Some []) /\
  (forall fuel, chunk_text fuel (of_string " ") 5 0 <> Some [strip (of_string " ")]).
Proof.
  split; [discriminate|]. split; [vm_compute; discriminate|].
  split; intros fuel; [reflexivity | discriminate].
Qed.

(** C10: with [0 <= overlap < max_size], every string that [chunk_text]
    returns has length at most [max_size]; this holds for the backend
    chunker, which returns for every text, and for every result that the
    older chunker returns. *)
Theorem chunk_text_length t max_size overlap fuel :
  0 <= overlap < max_size -> (List.length t <= fuel)%nat ->
  (exists chunks, chunk_text fuel t max_size overlap = Some chunks
                  /\ Forall (fun c => len c <= max_size) chunks)
  /\ (forall chunks, LegacyChunker.chunk_text fuel t max_size overlap = Some (Ok chunks) ->
                     Forall (fun c => len c <= max_size) chunks).
Proof.
  intros Hov Hfuel. split.
  - destruct (chunk_run_terminates t max_size overlap fuel Hov Hfuel) as [[out m] Hrun].
    exists out. unfold chunk_text. rewrite Hrun. split; [reflexivity|].
    destruct (chunk_run_cases t max_size overlap fuel)
      as [[_ Hr]|[(_ & Hlen & Hr)|[Hlong Hr]]]; rewrite Hr in Hrun.
    + injection Hrun as <- <-. constructor.
    + injection Hrun as <- <-. repeat constructor. assumption.
    + apply (chunk_loop_invariant (strip t) max_size overlap
               (fun start chunks _ => 0 <= start /\ Forall (fun c => len c <= max_size) chunks))
        in Hrun.
      * destruct Hrun as (_ & _ & _ & H). exact H.
      * intros start chunks n [Hs Hall] Hlt. split.
        { pose proof (next_start_bounds (strip t) max_size overlap ltac:(lia) ltac:(lia)
                        start Hs) as [Hn _].
          pose proof (stride_pos max_size overlap). lia. }
        pose proof (chunk_at_length (strip t) max_size ltac:(lia) start Hs) as Hc.
        destruct (chunk_at (strip t) max_size start); simpl; [assumption|].
        apply Forall_app. split; [assumption | repeat constructor; assumption].
      * split; [lia | constructor].
  - intros chunks Hleg. destruct fuel as [|fuel].
    + unfold LegacyChunker.chunk_text in Hleg.
      destruct (strip t) as [|x r] eqn:Hs; [injection Hleg as <-; constructor|].
      destruct (Z.leb_spec (len (x :: r)) max_size).
      * injection Hleg as <-. repeat constructor. assumption.
      * unfold LegacyChunker.chunk_loop in Hleg.
        destruct (Z.ltb_spec 0 (len (x :: r))); [discriminate | lia].
    + destruct (legacy_chunk_text_cases t max_size overlap fuel ltac:(lia))
        as [[_ Hr]|[(_ & Hlen & Hr)|[_ Hr]]]; rewrite Hr in Hleg.
      * injection Hleg as <-. constructor.
      * injection Hleg as <-. repeat constructor. assumption.
      * discriminate.
Qed.

Lemma chunk_text_length_witness :
  (exists chunks, chunk_text 14 (of_string "ab ab ab ab ab") 4 2 = Some chunks
                  /\ Forall (fun c => len c <= 4) chunks)
  /\ (forall chunks,
        LegacyChunker.chunk_text 14 (of_string "ab ab ab ab ab") 4 2 = Some (Ok chunks) ->
        Forall (fun c => len c <= 4) chunks).
Proof. apply chunk_text_length; [lia | simpl; lia]. Defined.

(** C7, amended: with [0 <= overlap < max_size], every character of
    the trimmed input that is not white space lies in at least one chunk
    returned by [chunk_text], at its position in the input.  (White space
    at the edge of a window is stripped from the chunk.) *)
Theorem chunk_text_coverage t max_size overlap fuel :
  0 <= overlap < max_size -> (List.length t <= fuel)%nat ->
  exists chunks,
    chunk_text fuel t max_size overlap = Some chunks /\
    forall i x, strip t !! i = Some x -> isspace x = false ->
      exists c, In c chunks /\ covers (strip t) c i.
Proof.
  intros Hov Hfuel.
  destruct (chunk_run_terminates t max_size overlap fuel Hov Hfuel) as [[out m] Hrun].
  exists out. unfold chunk_text. rewrite Hrun. split; [reflexivity|].
  intros i x Hi Hx.
  destruct (chunk_run_cases t max_size overlap fuel)
    as [[He _]|[(_ & Hlen & Hr)|[Hlong Hr]]]; rewrite ?Hr in Hrun.
  - rewrite He in Hi. discriminate.
  - injection Hrun as <- <-. exists (strip t). split; [now left|].
    exists [], []. split; [now rewrite app_nil_r|].
    apply lookup_lt_Some in Hi. simpl. lia.
  - apply (chunk_loop_invariant (strip t) max_size overlap
             (fun start chunks _ =>
                0 <= start /\
                forall j y, Z.of_nat j < start -> strip t !! j = Some y -> isspace y = false ->
                  exists c, In c chunks /\ covers (strip t) c j))
      in Hrun.
    + destruct Hrun as (start' & Hend & _ & Hcov). apply (Hcov i x); [|assumption..].
      apply lookup_lt_Some in Hi. unfold len in Hend. lia.
    + intros start chunks n [Hs Hcov] Hlt.
      pose proof (next_start_bounds (strip t) max_size overlap ltac:(lia) ltac:(lia)
                    start Hs) as [Hn Hw].
      pose proof (stride_pos max_size overlap). split; [lia|].
      intros j y Hj Hy Hns.
      destruct (Z.lt_ge_cases (Z.of_nat j) start) as [Hold|Hnew].
      * destruct (Hcov j y Hold Hy Hns) as (c & Hc & Hcj).
        exists c. split; [now apply emit_incl | assumption].
      * assert (Hcj : covers (strip t) (chunk_at (strip t) max_size start) j).
        { apply (strip_slice_covers _ start _ j y); [lia | lia | assumption..]. }
        exists (chunk_at (strip t) max_size start). split; [|assumption].
        apply emit_new. intros He. rewrite He in Hcj.
        destruct Hcj as (l & r & _ & Hr'). simpl in Hr'. lia.
    + split; [lia|]. intros j y Hj. lia.
Qed.

Lemma chunk_text_coverage_witness :
  exists chunks,
    chunk_text 9 (of_string "aaa bbbbb") 5 0 = Some chunks /\
    forall i x, strip (of_string "aaa bbbbb") !! i = Some x -> isspace x = false ->
      exists c, In c chunks /\ covers (strip (of_string "aaa bbbbb")) c i.
Proof. apply chunk_text_coverage; [lia | simpl; lia]. Defined.

(** C7 as stated fails: the text below is its own trimmed form, its
    character at position 3 is a space (code point 32), and no returned
    chunk contains a space. *)
Lemma chunk_text_coverage_counterexample :
  strip (of_string "aaa bbbbb") = of_string "aaa bbbbb" /\
  of_string "aaa bbbbb" !! 3%nat = Some 32%N /\ isspace 32%N = true /\
  (forall fuel, (9 <= fuel)%nat ->
     chunk_text fuel (of_string "aaa bbbbb") 5 0
     = Some [of_string "aaa"; of_string "bbbbb"]) /\
  ~ (exists c, In c [of_string "aaa"; of_string "bbbbb"] /\ In 32%N c).
Proof.
  split; [reflexivity|]. split; [reflexivity|]. split; [reflexivity|]. split.
  - intros fuel Hfuel. unfold chunk_text.
    rewrite (chunk_run_fuel (of_string "aaa bbbbb") 5 0 9 fuel
               ([of_string "aaa"; of_string "bbbbb"], 2%nat) Hfuel);
      reflexivity.
  - intros (c & Hc & Hsp). simpl in Hc.
    destruct Hc as [<-|[<-|[]]]; simpl in Hsp; intuition discriminate.
Qed.

(** C6, amended: with [0 <= overlap < max_size], [chunk_text] returns,
    and its loop runs at most [ceil(len(trim(t)) / stride)] times, where
    [stride = max(1, max_size // 2 + 1 - overlap)] is the least advance of
    a window whose right edge the boundary search has moved; this is at
    most [len(t)]. *)
Theorem chunk_text_iterations t max_size overlap fuel :
  0 <= overlap < max_size -> (List.length t <= fuel)%nat ->
  exists chunks n,
    chunk_run fuel t max_size overlap = Some (chunks, n) /\
    Z.of_nat n <= ceil_div (len (strip t)) (stride max_size overlap) <= len t.
Proof.
  intros Hov Hfuel.
  destruct (chunk_run_terminates t max_size overlap fuel Hov Hfuel) as [[out m] Hrun].
  exists out, m. split; [assumption|].
  pose proof (stride_pos max_size overlap) as Hd.
  pose proof (len_nonneg (strip t)) as Hl. pose proof (strip_len t) as Hl'.
  pose proof (ceil_div_le _ _ Hl Hd) as Hc. pose proof (ceil_div_nonneg _ _ Hl Hd) as Hc'.
  split; [|lia].
  destruct (chunk_run_cases t max_size overlap fuel)
    as [[_ Hr]|[(_ & _ & Hr)|[Hlong Hr]]]; rewrite Hr in Hrun.
  - injection Hrun as <- <-. assumption.
  - injection Hrun as <- <-. assumption.
  - apply (chunk_loop_invariant (strip t) max_size overlap
             (fun start _ n =>
                0 <= start /\ Z.of_nat n * stride max_size overlap <= start /\
                (n = O \/ (Z.of_nat n - 1) * stride max_size overlap < len (strip t))))
      in Hrun.
    + destruct Hrun as (_ & _ & _ & _ & [->|Hm]); [assumption|].
      unfold ceil_div. apply Z.div_le_lower_bound; lia.
    + intros start chunks n (Hs & Hn & _) Hlt.
      pose proof (next_start_bounds (strip t) max_size overlap ltac:(lia) ltac:(lia)
                    start Hs) as [Hadv _].
      split; [lia|]. split; [lia|]. right. lia.
    + split; [lia|]. split; [lia|]. now left.
Qed.

Lemma chunk_text_iterations_witness :
  exists chunks n,
    chunk_run 14 (of_string "ab ab ab ab ab") 4 2 = Some (chunks, n) /\
    Z.of_nat n <= ceil_div (len (strip (of_string "ab ab ab ab ab"))) (stride 4 2)
               <= len (of_string "ab ab ab ab ab").
Proof. apply chunk_text_iterations; [lia | simpl; lia]. Defined.

(** C6 as stated fails: on the 14 characters below, with [max_size = 4]
    and [overlap = 2], the loop runs 9 times, and the claimed bound
    [ceil(14 / 2) + 1] is 8. *)
Lemma chunk_text_iterations_counterexample :
  (forall fuel, (14 <= fuel)%nat ->
     chunk_iterations fuel (of_string "ab ab ab ab ab") 4 2 = Some 9%nat) /\
  claimed_iterations (of_string "ab ab ab ab ab") 4 2 = 8 /\
  ~ (Z.of_nat 9 <= claimed_iterations (of_string "ab ab ab ab ab") 4 2).
Proof.
  split; [|split; [reflexivity | vm_compute; intros H; apply H; reflexivity]].
  intros fuel Hfuel. unfold chunk_iterations.
  destruct (chunk_run 14 (of_string "ab ab ab ab ab") 4 2) as [r|] eqn:Hr;
    [|vm_compute in Hr; discriminate].
  rewrite (chunk_run_fuel (of_string "ab ab ab ab ab") 4 2 14 fuel r Hfuel Hr).
  vm_compute in Hr. injection Hr as <-. reflexivity.
Qed.

End ChunkerClaims.

(** ** Metadata values *)

Section ValueFacts.

(** Induction on values, with the hypothesis for every element of a
    list. *)
Lemma pyval_ind (P : pyval -> Prop) :
  P PNone -> (forall s, P (PStr s)) -> (forall n, P (PInt n)) ->
  (forall l, Forall P l -> P (PList l)) ->
  forall v, P v.
Proof.
  intros HNone HStr HInt HList.
  fix IH 1. intros [ | s | n | l]; [exact HNone | apply HStr | apply HInt |].
  apply HList. induction l as [|x l IHl]; constructor; [apply IH | exact IHl].
Qed.

Lemma py_eqb_eq a b : py_eqb a b = true <-> a = b.
Proof.
  revert b. induction a as [ | s | n | l IH] using pyval_ind; intros [ | s' | n' | l'];
    simpl; try (split; [discriminate | intros [=]]); try tauto.
  - rewrite String.eqb_eq. split; [now intros -> | now intros [= ->]].
  - rewrite Z.eqb_eq. split; [now intros -> | now intros [= ->]].
  - revert l'. induction IH as [|x l Hx _ IHl]; intros [|x' l'];
      try (split; [discriminate | intros [=]]); [tauto|].
    rewrite andb_true_iff, Hx, IHl.
    split; [intros [-> [= ->]]; reflexivity | intros [= -> ->]; auto].
Qed.

Lemma py_in_In v l : py_in v l = true <-> In v l.
Proof.
  unfold py_in. rewrite existsb_exists. split.
  - intros (x & Hin & Hx). apply py_eqb_eq in Hx. now subst.
  - intros Hin. exists v. split; [assumption | now apply py_eqb_eq].
Qed.

End ValueFacts.

(** ** Filters *)

Section FilterFacts.

Import VectorStore.

Implicit Types (meta w : gmap string pyval) (s : store) (id : string).

Lemma forallb_items (f : string * pyval -> bool) w :
  forallb f (map_to_list w) = true <-> forall k v, w !! k = Some v -> f (k, v) = true.
Proof.
  rewrite forallb_forall. split.
  - intros H k v Hk. apply H, list_elem_of_In, elem_of_map_to_list. exact Hk.
  - intros H [k v] Hin. apply H. now apply list_elem_of_In, elem_of_map_to_list in Hin.
Qed.

Lemma matches_by_kind_cases meta w :
  matches_by_kind meta w
  <-> forall k v, w !! k = Some v ->
        exists field, meta !! k = Some field /\
          match field with
          | PList l => In v l
          | _ => field = v
          end.
Proof.
  unfold matches_by_kind.
  split; intros H k v Hk; destruct (H k v Hk) as (field & Hf & Hv);
    exists field; (split; [exact Hf|]).
  - destruct Hv as [(l & -> & Hin)|[Hno ->]]; [exact Hin|].
    destruct v; try reflexivity. now destruct (Hno l).
  - destruct field; try (right; split; [discriminate | exact Hv]). left. eauto.
Qed.

Lemma matches_filter_spec meta w :
  _matches_filter meta w = true <-> matches_by_kind meta w.
Proof.
  rewrite matches_by_kind_cases. unfold _matches_filter. rewrite forallb_items.
  split; intros H k v Hk; specialize (H k v Hk); simpl in *.
  - destruct (meta !! k) as [field|]; [|discriminate]. exists field. split; [reflexivity|].
    destruct field; try (now apply py_eqb_eq). now apply py_in_In.
  - destruct H as (field & -> & Hf).
    destruct field; try (now apply py_eqb_eq). now apply py_in_In.
Qed.

Lemma selected_spec where_ meta : selected where_ meta = true <-> passes where_ meta.
Proof. destruct where_ as [w|]; simpl; [apply matches_filter_spec | tauto]. Qed.

Lemma legacy_matches_spec meta w :
  LegacyVectorStore.matches meta w = true <-> matches_exactly meta w.
Proof.
  unfold LegacyVectorStore.matches, matches_exactly. rewrite forallb_items.
  split; intros H k v Hk; specialize (H k v Hk); simpl in *; now apply py_eqb_eq.
Qed.

Lemma items_In {A : Type} (m : gmap string A) k v :
  In (k, v) (map_to_list m) <-> m !! k = Some v.
Proof. rewrite <- list_elem_of_In. apply elem_of_map_to_list. Qed.

Lemma items_NoDup {A : Type} (m : gmap string A) : NoDup (List.map fst (map_to_list m)).
Proof. exact (NoDup_fst_map_to_list m). Qed.

Lemma NoDup_map_fst_filter {A : Type} (f : string * A -> bool) (l : list (string * A)) :
  NoDup (List.map fst l) -> NoDup (List.map fst (List.filter f l)).
Proof.
  induction l as [|x l IH]; simpl; [auto|].
  intros Hnd. apply NoDup_cons in Hnd as [Hx Hnd].
  destruct (f x); [|auto]. simpl. apply NoDup_cons. split; [|auto].
  intros Hin. apply Hx. apply list_elem_of_In, in_map_iff in Hin as (y & Hy & Hin).
  apply filter_In in Hin as [Hin _]. apply list_elem_of_In, in_map_iff. eauto.
Qed.

Lemma filter_all {A : Type} (f : A -> bool) (l : list A) :
  (forall x, In x l -> f x = true) -> List.filter f l = l.
Proof.
  induction l as [|x l IH]; intros H; simpl; [reflexivity|].
  rewrite (H x (or_introl eq_refl)). f_equal. apply IH. intros y Hy. apply H. now right.
Qed.

(** The entries of the keys of [l] that the map holds. *)
Lemma listed_In {A : Type} (m : gmap string A) (l : list string) k v :
  In (k, v) (omap (fun id => pair id <$> m !! id) l) <-> In k l /\ m !! k = Some v.
Proof.
  rewrite <- list_elem_of_In, list_elem_of_omap. split.
  - intros (id & Hid%list_elem_of_In & Hv).
    destruct (m !! id) as [x|] eqn:Hx; [|discriminate].
    simpl in Hv. injection Hv as <- <-. auto.
  - intros [Hk Hv]. exists k. rewrite list_elem_of_In, Hv. auto.
Qed.

Lemma listed_keys {A : Type} (m : gmap string A) (l : list string) :
  List.map fst (omap (fun id => pair id <$> m !! id) l)
  = List.filter (fun id => bool_decide (is_Some (m !! id))) l.
Proof.
  induction l as [|id l IH]; simpl; [reflexivity|].
  destruct (m !! id) as [x|] eqn:Hx; simpl; [f_equal|]; exact IH.
Qed.

Lemma NoDup_list_filter {A : Type} (f : A -> bool) (l : list A) :
  NoDup l -> NoDup (List.filter f l).
Proof.
  induction l as [|x l IH]; simpl; [auto|].
  intros Hnd. apply NoDup_cons in Hnd as [Hx Hnd].
  destruct (f x); [|auto]. apply NoDup_cons. split; [|auto].
  rewrite list_elem_of_In, filter_In. rewrite list_elem_of_In in Hx. tauto.
Qed.

Lemma not_inserted_spec (l : list string) k :
  negb (existsb (String.eqb k) l) = true <-> ~ In k l.
Proof.
  rewrite negb_true_iff, <- not_true_iff_false, existsb_exists. split.
  - intros H Hin. apply H. exists k. split; [exact Hin | apply String.eqb_refl].
  - intros H (x & Hin & Hx). apply String.eqb_eq in Hx. now subst.
Qed.

(** [items] enumerates the entries of [metadatas], each once, whatever
    [inserted] holds. *)
Lemma stored_items_In s k v : In (k, v) (items s) <-> metadatas s !! k = Some v.
Proof.
  unfold items. rewrite in_app_iff, listed_In, filter_In, items_In. simpl.
  rewrite not_inserted_spec, <- list_elem_of_In, elem_of_remove_dups, list_elem_of_In.
  destruct (in_dec string_dec k (inserted s)); tauto.
Qed.

Lemma stored_items_NoDup s : NoDup (List.map fst (items s)).
Proof.
  unfold items. rewrite map_app. apply NoDup_app. split; [|split].
  - rewrite listed_keys. apply NoDup_list_filter, NoDup_remove_dups.
  - intros k Hl%list_elem_of_In Hr%list_elem_of_In.
    apply in_map_iff in Hl as ([k1 v1] & <- & Hl). apply listed_In in Hl as [Hl _].
    apply in_map_iff in Hr as ([k2 v2] & Hk & Hr). simpl in *. subst k2.
    apply filter_In in Hr as [_ Hr]. simpl in Hr. apply not_inserted_spec in Hr.
    apply Hr. rewrite <- list_elem_of_In, elem_of_remove_dups, list_elem_of_In in Hl.
    exact Hl.
  - apply NoDup_map_fst_filter, items_NoDup.
Qed.

Lemma NoDup_of_fst {A B : Type} (l : list (A * B)) : NoDup (List.map fst l) -> NoDup l.
Proof.
  induction l as [|x l IH]; simpl; intros Hnd; [constructor|].
  apply NoDup_cons in Hnd as [Hx Hnd]. apply NoDup_cons. split; [|auto].
  intros Hin. apply Hx. apply list_elem_of_In. apply in_map. now apply list_elem_of_In.
Qed.

Lemma stored_items_perm s : Permutation (items s) (map_to_list (metadatas s)).
Proof.
  apply NoDup_Permutation.
  - apply NoDup_of_fst, stored_items_NoDup.
  - apply NoDup_map_to_list.
  - intros [k v]. now rewrite !list_elem_of_In, stored_items_In, items_In.
Qed.

(** In a store whose [inserted] lists the keys of [metadatas], each
    once, the entries come in the order of [inserted]. *)
Lemma items_in_order s :
  NoDup (inserted s) ->
  (forall k, In k (inserted s) <-> is_Some (metadatas s !! k)) ->
  List.map fst (items s) = inserted s.
Proof.
  intros Hnd Hkeys. unfold items. rewrite map_app, listed_keys.
  assert (Hid : remove_dups (inserted s) = inserted s).
  { clear Hkeys. induction (inserted s) as [|k l IH]; simpl; [reflexivity|].
    apply NoDup_cons in Hnd as [Hk Hnd].
    destruct (decide_rel elem_of k l); [contradiction|]. now rewrite IH. }
  rewrite Hid, filter_all.
  - assert (Hrest : List.filter
                      (fun kv => negb (existsb (String.eqb (fst kv)) (inserted s)))
                      (map_to_list (metadatas s)) = []).
    { destruct (List.filter _ (map_to_list (metadatas s))) as [|[k v] l] eqn:Hf;
        [reflexivity|]. exfalso.
      assert (Hin : In (k, v) (List.filter
                      (fun kv => negb (existsb (String.eqb (fst kv)) (inserted s)))
                      (map_to_list (metadatas s)))) by (rewrite Hf; now left).
      apply filter_In in Hin as [Hin Hno]. apply items_In in Hin.
      apply not_inserted_spec in Hno. apply Hno, Hkeys. eauto. }
    rewrite Hrest. apply app_nil_r.
  - intros k Hk. apply bool_decide_eq_true. now apply Hkeys.
Qed.

Lemma select_In s where_ id meta :
  In (id, meta) (select s where_)
  <-> metadatas s !! id = Some meta /\ passes where_ meta.
Proof. unfold select. now rewrite filter_In, stored_items_In, selected_spec. Qed.

Lemma select_ids_In s where_ id :
  In id (List.map fst (select s where_))
  <-> exists meta, metadatas s !! id = Some meta /\ passes where_ meta.
Proof.
  rewrite in_map_iff. split.
  - intros ([id' meta] & <- & Hin). apply select_In in Hin. eauto.
  - intros (meta & Hin). exists (id, meta). split; [reflexivity | now apply select_In].
Qed.

Lemma select_ids_NoDup s where_ : NoDup (List.map fst (select s where_)).
Proof. apply NoDup_map_fst_filter, stored_items_NoDup. Qed.

End FilterFacts.

(** ** Mutations of the store *)

Section MutationFacts.

Import VectorStore.

Implicit Types (s : store) (d : disk) (id : string) (w : gmap string pyval).

(** With arrays as long as [ids], the loop of [add] does not raise and
    keeps the key sets equal. *)
Lemma add_loop_same_keys ids : forall i docs embs metas s,
  List.length docs = (i + List.length ids)%nat ->
  List.length embs = (i + List.length ids)%nat ->
  List.length metas = (i + List.length ids)%nat ->
  same_keys s ->
  exists s', add_loop i ids docs embs metas s = (s', Ok tt) /\ same_keys s'.
Proof.
  induction ids as [|id ids IH]; intros i docs embs metas s Hd He Hm Hs; simpl.
  - eauto.
  - simpl in Hd, He, Hm.
    destruct (lookup_lt_is_Some_2 docs i ltac:(lia)) as [doc ->].
    destruct (lookup_lt_is_Some_2 embs i ltac:(lia)) as [emb ->].
    destruct (lookup_lt_is_Some_2 metas i ltac:(lia)) as [meta ->].
    apply IH; [lia..|]. destruct Hs as [H1 H2]. unfold same_keys. simpl.
    rewrite !dom_insert_L, H1, H2. auto.
Qed.

(** The loop of [delete] keeps the key sets equal, wherever it stops. *)
Lemma delete_loop_same_keys ids : forall s,
  same_keys s -> same_keys (fst (delete_loop ids s)).
Proof.
  induction ids as [|id ids IH]; intros s Hs; simpl; [assumption|].
  destruct Hs as [H1 H2].
  destruct (documents s !! id) as [doc|] eqn:Hdoc; [|now split].
  assert (Hin : id ∈ dom (documents s)) by (apply elem_of_dom; eauto).
  simpl.
  destruct (embeddings s !! id) as [emb|] eqn:Hemb.
  2:{ rewrite H1 in Hin. apply elem_of_dom in Hin as [? Hin]. congruence. }
  simpl.
  destruct (metadatas s !! id) as [meta|] eqn:Hmeta.
  2:{ rewrite H1, H2 in Hin. apply elem_of_dom in Hin as [? Hin]. congruence. }
  apply IH. unfold same_keys. simpl. rewrite !dom_delete_L, H1, H2. auto.
Qed.

(** On distinct ids that all three mappings hold, the loop of [delete]
    does not raise; it removes these ids and leaves every other entry as
    it was. *)
Lemma delete_loop_spec ids : forall s,
  NoDup ids ->
  (forall id, In id ids ->
     is_Some (documents s !! id) /\ is_Some (embeddings s !! id)
     /\ is_Some (metadatas s !! id)) ->
  exists s',
    delete_loop ids s = (s', Ok tt) /\
    persist_path s' = persist_path s /\
    (forall id, In id ids ->
       documents s' !! id = None /\ embeddings s' !! id = None
       /\ metadatas s' !! id = None) /\
    (forall id, ~ In id ids ->
       documents s' !! id = documents s !! id
       /\ embeddings s' !! id = embeddings s !! id
       /\ metadatas s' !! id = metadatas s !! id).
Proof.
  induction ids as [|x ids IH]; intros s Hnd Hin; simpl.
  - exists s. split; [reflexivity|]. split; [reflexivity|].
    split; [intros id [] | intros id _; auto].
  - apply NoDup_cons in Hnd as [Hx Hnd]. rewrite list_elem_of_In in Hx.
    destruct (Hin x (or_introl eq_refl)) as ([doc Hdoc] & [emb Hemb] & [meta Hmeta]).
    rewrite Hdoc. simpl. rewrite Hemb. simpl. rewrite Hmeta.
    set (s3 := Store _ _ _ _ _).
    destruct (IH s3 Hnd) as (s' & Hrun & Hpath & Hgone & Hkept).
    { intros id Hid. assert (x <> id) by (intros ->; contradiction).
      destruct (Hin id (or_intror Hid)) as (H1 & H2 & H3).
      subst s3. simpl. now rewrite !lookup_delete_ne. }
    exists s'. split; [exact Hrun|]. split; [exact Hpath|]. split.
    + intros id [<-|Hid]; [|now apply Hgone].
      destruct (Hkept x Hx) as (-> & -> & ->). subst s3. simpl.
      now rewrite !lookup_delete_eq.
    + intros id Hid. assert (x <> id) by (intros ->; apply Hid; now left).
      destruct (Hkept id) as (-> & -> & ->); [intros ?; apply Hid; now right|].
      subst s3. simpl. now rewrite !lookup_delete_ne.
Qed.

Lemma same_keys_lookup s id :
  same_keys s -> is_Some (metadatas s !! id) ->
  is_Some (documents s !! id) /\ is_Some (embeddings s !! id)
  /\ is_Some (metadatas s !! id).
Proof.
  intros [H1 H2] Hm. rewrite <- !elem_of_dom in *. rewrite H1, H2. auto.
Qed.

(** The error of [os.makedirs] is the only one that leaves [_save]. *)
Lemma save_cases s d :
  (makedirs d (persist_path s) = Raise OSError /\ _save s d = (d, Raise OSError))
  \/ (makedirs d (persist_path s) = Ok tt /\ exists d', _save s d = (d', Ok tt)).
Proof.
  unfold _save, makedirs. destruct (String.eqb (persist_path s) ""); [now left|].
  destruct (dirs_ok d); [right | now left].
  split; [reflexivity|]. destruct (on_write d); eauto.
Qed.

Lemma makedirs_Ok d path :
  makedirs d path = Ok tt <-> path <> ""%string /\ dirs_ok d = true.
Proof.
  unfold makedirs. destruct (String.eqb_spec path "") as [->|Hne].
  - split; [discriminate | now intros [? _]].
  - destruct (dirs_ok d); split; try discriminate; try tauto. now intros [_ ?].
Qed.

(** The store that [add] leaves is the one its loop leaves, also when
    the call raises. *)
Lemma add_store s d ids docs embs metas :
  fst (fst (add s d ids docs embs metas)) = fst (add_loop 0 ids docs embs metas s).
Proof.
  unfold add. destruct (add_loop 0 ids docs embs metas s) as [s' [[]|e]]; [|reflexivity].
  now destruct (_save s' d) as [d' [[]|e]].
Qed.

Lemma delete_store s d w :
  fst (fst (delete s d w)) = fst (delete_loop (to_delete s w) s).
Proof.
  unfold delete. destruct (delete_loop (to_delete s w) s) as [s' [[]|e]]; [|reflexivity].
  now destruct (_save s' d) as [d' [[]|e]].
Qed.

(** What [add] and [delete] return once their loop has returned. *)
Lemma add_result s d ids docs embs metas s' :
  add_loop 0 ids docs embs metas s = (s', Ok tt) ->
  (makedirs d (persist_path s') = Ok tt /\
   exists d', _save s' d = (d', Ok tt) /\ add s d ids docs embs metas = (s', d', Ok tt))
  \/ (makedirs d (persist_path s') = Raise OSError /\
      add s d ids docs embs metas = (s', d, Raise OSError)).
Proof.
  intros Hrun. unfold add. rewrite Hrun.
  destruct (save_cases s' d) as [[Hm ->]|[Hm [d' ->]]]; [right | left]; eauto.
Qed.

Lemma delete_result s d w s' :
  delete_loop (to_delete s w) s = (s', Ok tt) ->
  (makedirs d (persist_path s') = Ok tt /\
   exists d', _save s' d = (d', Ok tt) /\
     delete s d w = (s', d', Ok (Z.of_nat (List.length (to_delete s w)))))
  \/ (makedirs d (persist_path s') = Raise OSError /\
      delete s d w = (s', d, Raise OSError)).
Proof.
  intros Hrun. unfold delete. rewrite Hrun.
  destruct (save_cases s' d) as [[Hm ->]|[Hm [d' ->]]]; [right | left]; eauto.
Qed.

(** [_save] changes the files only. *)
Lemma save_flags s d :
  dirs_ok (fst (_save s d)) = dirs_ok d /\ on_write (fst (_save s d)) = on_write d.
Proof.
  unfold _save. destruct (makedirs d (persist_path s)) as [[]|e]; [|auto].
  destruct (on_write d) eqn:Hw; simpl; auto.
Qed.

Lemma delete_flags s d w :
  dirs_ok (snd (fst (delete s d w))) = dirs_ok d.
Proof.
  unfold delete. destruct (delete_loop (to_delete s w) s) as [s' [[]|e]]; [|reflexivity].
  pose proof (save_flags s' d) as [H _].
  destruct (_save s' d) as [d' [[]|e]]; exact H.
Qed.

Lemma to_delete_In s w id :
  In id (to_delete s w)
  <-> exists meta, metadatas s !! id = Some meta /\ _matches_filter meta w = true.
Proof.
  unfold to_delete. rewrite select_ids_In. simpl.
  split; intros (meta & Hm & Hf); exists meta; split; auto; now apply matches_filter_spec.
Qed.

End MutationFacts.

(** ** Claims about the store's filter, mutations and persistence *)

Section StoreClaims.

Import VectorStore.

Implicit Types (s : store) (d : disk) (id : string) (w meta : gmap string pyval).

(** C1: from a store whose three mappings have the same key set, after
    each operation of any sequence of [add] and [delete] calls, where
    every [add] gets arrays as long as [ids], the three mappings again
    have the same key set. *)
Theorem same_keys_preserved s d ops :
  same_keys s -> Forall equal_lengths ops ->
  Forall (fun sd => same_keys (fst sd)) (trace (s, d) ops).
Proof.
  intros Hs Hops. revert s d Hs.
  induction Hops as [|o ops Ho _ IH]; intros s d Hs; simpl; [constructor|].
  assert (Hstep : same_keys (fst (run_op (s, d) o))).
  { destruct o as [ids docs embs metas | w]; simpl.
    - destruct Ho as (Hd & He & Hm). rewrite add_store.
      destruct (add_loop_same_keys ids 0 docs embs metas s) as (s' & -> & Hs');
        [simpl; lia.. | assumption | exact Hs'].
    - rewrite delete_store. exact (delete_loop_same_keys (to_delete s w) s Hs). }
  constructor; [exact Hstep|].
  destruct (run_op (s, d) o) as [s' d']. now apply IH.
Qed.

Lemma same_keys_preserved_witness :
  Forall (fun sd => same_keys (fst sd))
    (trace (Store "db" ∅ ∅ ∅ [], Disk ∅ true Writes)
       [ OpAdd ["a"; "b"] ["ta"; "tb"] [[1%float]; [0%float]]
           [{[ "doc_id" := PStr "X" ]}; {[ "doc_id" := PStr "Y" ]}];
         OpDelete {[ "doc_id" := PStr "X" ]} ]).
Proof.
  apply same_keys_preserved.
  - split; reflexivity.
  - repeat constructor.
Defined.

(** For a filter that expects no list, the backend's condition is the
    one of the specification. *)
Lemma matches_scalar meta w :
  StoreSpec.scalar_filter w -> (matches_by_kind meta w <-> matches meta w).
Proof.
  intros Hscalar. unfold matches_by_kind, matches.
  split; intros H k v Hk; destruct (H k v Hk) as (field & Hf & Hv);
    exists field; (split; [exact Hf|]).
  - destruct Hv as [Hl|[_ Hv]]; auto.
  - destruct Hv as [Hl| ->]; [now left | right]. split; [|reflexivity].
    intros l ->. now destruct (Hscalar k _ Hk l).
Qed.

Lemma selects_scalar where_ meta :
  StoreSpec.scalar where_ -> (passes where_ meta <-> StoreSpec.selects where_ meta).
Proof. destruct where_ as [w|]; simpl; [apply matches_scalar | tauto]. Qed.

(** C3, amended: the backend's [get], [query] and [delete] select a
    record iff, for every filter key, the record's field is a list that
    contains the expected value, or it is not a list and equals the
    expected value; without a filter [get] and [query] select every
    record. *)
Theorem filter_semantics s meta id :
  (forall w, _matches_filter meta w = true <-> matches_by_kind meta w) /\
  (forall where_ include,
      In id (gr_ids (get s where_ include))
      <-> exists m, metadatas s !! id = Some m /\ passes where_ m) /\
  (forall where_,
      In id (candidates s where_)
      <-> exists m, metadatas s !! id = Some m /\ passes where_ m) /\
  (forall w,
      In id (to_delete s w)
      <-> exists m, metadatas s !! id = Some m /\ matches_by_kind m w) /\
  (forall m, passes None m).
Proof.
  split; [intros w; apply matches_filter_spec|].
  split; [intros where_ include; apply select_ids_In|].
  split; [intros where_; apply select_ids_In|].
  split; [intros w; apply (select_ids_In s (Some w))|].
  intros m. exact I.
Qed.

(** C3 as stated fails: a list field that equals the expected value
    satisfies the condition of the specification, and the backend's
    filter rejects the record, because the list does not contain the
    list. *)
Lemma filter_semantics_counterexample :
  matches {[ "standards_referenced" := PList [PStr "ISO 10993"] ]}
          {[ "standards_referenced" := PList [PStr "ISO 10993"] ]} /\
  _matches_filter {[ "standards_referenced" := PList [PStr "ISO 10993"] ]}
                  {[ "standards_referenced" := PList [PStr "ISO 10993"] ]} = false.
Proof.
  split; [|reflexivity].
  intros k v Hk. apply lookup_singleton_Some in Hk as [<- <-].
  eexists. split; [apply lookup_singleton_eq|]. now right.
Qed.

(** The example of the specification: a chunk that references two
    standards matches a filter on one of them and not on a third. *)
Example list_field_filter :
  let meta : gmap string pyval :=
    {[ "standards_referenced" := PList [PStr "ISO 10993"; PStr "IEC 62304"] ]} in
  _matches_filter meta {[ "standards_referenced" := PStr "ISO 10993" ]} = true /\
  _matches_filter meta {[ "standards_referenced" := PStr "ISO 13485" ]} = false /\
  LegacyVectorStore.matches meta {[ "standards_referenced" := PStr "ISO 10993" ]} = false.
Proof. repeat split. Qed.

(** After a [_save] that returns and whose write succeeds, [_load] on
    the same path replaces the three mappings by the saved ones. *)
Lemma load_written s0 s d d' :
  _save s d = (d', Ok tt) -> write_ok d = true -> persist_path s0 = persist_path s ->
  _load s0 d' = Store (persist_path s0) (documents s) (embeddings s) (metadatas s)
                  (inserted s).
Proof.
  unfold _save, write_ok. destruct (makedirs d (persist_path s)) as [[]|e]; [|discriminate].
  destruct (on_write d); try discriminate. intros [= <-] _ Hpath.
  unfold _load. rewrite Hpath. simpl. now rewrite lookup_insert_eq.
Qed.

Lemma add_Ok s d ids docs embs metas s' d' :
  add s d ids docs embs metas = (s', d', Ok tt) ->
  add_loop 0 ids docs embs metas s = (s', Ok tt) /\ _save s' d = (d', Ok tt).
Proof.
  unfold add. destruct (add_loop 0 ids docs embs metas s) as [s1 [[]|e]]; [|discriminate].
  destruct (_save s1 d) as [d1 [[]|e]] eqn:Hsave; [|discriminate].
  intros [= <- <-]. auto.
Qed.

Lemma delete_Ok s d w s' d' n :
  delete s d w = (s', d', Ok n) ->
  delete_loop (to_delete s w) s = (s', Ok tt) /\ _save s' d = (d', Ok tt)
  /\ n = Z.of_nat (List.length (to_delete s w)).
Proof.
  unfold delete. destruct (delete_loop (to_delete s w) s) as [s1 [[]|e]]; [|discriminate].
  destruct (_save s1 d) as [d1 [[]|e]] eqn:Hsave; [|discriminate].
  intros [= <- <- <-]. auto.
Qed.

(** C4, amended: for a store with a non-empty persistence path, when
    the directory of the path can be made and the data file can be
    written, [_save] returns, and constructing a store on the same path
    gives back [s]: its texts, embeddings and metadata.  No other file is
    touched. *)
Theorem load_save_roundtrip s d :
  persist_path s <> ""%string -> dirs_ok d = true -> write_ok d = true ->
  exists d',
    _save s d = (d', Ok tt) /\
    init (persist_path s) d' = s /\
    forall path, path <> data_file (persist_path s) -> files d' !! path = files d !! path.
Proof.
  intros Hpath Hdirs Hw.
  destruct (save_cases s d) as [[Hm _]|[_ [d' Hsave]]].
  { pose proof (proj2 (makedirs_Ok d (persist_path s)) (conj Hpath Hdirs)). congruence. }
  exists d'. split; [exact Hsave|]. split.
  - unfold init. rewrite (load_written (Store (persist_path s) ∅ ∅ ∅ []) s d d' Hsave Hw eq_refl).
    destruct s; reflexivity.
  - intros path Hne. revert Hsave. unfold _save.
    destruct (makedirs d (persist_path s)) as [[]|e]; [|discriminate].
    destruct (on_write d); intros [= <-]; simpl; try reflexivity;
      now rewrite lookup_insert_ne.
Qed.

Lemma load_save_roundtrip_witness :
  let s := Store "db" {[ "a" := "ta"; "b" := "tb" ]}
             {[ "a" := [1%float; 0%float]; "b" := [0%float; 1%float] ]}
             {[ "a" := {[ "doc_id" := PStr "X" ]}; "b" := {[ "doc_id" := PStr "Y" ]} ]} ["a"; "b"] in
  let d := Disk {[ "notes.txt" := Corrupt ]} true Writes in
  exists d',
    _save s d = (d', Ok tt) /\
    init (persist_path s) d' = s /\
    forall path, path <> data_file (persist_path s) -> files d' !! path = files d !! path.
Proof. intros s d. apply load_save_roundtrip; [discriminate | reflexivity | reflexivity]. Defined.

(** C4 as stated fails: a store with the empty persistence path cannot
    be saved, [_save] raises and writes nothing; and when the file cannot
    be opened for writing, [_save] returns and a store constructed on the
    path is not the saved one. *)
Lemma load_save_roundtrip_counterexample :
  let docs : gmap string string := {[ "a" := "ta" ]} in
  let embs : gmap string embedding := {[ "a" := [1%float; 0%float] ]} in
  let metas : gmap string metadata := {[ "a" := {[ "doc_id" := PStr "X" ]} ]} in
  (_save (Store "" docs embs metas ["a"]) (Disk ∅ true Writes)
   = (Disk ∅ true Writes, Raise OSError)) /\
  (let s := Store "db" docs embs metas ["a"] in
   exists d', _save s (Disk ∅ true OpenFails) = (d', Ok tt)
              /\ init (persist_path s) d' <> s).
Proof.
  split; [reflexivity|]. eexists. split; [reflexivity|]. discriminate.
Qed.

(** C5, amended: on a store whose mappings have the same key set, for
    a filter that expects no list, [delete] removes exactly the records
    whose metadata matches the filter from the three mappings, and the
    text, embedding and metadata of every other record are what they
    were; it returns the number of records removed when the directory of
    the persistence path can be made. *)
Theorem delete_frame s d w :
  same_keys s -> StoreSpec.scalar_filter w ->
  exists s' d' r removed,
    delete s d w = (s', d', r) /\
    NoDup removed /\
    (forall id, In id removed <-> exists m, metadatas s !! id = Some m /\ matches m w) /\
    (forall id, In id removed ->
                documents s' !! id = None /\ embeddings s' !! id = None
                /\ metadatas s' !! id = None) /\
    (forall id, ~ In id removed ->
                documents s' !! id = documents s !! id
                /\ embeddings s' !! id = embeddings s !! id
                /\ metadatas s' !! id = metadatas s !! id) /\
    (StoreSpec.can_make_dir s d -> r = Ok (Z.of_nat (List.length removed))).
Proof.
  intros Hs Hscalar.
  assert (Hnd : NoDup (to_delete s w)) by apply select_ids_NoDup.
  destruct (delete_loop_spec (to_delete s w) s Hnd) as (s' & Hrun & Hpath & Hgone & Hkept).
  { intros id Hid. apply to_delete_In in Hid as (m & Hm & _).
    apply same_keys_lookup; eauto. }
  assert (Hdir : makedirs d (persist_path s') = Ok tt <-> StoreSpec.can_make_dir s d)
    by (rewrite Hpath; apply makedirs_Ok).
  assert (Hin : forall id, In id (to_delete s w)
            <-> exists m, metadatas s !! id = Some m /\ matches m w).
  { intros id. rewrite to_delete_In.
    split; intros (m & Hm & Hf); exists m; (split; [exact Hm|]).
    - now apply matches_scalar, matches_filter_spec.
    - now apply matches_filter_spec, matches_scalar. }
  destruct (delete_result s d w s' Hrun) as [(Hm & d' & _ & Hdel)|(Hm & Hdel)].
  - exists s', d', (Ok (Z.of_nat (List.length (to_delete s w)))), (to_delete s w).
    repeat (split; [assumption|]). reflexivity.
  - exists s', d, (Raise OSError), (to_delete s w).
    repeat (split; [assumption|]).
    intros Hyes. apply Hdir in Hyes. congruence.
Qed.

Lemma delete_frame_witness :
  let s := Store "db" {[ "a" := "ta"; "b" := "tb"; "c" := "tc" ]}
             {[ "a" := [1%float; 0%float]; "b" := [0%float; 1%float];
                "c" := [1%float; 1%float] ]}
             {[ "a" := {[ "doc_id" := PStr "X" ]}; "b" := {[ "doc_id" := PStr "Y" ]};
                "c" := {[ "doc_id" := PStr "X" ]} ]} ["a"; "b"; "c"] in
  let d := Disk ∅ true Writes in
  let w : gmap string pyval := {[ "doc_id" := PStr "X" ]} in
  exists s' d' r removed,
    delete s d w = (s', d', r) /\
    NoDup removed /\
    (forall id, In id removed <-> exists m, metadatas s !! id = Some m /\ matches m w) /\
    (forall id, In id removed ->
                documents s' !! id = None /\ embeddings s' !! id = None
                /\ metadatas s' !! id = None) /\
    (forall id, ~ In id removed ->
                documents s' !! id = documents s !! id
                /\ embeddings s' !! id = embeddings s !! id
                /\ metadatas s' !! id = metadatas s !! id) /\
    (StoreSpec.can_make_dir s d -> r = Ok (Z.of_nat (List.length removed))).
Proof.
  intros s d w. apply delete_frame.
  - split; simpl; rewrite !dom_insert_L, !dom_singleton_L; reflexivity.
  - intros k v [<- <-]%lookup_singleton_Some l. discriminate.
Defined.

(** C5 as stated fails.  On a store that holds metadata for [a] and no
    text, [delete] raises [KeyError] and removes nothing.  A record whose
    list field equals a list that the filter expects matches and is not
    removed.  And on a store with the empty persistence path [delete]
    raises [OSError] in place of returning the count. *)
Lemma delete_frame_counterexample :
  let meta : gmap string pyval := {[ "doc_id" := PStr "X" ]} in
  let listed : gmap string pyval := {[ "tags" := PList [PStr "x"] ]} in
  (let s := Store "db" ∅ {[ "a" := [1%float] ]} {[ "a" := meta ]} ["a"] in
   matches meta meta /\
   delete s (Disk ∅ true Writes) meta = (s, Disk ∅ true Writes, Raise KeyError)) /\
  (let s := Store "db" {[ "a" := "ta" ]} {[ "a" := [1%float] ]} {[ "a" := listed ]} ["a"] in
   matches listed listed /\
   exists d', delete s (Disk ∅ true Writes) listed = (s, d', Ok 0)) /\
  (let s := Store "" {[ "a" := "ta" ]} {[ "a" := [1%float] ]} {[ "a" := meta ]} ["a"] in
   delete s (Disk ∅ true Writes) meta
   = (Store "" ∅ ∅ ∅ [], Disk ∅ true Writes, Raise OSError)).
Proof.
  assert (Hself : forall m : gmap string pyval, matches m m).
  { intros m k v Hk. exists v. split; [exact Hk | now right]. }
  split; [split; [apply Hself | reflexivity]|].
  split; [split; [apply Hself | eexists; reflexivity]|].
  reflexivity.
Qed.

End StoreClaims.

(** ** The order of distances and the sort *)

Section SortFacts.

Import FloatOrder VectorStore.

Local Open Scope float_scope.

Ltac compare_cases :=
  match goal with
  | |- context [Pos.compare_cont Eq ?m ?n] =>
      change (Pos.compare_cont Eq m n) with (Pos.compare m n);
      destruct (Pos.compare_spec m n)
  end.

Ltac key_cases a b :=
  destruct a as [[]|[]| |[] ? ?], b as [[]|[]| |[] ? ?]; simpl;
  try match goal with
      | |- context [Z.compare ?e ?e'] => destruct (Z.compare_spec e e')
      end;
  try compare_cases; simpl;
  (split;
   [ intros Hc; try discriminate Hc;
     (split; [discriminate | split; [discriminate | lia]])
   | intros (Hn1 & Hn2 & Hk); try reflexivity; try congruence; try lia ]).

Lemma SFleb_key a b :
  SFleb a b = true <-> a <> S754_nan /\ b <> S754_nan /\ key_le a b.
Proof. unfold SFleb, key_le. key_cases a b. Qed.

Lemma SFltb_key a b :
  SFltb a b = true <-> a <> S754_nan /\ b <> S754_nan /\ ~ key_le b a.
Proof. unfold SFltb, key_le. key_cases a b. Qed.

Lemma is_nan_false x : is_nan x = false -> Prim2SF x <> S754_nan.
Proof.
  unfold is_nan. rewrite FloatAxioms.eqb_spec. intros Hx E. rewrite E in Hx. discriminate.
Qed.

Lemma leb_of_ltb x y : (x <? y) = true -> (x <=? y) = true.
Proof.
  rewrite FloatAxioms.ltb_spec, FloatAxioms.leb_spec, SFltb_key, SFleb_key. unfold key_le.
  intros (? & ? & ?). repeat split; try assumption. lia.
Qed.

Lemma leb_of_not_ltb x y :
  is_nan x = false -> is_nan y = false -> (x <? y) = false -> (y <=? x) = true.
Proof.
  intros Hx%is_nan_false Hy%is_nan_false Hlt.
  apply not_true_iff_false in Hlt. rewrite FloatAxioms.ltb_spec, SFltb_key in Hlt.
  rewrite FloatAxioms.leb_spec, SFleb_key.
  assert (Hk : ~ ~ key_le (Prim2SF y) (Prim2SF x)).
  { intros Hn. apply Hlt. repeat split; assumption. }
  repeat split; try assumption. unfold key_le in *. lia.
Qed.

Lemma leb_trans x y z : (x <=? y) = true -> (y <=? z) = true -> (x <=? z) = true.
Proof.
  rewrite !FloatAxioms.leb_spec, !SFleb_key. unfold key_le.
  intros (? & ? & ?) (? & ? & ?). repeat split; try assumption. lia.
Qed.

Implicit Types (x y : string * float) (l : list (string * float)).

Lemma insert_by_distance_perm x l : Permutation (x :: l) (insert_by_distance x l).
Proof.
  induction l as [|y l IH]; simpl; [reflexivity|].
  destruct (snd x <? snd y); [reflexivity|].
  rewrite perm_swap. now constructor.
Qed.

Lemma sort_fold_perm l : forall acc,
  Permutation (l ++ acc) (fold_left (fun acc x => insert_by_distance x acc) l acc).
Proof.
  induction l as [|x l IH]; intros acc; simpl; [reflexivity|].
  rewrite <- IH. rewrite <- insert_by_distance_perm. apply Permutation_middle.
Qed.

Lemma sort_by_distance_perm l : Permutation l (sort_by_distance l).
Proof.
  unfold sort_by_distance. rewrite <- sort_fold_perm. now rewrite app_nil_r.
Qed.

Lemma insert_by_distance_sorted x l :
  real x -> Forall real l ->
  StronglySorted by_distance l -> StronglySorted by_distance (insert_by_distance x l).
Proof.
  intros Hx Hl Hs. induction Hs as [|y l Hs IH Hy]; simpl.
  - repeat constructor.
  - apply Forall_cons in Hl as [Hry Hl].
    destruct (snd x <? snd y) eqn:Hlt.
    + apply leb_of_ltb in Hlt. constructor; [now constructor|].
      constructor; [exact Hlt|].
      eapply List.Forall_impl; [|exact Hy]. intros z Hz. unfold by_distance in *.
      eapply leb_trans; eassumption.
    + constructor; [now apply IH|].
      rewrite <- insert_by_distance_perm. constructor; [|exact Hy].
      now apply leb_of_not_ltb.
Qed.

Lemma sort_fold_sorted l : forall acc,
  Forall real l -> Forall real acc -> StronglySorted by_distance acc ->
  StronglySorted by_distance (fold_left (fun acc x => insert_by_distance x acc) l acc).
Proof.
  induction l as [|x l IH]; intros acc Hl Hacc Hs; simpl; [assumption|].
  apply Forall_cons in Hl as [Hx Hl].
  apply IH; [assumption | | now apply insert_by_distance_sorted].
  rewrite <- insert_by_distance_perm. now constructor.
Qed.

(** Without NaN among the keys the sort puts the list in ascending
    order. *)
Lemma sort_by_distance_sorted l :
  Forall real l -> StronglySorted by_distance (sort_by_distance l).
Proof. intros Hl. apply sort_fold_sorted; [assumption | constructor..]. Qed.

Lemma list_sort_nil {sorting : ListSort} : list_sort [] = [].
Proof. apply Permutation_nil, list_sort_perm. Qed.

(** Without NaN among the keys [list.sort] puts the list in ascending
    order. *)
Lemma list_sort_sorted {sorting : ListSort} l :
  Forall real l -> StronglySorted by_distance (list_sort l).
Proof.
  intros Hl. rewrite list_sort_stable by exact Hl. now apply sort_by_distance_sorted.
Qed.

Lemma take_py_nat {A : Type} (k : nat) (l : list A) : take_py (Z.of_nat k) l = firstn k l.
Proof.
  unfold take_py, adjust. destruct (Z.ltb_spec (Z.of_nat k) 0); [lia|].
  destruct (Nat.le_gt_cases k (List.length l)).
  - f_equal. lia.
  - rewrite !firstn_all2; [reflexivity | lia | lia].
Qed.

End SortFacts.

(** The sort by insertion is such a [list.sort]; the examples use it. *)
Definition insertion_sort : VectorStore.ListSort :=
  VectorStore.Build_ListSort VectorStore.sort_by_distance sort_by_distance_perm
    (fun l _ => eq_refl).

(** ** Claims about [query] *)

Section QueryClaims.

Import VectorStore.

Implicit Types (s : store) (q : embedding) (id : string).

Section WithLibraries.

Context {blas : Numpy.Blas} {sorting : ListSort}.

Lemma cosine_distance_ok q e :
  List.length e = List.length q -> cosine_distance q e = Ok (cosine q e).
Proof.
  intros Hlen. unfold cosine_distance, Numpy.dot.
  rewrite Hlen, Nat.eqb_refl. reflexivity.
Qed.

Lemma distances_of_spec s q ids :
  (forall id, In id ids ->
     exists e, embeddings s !! id = Some e /\ List.length e = List.length q) ->
  exists dl,
    distances_of s q ids = Ok dl /\ List.map fst dl = ids /\
    Forall (fun x => distance_of s q (fst x) (snd x)) dl.
Proof.
  induction ids as [|id ids IH]; intros Hids; simpl.
  - exists []. repeat split. constructor.
  - destruct (Hids id (or_introl eq_refl)) as (e & He & Hlen).
    destruct IH as (dl & Hdl & Hfst & Hall); [intros; apply Hids; now right|].
    rewrite He, (cosine_distance_ok q e Hlen), Hdl.
    exists ((id, cosine q e) :: dl). split; [reflexivity|]. split; [simpl; congruence|].
    constructor; [exists e; auto | assumption].
Qed.

Lemma lookup_column {A : Type} (m : gmap string A) (dflt : A) (ids : list string) :
  (forall id, In id ids -> is_Some (m !! id)) ->
  Forall2 (fun id x => m !! id = Some x) ids
    (List.map (fun id => default dflt (m !! id)) ids).
Proof.
  induction ids as [|id ids IH]; intros Hids; simpl; constructor.
  - destruct (Hids id (or_introl eq_refl)) as [x ->]. reflexivity.
  - apply IH. intros. apply Hids. now right.
Qed.

Lemma In_firstn {A : Type} (k : nat) (l : list A) x : In x (firstn k l) -> In x l.
Proof. intros Hin. rewrite <- (firstn_skipn k l). apply in_or_app. now left. Qed.

(** An empty store or an empty candidate list gives the empty result. *)
Lemma query_empty s q n_results where_ :
  embeddings s = ∅ \/ candidates s where_ = [] ->
  query s [q] n_results where_ = Ok empty_result.
Proof.
  intros H. unfold query. destruct (decide (embeddings s = ∅)); [reflexivity|].
  destruct H as [H|H]; [contradiction|]. now rewrite H.
Qed.

(** What [query] returns on a store whose mappings have the same key
    set and whose embeddings have the dimension of [q]: the slice
    [[:n_results]] of a list [ranked] that holds exactly the records
    passing the filter, each once and with its cosine distance, and that
    is in ascending order of the distance when no distance is NaN. *)
Lemma query_ranking s q n where_ :
  same_keys s ->
  (forall id e, embeddings s !! id = Some e -> List.length e = List.length q) ->
  exists ranked r,
    query s [q] n where_ = Ok r /\
    NoDup (List.map fst ranked) /\
    (forall id dist,
        In (id, dist) ranked
        <-> (exists m, metadatas s !! id = Some m /\ passes where_ m)
            /\ distance_of s q id dist) /\
    ((forall id dist, distance_of s q id dist -> PrimFloat.is_nan dist = false) ->
     StronglySorted by_distance ranked) /\
    qr_ids r = List.map fst (take_py n ranked) /\
    qr_distances r = List.map snd (take_py n ranked) /\
    Forall2 (fun id t => documents s !! id = Some t) (qr_ids r) (qr_documents r) /\
    Forall2 (fun id m => metadatas s !! id = Some m) (qr_ids r) (qr_metadatas r) /\
    (embeddings s = ∅ \/
     (forall id m, metadatas s !! id = Some m -> ~ passes where_ m) ->
     r = empty_result).
Proof.
  intros Hkeys Hdim.
  assert (Hcand : forall id, In id (candidates s where_)
            <-> exists m, metadatas s !! id = Some m /\ passes where_ m).
  { intros id. unfold candidates. apply select_ids_In. }
  assert (Hstored : forall id, In id (candidates s where_) ->
            is_Some (documents s !! id) /\ is_Some (embeddings s !! id)
            /\ is_Some (metadatas s !! id)).
  { intros id (m & Hm & _)%Hcand. apply same_keys_lookup; eauto. }
  destruct (distances_of_spec s q (candidates s where_)) as (dl & Hdl & Hfst & Hall).
  { intros id (_ & [e He] & _)%Hstored. eauto. }
  pose proof (list_sort_perm dl) as Hperm.
  assert (Hranked : forall id dist,
            In (id, dist) (list_sort dl)
            <-> (exists m, metadatas s !! id = Some m /\ passes where_ m)
                /\ distance_of s q id dist).
  { intros id dist. rewrite <- Hcand, <- Hfst. rewrite List.Forall_forall in Hall. split.
    - intros Hin. apply (Permutation_in _ (Permutation_sym Hperm)) in Hin.
      split; [apply in_map_iff; exists (id, dist); auto | exact (Hall _ Hin)].
    - intros [Hin Hd]. apply in_map_iff in Hin as ([id' dist'] & Hid & Hin).
      simpl in Hid. subst id'. apply (Permutation_in _ Hperm).
      destruct (Hall _ Hin) as (e' & He' & Hd'). destruct Hd as (e & He & ->).
      simpl in He', Hd'. rewrite He in He'. injection He' as <-. now subst dist'. }
  assert (Hsorted : (forall id dist, distance_of s q id dist -> PrimFloat.is_nan dist = false) ->
            StronglySorted by_distance (list_sort dl)).
  { intros Hnan. apply list_sort_sorted. eapply List.Forall_impl; [|exact Hall].
    intros [id dist] Hd. exact (Hnan id dist Hd). }
  assert (Hnodup : NoDup (List.map fst (list_sort dl))).
  { rewrite <- (Permutation_map fst Hperm), Hfst. apply select_ids_NoDup. }
  assert (Htop : forall id, In id (List.map fst (take_py n (list_sort dl))) ->
            In id (candidates s where_)).
  { intros id Hin. apply in_map_iff in Hin as (x & <- & Hin). apply In_firstn in Hin.
    rewrite <- Hfst. apply in_map. apply (Permutation_in _ (Permutation_sym Hperm) Hin). }
  assert (Hnone : candidates s where_ = [] -> list_sort dl = []).
  { intros He. rewrite He in Hfst. destruct dl; [apply list_sort_nil | discriminate]. }
  exists (list_sort dl).
  destruct (decide (embeddings s = ∅ \/ candidates s where_ = [])) as [Hempty|Hfull].
  - exists empty_result. split; [now apply query_empty|].
    assert (He : list_sort dl = []).
    { apply Hnone. destruct Hempty as [He|He]; [|exact He].
      destruct (candidates s where_) as [|id ids]; [reflexivity|].
      destruct (Hstored id (or_introl eq_refl)) as (_ & [e Hemb] & _).
      rewrite He in Hemb. discriminate. }
    rewrite He in *. unfold take_py. rewrite firstn_nil. simpl.
    repeat (split; [first [assumption | reflexivity | constructor]|]). reflexivity.
  - eexists. split.
    { unfold query. destruct (decide (embeddings s = ∅)) as [He|_]; [exfalso; tauto|].
      destruct (candidates s where_) as [|id ids] eqn:Hc; [exfalso; tauto|].
      rewrite Hdl. reflexivity. }
    simpl. repeat (split; [first [assumption | reflexivity]|]).
    split; [|split].
    + apply lookup_column. intros id Hin. now apply Htop, Hstored in Hin.
    + apply lookup_column. intros id Hin. now apply Htop, Hstored in Hin.
    + intros He. exfalso. apply Hfull. destruct He as [He|He]; [now left | right].
      destruct (candidates s where_) as [|id ids] eqn:Hc; [reflexivity|].
      destruct (proj1 (Hcand id) (or_introl eq_refl)) as (m & Hm & Hsel).
      destruct (He id m Hm Hsel).
Qed.

(** C2, amended: on a store whose mappings have the same key set and
    whose embeddings have the dimension of [q], with no distance that is
    NaN and a filter that expects no list, [query] returns a result [r]:
    there is a list [ranked] that holds exactly the records whose metadata
    matches the filter, each once and with its cosine distance
    [1 - (q.e) / (|q| * |e| + 1e-8)], in ascending order of the distance,
    and [r] holds the ids, texts, metadata and distances of the first [k]
    entries of [ranked], in that order; for an empty store, and when no
    record matches the filter, the result is the empty one. *)
Theorem query_ranked s q k where_ :
  same_keys s ->
  (forall id e, embeddings s !! id = Some e -> List.length e = List.length q) ->
  (forall id dist, distance_of s q id dist -> PrimFloat.is_nan dist = false) ->
  StoreSpec.scalar where_ ->
  exists ranked r,
    query s [q] (Z.of_nat k) where_ = Ok r /\
    NoDup (List.map fst ranked) /\
    (forall id dist,
        In (id, dist) ranked
        <-> (exists m, metadatas s !! id = Some m /\ StoreSpec.selects where_ m)
            /\ distance_of s q id dist) /\
    StronglySorted by_distance ranked /\
    qr_ids r = List.map fst (firstn k ranked) /\
    qr_distances r = List.map snd (firstn k ranked) /\
    Forall2 (fun id t => documents s !! id = Some t) (qr_ids r) (qr_documents r) /\
    Forall2 (fun id m => metadatas s !! id = Some m) (qr_ids r) (qr_metadatas r) /\
    (embeddings s = ∅ \/
     (forall id m, metadatas s !! id = Some m -> ~ StoreSpec.selects where_ m) ->
     r = empty_result).
Proof.
  intros Hkeys Hdim Hnan Hscalar.
  destruct (query_ranking s q (Z.of_nat k) where_ Hkeys Hdim)
    as (ranked & r & Hq & Hnd & Hin & Hsorted & Hids & Hdists & Hdocs & Hmetas & Hempty).
  rewrite take_py_nat in Hids, Hdists.
  exists ranked, r. split; [exact Hq|]. split; [exact Hnd|]. split.
  { intros id dist. rewrite Hin.
    split; intros [(m & Hm & Hsel) Hd]; (split; [exists m; split; [exact Hm|] | exact Hd]);
      now apply (selects_scalar where_ m Hscalar). }
  split; [now apply Hsorted|].
  repeat (split; [assumption|]).
  intros [He|He]; apply Hempty; [now left | right].
  intros id m Hm Hp. apply (He id m Hm). now apply (selects_scalar where_ m Hscalar).
Qed.

End WithLibraries.

#[local] Existing Instance Numpy.left_to_right.
#[local] Existing Instance insertion_sort.

(** The store of the specification's example, [a = [1, 0]],
    [b = [0, 1]], [c = [1, 0]], with a filter on the document.  The sums of
    the example are exact in any order. *)
Lemma query_ranked_witness :
  let s := Store "db"
             {[ "a" := "ta"; "b" := "tb"; "c" := "tc" ]}
             {[ "a" := [1%float; 0%float]; "b" := [0%float; 1%float];
                "c" := [1%float; 0%float] ]}
             {[ "a" := {[ "doc_id" := PStr "X" ]}; "b" := {[ "doc_id" := PStr "Y" ]};
                "c" := {[ "doc_id" := PStr "X" ]} ]} ["a"; "b"; "c"] in
  let q := [1%float; 0%float] in
  let where_ : option (gmap string pyval) := Some {[ "doc_id" := PStr "X" ]} in
  exists ranked r,
    query s [q] (Z.of_nat 1) where_ = Ok r /\
    NoDup (List.map fst ranked) /\
    (forall id dist,
        In (id, dist) ranked
        <-> (exists m, metadatas s !! id = Some m /\ StoreSpec.selects where_ m)
            /\ distance_of s q id dist) /\
    StronglySorted by_distance ranked /\
    qr_ids r = List.map fst (firstn 1 ranked) /\
    qr_distances r = List.map snd (firstn 1 ranked) /\
    Forall2 (fun id t => documents s !! id = Some t) (qr_ids r) (qr_documents r) /\
    Forall2 (fun id m => metadatas s !! id = Some m) (qr_ids r) (qr_metadatas r) /\
    (embeddings s = ∅ \/
     (forall id m, metadatas s !! id = Some m -> ~ StoreSpec.selects where_ m) ->
     r = empty_result).
Proof.
  apply query_ranked.
  - split; reflexivity.
  - apply (bool_decide_unpack (map_Forall _ _)). vm_compute. reflexivity.
  - intros id dist (e & He & ->). revert id e He.
    apply (bool_decide_unpack (map_Forall _ _)). vm_compute. reflexivity.
  - intros k v [<- <-]%lookup_singleton_Some l. discriminate.
Defined.

(** C2 as stated fails.  On a store that holds metadata for [a] and no
    embedding, [query] raises [KeyError].  On an embedding of another
    dimension than the query it raises [ValueError].  With the query
    [[2^600]], the embedding [[2^600]] has the distance NaN, and the
    distances returned are in ascending order in neither order.  And a
    record whose list field equals a list that the filter expects matches
    and is not returned. *)
Lemma query_ranked_counterexample :
  let meta : gmap string pyval := {[ "doc_id" := PStr "X" ]} in
  let listed : gmap string pyval := {[ "tags" := PList [PStr "x"] ]} in
  let ascending := StronglySorted (fun x y : float => (x <=? y)%float = true) in
  (let s := Store "db" {[ "a" := "ta"; "b" := "tb" ]} {[ "b" := [1%float; 0%float] ]}
              {[ "a" := meta; "b" := meta ]} ["a"; "b"] in
   query s [[1%float; 0%float]] 5 None = Raise KeyError) /\
  (let s := Store "db" {[ "a" := "ta" ]} {[ "a" := [1%float; 0%float] ]}
              {[ "a" := meta ]} ["a"] in
   query s [[1%float]] 5 None = Raise ValueError) /\
  (let s := Store "db" {[ "a" := "ta"; "b" := "tb" ]}
              {[ "a" := [0x1p+600%float]; "b" := [1%float] ]}
              {[ "a" := meta; "b" := meta ]} ["a"; "b"] in
   exists r, query s [[0x1p+600%float]] 5 None = Ok r /\
             qr_ids r = ["a"; "b"] /\
             forall l, Permutation (qr_distances r) l -> ~ ascending l) /\
  (let s := Store "db" {[ "a" := "ta" ]} {[ "a" := [1%float; 0%float] ]}
              {[ "a" := listed ]} ["a"] in
   StoreSpec.selects (Some listed) listed /\
   query s [[1%float; 0%float]] 5 (Some listed) = Ok empty_result).
Proof.
  split; [reflexivity|]. split; [reflexivity|]. split.
  - eexists. split; [vm_compute; reflexivity|]. split; [reflexivity|].
    intros l Hl Hsorted. simpl in Hl.
    apply Permutation_length_2_inv in Hl as [->| ->];
      inversion Hsorted as [|x l' _ Hall]; subst;
      apply Forall_cons in Hall as [Hle _]; vm_compute in Hle; discriminate.
  - split; [|reflexivity].
    intros k v Hk. exists v. split; [exact Hk | now right].
Qed.

(** The example of the specification: with [a = [1, 0]], [b = [0, 1]],
    [c = [1, 0]] and the query [[1, 0]], the two nearest records are [a]
    and [c], and [b] comes after them at distance 1. *)
Example query_example :
  let s := Store "db"
             {[ "a" := "ta"; "b" := "tb"; "c" := "tc" ]}
             {[ "a" := [1%float; 0%float]; "b" := [0%float; 1%float];
                "c" := [1%float; 0%float] ]}
             {[ "a" := {[ "doc_id" := PStr "X" ]}; "b" := {[ "doc_id" := PStr "Y" ]};
                "c" := {[ "doc_id" := PStr "X" ]} ]} ["a"; "b"; "c"] in
  exists r r',
    query s [[1%float; 0%float]] 2 None = Ok r /\
    qr_ids r = ["a"; "c"] /\
    query s [[1%float; 0%float]] 3 None = Ok r' /\
    List.map snd (skipn 2 (combine (qr_ids r') (qr_distances r'))) = [1%float] /\
    List.map fst (skipn 2 (combine (qr_ids r') (qr_distances r'))) = ["b"].
Proof.
  eexists _, _. split; [vm_compute; reflexivity|]. simpl.
  split; [reflexivity|]. split; [vm_compute; reflexivity|]. split; reflexivity.
Qed.

End QueryClaims.

(** ** The older chunker on a text longer than the chunk size *)

Section LegacyClaims.

(** C8 fails for the older chunker: on the six characters below with
    [chunk_size = 5] it raises [TypeError] in the first iteration of the
    loop, where the backend chunker returns two chunks. *)
Theorem legacy_chunk_text_type_error :
  (forall fuel,
      LegacyChunker.chunk_text (S fuel) (of_string "abcdef") 5 0 = Some (Raise TypeError))
  /\ Chunker.chunk_text 6 (of_string "abcdef") 5 0
     = Some [of_string "abcde"; of_string "f"].
Proof.
  split; [|reflexivity].
  intros fuel. apply legacy_chunk_text_raises; [lia | vm_compute; reflexivity].
Qed.

End LegacyClaims.

(** * Further properties *)

(** ** More about strings *)

Section MoreStringFacts.

Implicit Types (t c : text).

Lemma lstrip_fixed t : (forall x r, t = x :: r -> isspace x = false) -> lstrip t = t.
Proof.
  destruct t as [|x r]; [reflexivity|]. intros H. simpl.
  now rewrite (H x r eq_refl).
Qed.

Lemma lstrip_idem t : lstrip (lstrip t) = lstrip t.
Proof.
  apply lstrip_fixed. intros x r Hx. now apply (lstrip_head t x r).
Qed.

Lemma rstrip_idem t : rstrip (rstrip t) = rstrip t.
Proof. unfold rstrip. now rewrite rev_involutive, lstrip_idem. Qed.

(** Stripping a stripped text changes nothing. *)
Lemma strip_idem t : strip (strip t) = strip t.
Proof.
  unfold strip at 1. rewrite (lstrip_fixed (strip t)).
  - unfold strip. apply rstrip_idem.
  - intros x r Hx. now apply (strip_head t x r).
Qed.

Lemma lstrip_blank t : Forall blank t -> lstrip t = [].
Proof.
  induction 1 as [|x t Hx _ IH]; simpl; [reflexivity|]. unfold blank in Hx. now rewrite Hx.
Qed.

Lemma strip_blank t : Forall blank t <-> strip t = [].
Proof.
  split.
  - intros H. unfold strip. now rewrite (lstrip_blank t H).
  - intros He. destruct (strip_split t) as (pre & post & Ht & Hpre & Hpost).
    rewrite He in Ht. simpl in Ht. rewrite Ht. now apply Forall_app.
Qed.

(** A match of [rfind] is an occurrence of the separator. *)
Lemma rfind_occurs t sub lo hi :
  0 <= lo -> rfind t sub lo hi <> -1 -> occurs_at t sub (rfind t sub lo hi) = true.
Proof.
  intros Hlo. unfold rfind. destruct (Z.ltb_spec lo 0); [lia|].
  intros Hr. now apply rfind_down_highest.
Qed.

End MoreStringFacts.

(** ** More about the chunker *)

Section MoreChunkerFacts.

Import Chunker ChunkSpec.

Implicit Types (t : text) (max_size overlap : Z) (fuel : nat).

(** The progress check: [start] grows in every iteration, whatever the
    overlap. *)
Lemma next_start_gt t max_size overlap start :
  1 <= max_size -> 0 <= start -> start < next_start t max_size overlap start.
Proof.
  intros Hsize Hs. pose proof (window_end_bounds t max_size Hsize start Hs) as Hw.
  pose proof (half_bounds max_size Hsize) as Hh. unfold next_start.
  destruct (Z.leb_spec (window_end t max_size start - overlap) start); lia.
Qed.

Lemma chunk_loop_returns t max_size overlap :
  1 <= max_size ->
  forall fuel start chunks n,
    0 <= start -> (Z.to_nat (len t - start) <= fuel)%nat ->
    is_Some (chunk_loop fuel t max_size overlap start chunks n).
Proof.
  intros Hsize fuel. induction fuel as [|fuel IH]; intros start chunks n Hs Hf; simpl.
  - destruct (Z.ltb_spec start (len t)); [lia | eauto].
  - destruct (Z.ltb_spec start (len t)) as [Hlt|Hge]; [|eauto].
    pose proof (next_start_gt t max_size overlap start Hsize Hs). apply IH; lia.
Qed.

Lemma chunk_run_returns t max_size overlap fuel :
  1 <= max_size -> (List.length t <= fuel)%nat ->
  is_Some (chunk_run fuel t max_size overlap).
Proof.
  intros Hsize Hfuel.
  destruct (chunk_run_cases t max_size overlap fuel) as [[_ ->]|[(_ & _ & ->)|[Hlong ->]]];
    [eauto | eauto |].
  apply chunk_loop_returns; [lia | lia |].
  pose proof (strip_length t). unfold len. lia.
Qed.

Lemma emit_length chunks c : (List.length (emit chunks c) <= S (List.length chunks))%nat.
Proof. destruct c; simpl; [lia|]. rewrite length_app. simpl. lia. Qed.

(** X1: with [chunk_size >= 1], [chunk_text] returns for every overlap,
    also a negative one and one that is not smaller than the chunk size:
    the loop runs at most [len(text)] times and there are at most
    [len(text)] chunks. *)
Theorem chunk_text_returns t max_size overlap fuel :
  1 <= max_size -> (List.length t <= fuel)%nat ->
  exists chunks n,
    chunk_run fuel t max_size overlap = Some (chunks, n) /\
    Z.of_nat n <= len t /\ (List.length chunks <= List.length t)%nat.
Proof.
  intros Hsize Hfuel.
  destruct (chunk_run_returns t max_size overlap fuel Hsize Hfuel) as [[out m] Hrun].
  exists out, m. split; [exact Hrun|].
  pose proof (strip_length t) as Hl. pose proof (len_nonneg t) as Hn.
  destruct (chunk_run_cases t max_size overlap fuel)
    as [[_ Hr]|[(Hne & _ & Hr)|[Hlong Hr]]]; rewrite Hr in Hrun.
  - injection Hrun as <- <-. simpl. lia.
  - injection Hrun as <- <-. simpl. split; [lia|].
    destruct (strip t); [congruence | simpl in Hl; lia].
  - apply (chunk_loop_invariant (strip t) max_size overlap
             (fun start chunks n =>
                0 <= start /\ Z.of_nat n <= start /\
                (n = O \/ Z.of_nat n - 1 < len (strip t)) /\
                (List.length chunks <= n)%nat)) in Hrun.
    + destruct Hrun as (_ & _ & _ & _ & Hm & Hc). unfold len in *. lia.
    + intros start chunks n (Hs & Hn' & _ & Hc) Hlt.
      pose proof (next_start_gt (strip t) max_size overlap start Hsize Hs).
      pose proof (emit_length chunks (chunk_at (strip t) max_size start)).
      repeat split; try lia.
    + simpl. repeat split; lia.
Qed.

Lemma chunk_text_returns_witness :
  exists chunks n,
    chunk_run 9 (of_string "aaa bbbbb") 3 7 = Some (chunks, n) /\
    Z.of_nat n <= len (of_string "aaa bbbbb") /\
    (List.length chunks <= List.length (of_string "aaa bbbbb"))%nat.
Proof. apply chunk_text_returns; [lia | simpl; lia]. Defined.

Lemma window_end_zero_size t : window_end t 0 0 = 0.
Proof.
  pose proof (len_nonneg t) as Hn.
  assert (Hr : forall sub, 1 <= len sub -> rfind t sub 0 0 = -1).
  { intros sub Hsub. unfold rfind, adjust.
    change (0 <? 0) with false. cbv iota. rewrite Z.min_l by lia.
    replace (Z.to_nat (0 - len sub - 0 + 1)) with O by lia. reflexivity. }
  unfold window_end. change (0 + 0) with 0. change (0 + 0 / 2) with 0.
  destruct (Z.ltb_spec 0 (len t)); [|reflexivity].
  rewrite (Hr para_sep) by (vm_compute; discriminate).
  change (-1 >? 0) with false. cbv iota.
  unfold sentence_seps, sentence_break. change (0 + 0 / 2) with 0.
  rewrite !Hr by (vm_compute; discriminate).
  change (-1 >? 0) with false. reflexivity.
Qed.

(** X2: with [chunk_size = 0] and an overlap that is not negative,
    [chunk_text] does not return on a text that has a character other than
    white space: the window stays empty and [start] stays 0, in every
    iteration. *)
Theorem chunk_text_zero_size t overlap fuel :
  0 <= overlap -> strip t <> [] -> chunk_run fuel t 0 overlap = None.
Proof.
  intros Hov Hne.
  assert (Hlen : 0 < len (strip t)).
  { destruct (strip t); [congruence | unfold len; simpl; lia]. }
  rewrite chunk_run_long by exact Hlen.
  generalize O. induction fuel as [|fuel IH]; intros n; simpl;
    destruct (Z.ltb_spec 0 (len (strip t))); try lia; [reflexivity|].
  unfold next_start, chunk_at. rewrite window_end_zero_size.
  destruct (Z.leb_spec (0 - overlap) 0); [|lia].
  replace (slice (strip t) 0 0) with (@nil char); [apply IH|].
  unfold slice, adjust. simpl. rewrite Z.min_l by lia. reflexivity.
Qed.

Lemma chunk_text_zero_size_witness :
  chunk_run 1000 (of_string "a") 0 0 = None.
Proof. apply chunk_text_zero_size; [lia | vm_compute; discriminate]. Defined.

(** X3: with [chunk_size >= 1], [chunk_text] returns the empty list
    exactly for the texts that consist of white space, the empty text
    among them. *)
Theorem chunk_text_empty_iff t max_size overlap fuel :
  1 <= max_size -> (List.length t <= fuel)%nat ->
  (chunk_text fuel t max_size overlap = Some [] <-> Forall blank t).
Proof.
  intros Hsize Hfuel. rewrite strip_blank. unfold chunk_text.
  destruct (chunk_run_returns t max_size overlap fuel Hsize Hfuel) as [[out m] Hrun].
  rewrite Hrun. simpl.
  destruct (chunk_run_cases t max_size overlap fuel)
    as [[He Hr]|[(Hne & _ & Hr)|[Hlong Hr]]]; rewrite Hr in Hrun.
  - injection Hrun as <- <-. tauto.
  - injection Hrun as <- <-. split; [discriminate | contradiction].
  - assert (Hne : strip t <> []).
    { intros He. rewrite He in Hlong. unfold len in Hlong. simpl in Hlong. lia. }
    apply (chunk_loop_invariant (strip t) max_size overlap
             (fun start chunks n => 0 <= start /\ (0 < start -> chunks <> []))) in Hrun.
    + destruct Hrun as (start' & Hend & _ & Hout).
      split; [intros [= ->]; destruct Hout; [lia | reflexivity] | contradiction].
    + intros start chunks n [Hs Hc] Hlt.
      pose proof (next_start_gt (strip t) max_size overlap start Hsize Hs).
      split; [lia|]. intros _.
      destruct (Z.eq_dec start 0) as [->|Hpos].
      * pose proof (first_chunk_nonempty t max_size Hsize Hne) as H1.
        destruct (chunk_at (strip t) max_size 0); [congruence|]. simpl.
        now destruct chunks.
      * specialize (Hc ltac:(lia)).
        destruct (chunk_at (strip t) max_size start); simpl; [exact Hc|].
        now destruct chunks.
    + split; [lia | intros; lia].
Qed.

Lemma chunk_text_empty_iff_witness :
  chunk_text 3 (of_string "   ") 5 0 = Some [] <-> Forall blank (of_string "   ").
Proof. apply chunk_text_empty_iff; [lia | simpl; lia]. Defined.

(** A stripped slice of the text occurs in the text. *)
Lemma strip_slice_substring t lo hi :
  0 <= lo -> lo <= hi -> lo <= len t -> substring_of (strip (slice t lo hi)) t.
Proof.
  intros Hlo Hhi Hlen.
  pose proof (slice_split t lo hi Hlo Hhi Hlen) as Ht.
  destruct (strip_split (slice t lo hi)) as (pre & post & Hs & _ & _).
  exists (firstn (Z.to_nat lo) t ++ pre), (post ++ skipn (Z.to_nat (Z.min hi (len t))) t).
  rewrite Ht at 1. rewrite Hs at 1. now rewrite <- !app_assoc.
Qed.

(** X4: with [chunk_size >= 1], every chunk that [chunk_text] returns is
    not empty, has no white space at either end (stripping it changes
    nothing), and occurs in the trimmed text as a contiguous piece. *)
Theorem chunk_text_chunks t max_size overlap fuel :
  1 <= max_size -> (List.length t <= fuel)%nat ->
  exists chunks,
    chunk_text fuel t max_size overlap = Some chunks /\
    Forall (fun c => c <> [] /\ strip c = c /\ substring_of c (strip t)) chunks.
Proof.
  intros Hsize Hfuel. unfold chunk_text.
  destruct (chunk_run_returns t max_size overlap fuel Hsize Hfuel) as [[out m] Hrun].
  exists out. rewrite Hrun. split; [reflexivity|].
  destruct (chunk_run_cases t max_size overlap fuel)
    as [[_ Hr]|[(Hne & _ & Hr)|[Hlong Hr]]]; rewrite Hr in Hrun.
  - injection Hrun as <- <-. constructor.
  - injection Hrun as <- <-. repeat constructor; [exact Hne | apply strip_idem |].
    exists [], []. now rewrite app_nil_r.
  - apply (chunk_loop_invariant (strip t) max_size overlap
             (fun start chunks n =>
                0 <= start /\
                Forall (fun c => c <> [] /\ strip c = c /\ substring_of c (strip t)) chunks))
      in Hrun.
    + now destruct Hrun as (_ & _ & _ & H).
    + intros start chunks n [Hs Hall] Hlt.
      pose proof (next_start_gt (strip t) max_size overlap start Hsize Hs).
      split; [lia|].
      pose proof (window_end_bounds (strip t) max_size Hsize start Hs) as Hw.
      pose proof (half_bounds max_size Hsize) as Hh.
      destruct (chunk_at (strip t) max_size start) as [|x c] eqn:Hc; simpl; [exact Hall|].
      apply Forall_app. split; [exact Hall|]. repeat constructor; [discriminate | |].
      * rewrite <- Hc. unfold chunk_at. apply strip_idem.
      * rewrite <- Hc. unfold chunk_at. apply strip_slice_substring; lia.
    + split; [lia | constructor].
Qed.

Lemma chunk_text_chunks_witness :
  exists chunks,
    chunk_text 9 (of_string "aaa bbbbb") 5 0 = Some chunks /\
    Forall (fun c => c <> [] /\ strip c = c
                     /\ substring_of c (strip (of_string "aaa bbbbb"))) chunks.
Proof. apply chunk_text_chunks; [lia | simpl; lia]. Defined.

Lemma sentence_break_occurs t seps start chunk_size end_ e :
  0 <= start -> 0 <= chunk_size / 2 ->
  sentence_break t seps start chunk_size end_ = Some e ->
  exists sep, In sep seps /\ occurs_at t sep (e - len sep) = true
              /\ start + chunk_size / 2 <= e - len sep.
Proof.
  intros Hs Hh. induction seps as [|sep seps IH]; simpl; [discriminate|].
  destruct (Z.gtb_spec (rfind t sep (start + chunk_size / 2) end_) start) as [Hgt|_].
  - intros [= <-]. exists sep. split; [now left|].
    replace (rfind t sep (start + chunk_size / 2) end_ + len sep - len sep)
      with (rfind t sep (start + chunk_size / 2) end_) by lia.
    split; [apply rfind_occurs; lia|].
    unfold rfind in *. destruct (Z.ltb_spec (start + chunk_size / 2) 0); [lia|].
    match goal with |- context [rfind_down t sep ?lo ?n] =>
      destruct (rfind_down_range t sep lo n) end; lia.
  - intros He. destruct (IH He) as (sep' & Hin & Hocc). exists sep'. split; [now right | exact Hocc].
Qed.

(** X5: a window whose right edge the boundary search has moved ends
    just after a separator (a paragraph break, a sentence break or a
    space) that starts in the second half of the window. *)
Theorem window_cut_after_separator t chunk_size start :
  1 <= chunk_size -> 0 <= start ->
  window_end t chunk_size start <> start + chunk_size ->
  exists sep,
    In sep cut_separators /\
    occurs_at t sep (window_end t chunk_size start - len sep) = true /\
    start + chunk_size / 2 <= window_end t chunk_size start - len sep.
Proof.
  intros Hsize Hs. pose proof (half_bounds chunk_size Hsize) as Hh.
  unfold window_end, cut_separators.
  destruct (Z.ltb_spec (start + chunk_size) (len t)) as [Hlt|Hge]; [|congruence].
  destruct (Z.gtb_spec (rfind t para_sep start (start + chunk_size))
              (start + chunk_size / 2)) as [Hp|_].
  { intros _. exists para_sep. split; [now left|]. change (len para_sep) with 2.
    replace (rfind t para_sep start (start + chunk_size) + 2 - 2)
      with (rfind t para_sep start (start + chunk_size)) by lia.
    split; [apply rfind_occurs; lia | lia]. }
  destruct (sentence_break t sentence_seps start chunk_size (start + chunk_size))
    as [e|] eqn:He.
  { intros _. destruct (sentence_break_occurs _ _ _ _ _ _ Hs (proj1 Hh) He)
      as (sep & Hin & Hocc). exists sep. split; [|exact Hocc].
    right. apply in_or_app. now left. }
  destruct (Z.gtb_spec (rfind t space_sep (start + chunk_size / 2) (start + chunk_size))
              start) as [Hsp|_]; [|congruence].
  intros _. exists space_sep. split; [right; apply in_or_app; right; now left|].
  change (len space_sep) with 1.
  replace (rfind t space_sep (start + chunk_size / 2) (start + chunk_size) + 1 - 1)
    with (rfind t space_sep (start + chunk_size / 2) (start + chunk_size)) by lia.
  split; [apply rfind_occurs; lia|].
  destruct (rfind_range t space_sep (start + chunk_size / 2) (start + chunk_size)); lia.
Qed.

Lemma window_cut_after_separator_witness :
  exists sep,
    In sep cut_separators /\
    occurs_at (of_string "aaa bbbbb") sep
      (window_end (of_string "aaa bbbbb") 5 0 - len sep) = true /\
    0 + 5 / 2 <= window_end (of_string "aaa bbbbb") 5 0 - len sep.
Proof.
  apply window_cut_after_separator; [lia | lia | vm_compute; discriminate].
Defined.

(** X6: consecutive windows leave no gap and share at most
    [chunk_overlap] characters: the next [start] is greater than the
    current one, at most the current [end], and at least
    [end - chunk_overlap]. *)
Theorem window_overlap t chunk_size chunk_overlap start :
  1 <= chunk_size -> 0 <= chunk_overlap -> 0 <= start ->
  start < next_start t chunk_size chunk_overlap start <= window_end t chunk_size start /\
  window_end t chunk_size start - chunk_overlap
  <= next_start t chunk_size chunk_overlap start.
Proof.
  intros Hsize Hov Hs.
  pose proof (next_start_gt t chunk_size chunk_overlap start Hsize Hs) as Hgt.
  split; [split; [exact Hgt|] |]; unfold next_start in *;
    destruct (Z.leb_spec (window_end t chunk_size start - chunk_overlap) start); lia.
Qed.

Lemma window_overlap_witness :
  0 < next_start (of_string "aaa bbbbb") 5 2 0 <= window_end (of_string "aaa bbbbb") 5 0 /\
  window_end (of_string "aaa bbbbb") 5 0 - 2 <= next_start (of_string "aaa bbbbb") 5 2 0.
Proof. apply window_overlap; lia. Defined.

(** X7: with [chunk_size >= 1] the older chunker returns a list exactly
    when the trimmed text is not longer than the chunk size, and this list
    is the one the backend chunker returns; on every longer text it raises
    [TypeError]. *)
Theorem legacy_chunk_text_returns_iff t max_size overlap fuel :
  1 <= max_size ->
  (len (strip t) <= max_size ->
   exists chunks,
     LegacyChunker.chunk_text (S fuel) t max_size overlap = Some (Ok chunks) /\
     chunk_text (S fuel) t max_size overlap = Some chunks) /\
  (max_size < len (strip t) ->
   LegacyChunker.chunk_text (S fuel) t max_size overlap = Some (Raise TypeError)).
Proof.
  intros Hsize. split.
  - intros Hshort. unfold LegacyChunker.chunk_text, chunk_text, chunk_run.
    destruct (strip t) as [|x r] eqn:Hs; [eexists; split; reflexivity|].
    destruct (Z.leb_spec (len (x :: r)) max_size); [|lia].
    eexists; split; reflexivity.
  - intros Hlong. now apply legacy_chunk_text_raises.
Qed.

Lemma legacy_chunk_text_returns_iff_witness :
  (len (strip (of_string " ab ")) <= 5 ->
   exists chunks,
     LegacyChunker.chunk_text 1 (of_string " ab ") 5 0 = Some (Ok chunks) /\
     chunk_text 1 (of_string " ab ") 5 0 = Some chunks) /\
  (5 < len (strip (of_string " ab ")) ->
   LegacyChunker.chunk_text 1 (of_string " ab ") 5 0 = Some (Raise TypeError)).
Proof. apply legacy_chunk_text_returns_iff. lia. Defined.

End MoreChunkerFacts.

(** ** More about the store *)

Section MoreStoreFacts.

Import VectorStore.

Implicit Types (s : store) (d : disk) (id : string) (w : gmap string pyval).

Lemma add_loop_lookup ids : forall i docs embs metas s s',
  add_loop i ids docs embs metas s = (s', Ok tt) ->
  persist_path s' = persist_path s /\
  (forall j id, ids !! j = Some id ->
     (forall j', (j < j')%nat -> ids !! j' <> Some id) ->
     documents s' !! id = docs !! (i + j)%nat /\
     embeddings s' !! id = embs !! (i + j)%nat /\
     metadatas s' !! id = metas !! (i + j)%nat) /\
  (forall id, ~ In id ids ->
     documents s' !! id = documents s !! id /\
     embeddings s' !! id = embeddings s !! id /\
     metadatas s' !! id = metadatas s !! id).
Proof.
  induction ids as [|id0 ids IH]; intros i docs embs metas s s'; simpl.
  - intros [= <-]. split; [reflexivity|]. split; [intros j id Hj; discriminate | auto].
  - destruct (docs !! i) as [doc|] eqn:Hdoc; [|discriminate].
    destruct (embs !! i) as [emb|] eqn:Hemb; [|discriminate].
    destruct (metas !! i) as [meta|] eqn:Hmeta; [|discriminate].
    intros Hrun. apply IH in Hrun as (Hpath & Hset & Hkept). simpl in Hpath, Hkept.
    split; [exact Hpath|]. split.
    + intros [|j] id Hj Hlast; simpl in Hj.
      * injection Hj as <-. rewrite Nat.add_0_r, Hdoc, Hemb, Hmeta.
        destruct (Hkept id0) as (-> & -> & ->).
        { intros Hin%list_elem_of_In%list_elem_of_lookup. destruct Hin as [j' Hj'].
          apply (Hlast (S j')); [lia | exact Hj']. }
        now rewrite !lookup_insert_eq.
      * replace (i + S j)%nat with (S i + j)%nat by lia. apply Hset; [exact Hj|].
        intros j' Hlt. apply (Hlast (S j')). lia.
    + intros id Hid. destruct (Hkept id) as (-> & -> & ->); [tauto|].
      assert (id0 <> id) by (intros ->; apply Hid; now left).
      now rewrite !lookup_insert_ne.
Qed.

Lemma add_loop_result ids : forall i docs embs metas s,
  (ids = [] \/
   ((i + List.length ids <= List.length docs)%nat /\
    (i + List.length ids <= List.length embs)%nat /\
    (i + List.length ids <= List.length metas)%nat) ->
   snd (add_loop i ids docs embs metas s) = Ok tt) /\
  (ids <> [] ->
   ~ ((i + List.length ids <= List.length docs)%nat /\
      (i + List.length ids <= List.length embs)%nat /\
      (i + List.length ids <= List.length metas)%nat) ->
   snd (add_loop i ids docs embs metas s) = Raise IndexError).
Proof.
  induction ids as [|id0 ids IH]; intros i docs embs metas s; simpl.
  - split; [reflexivity | congruence].
  - destruct (docs !! i) as [doc|] eqn:Hdoc.
    2:{ apply lookup_ge_None in Hdoc. split; [intros [?|?]; [discriminate | lia] | reflexivity]. }
    destruct (embs !! i) as [emb|] eqn:Hemb.
    2:{ apply lookup_ge_None in Hemb. split; [intros [?|?]; [discriminate | lia] | reflexivity]. }
    destruct (metas !! i) as [meta|] eqn:Hmeta.
    2:{ apply lookup_ge_None in Hmeta. split; [intros [?|?]; [discriminate | lia] | reflexivity]. }
    apply lookup_lt_Some in Hdoc, Hemb, Hmeta.
    match goal with |- context [add_loop (S i) ids docs embs metas ?s3] =>
      destruct (IH (S i) docs embs metas s3) as [Hok Hbad] end.
    split.
    + intros [?|Hlen]; [discriminate|]. apply Hok.
      destruct ids; [now left | right; simpl in *; lia].
    + intros _ Hlen. apply Hbad; [|lia].
      intros ->. simpl in Hlen. lia.
Qed.

Lemma delete_loop_path ids : forall s s' r,
  delete_loop ids s = (s', r) -> persist_path s' = persist_path s.
Proof.
  induction ids as [|x ids IH]; intros s s' r; simpl; [now intros [= <- _]|].
  destruct (documents s !! x); [|now intros [= <- _]]. simpl.
  destruct (embeddings s !! x); [|now intros [= <- _]]. simpl.
  destruct (metadatas s !! x); [|now intros [= <- _]].
  intros Hrun. now apply IH in Hrun.
Qed.

(** X8: [add] with arrays at least as long as [ids] stores, for every
    id, the text, embedding and metadata at the index of its last
    occurrence in [ids] (an id that is already stored, or that occurs
    twice, is overwritten), and leaves every other entry unchanged.  It
    returns when the directory of the persistence path can be made;
    otherwise it raises [OSError] after the mappings have been changed,
    and the disk is as it was. *)
Theorem add_lookup s d ids docs embs metas :
  (List.length ids <= List.length docs)%nat ->
  (List.length ids <= List.length embs)%nat ->
  (List.length ids <= List.length metas)%nat ->
  exists s' d' r,
    add s d ids docs embs metas = (s', d', r) /\
    (StoreSpec.can_make_dir s d -> r = Ok tt) /\
    (~ StoreSpec.can_make_dir s d -> r = Raise OSError /\ d' = d) /\
    (forall j id, ids !! j = Some id ->
       (forall j', (j < j')%nat -> ids !! j' <> Some id) ->
       documents s' !! id = docs !! j /\
       embeddings s' !! id = embs !! j /\
       metadatas s' !! id = metas !! j) /\
    (forall id, ~ In id ids ->
       documents s' !! id = documents s !! id /\
       embeddings s' !! id = embeddings s !! id /\
       metadatas s' !! id = metadatas s !! id).
Proof.
  intros Hd He Hm.
  destruct (add_loop_result ids 0 docs embs metas s) as [Hok _].
  destruct (add_loop 0 ids docs embs metas s) as [s' r0] eqn:Hrun. simpl in Hok.
  rewrite Hok in Hrun by (right; simpl; lia).
  pose proof (add_loop_lookup _ _ _ _ _ _ _ Hrun) as (Hpath & Hset & Hkept).
  assert (Hdir : makedirs d (persist_path s') = Ok tt <-> StoreSpec.can_make_dir s d)
    by (rewrite Hpath; apply makedirs_Ok).
  destruct (add_result s d ids docs embs metas s' Hrun) as [(Hmk & d' & _ & Hadd)|(Hmk & Hadd)].
  - exists s', d', (Ok tt). split; [exact Hadd|]. split; [reflexivity|].
    split; [|auto]. intros Hno. exfalso. apply Hno, Hdir, Hmk.
  - exists s', d, (Raise OSError). split; [exact Hadd|]. split; [|auto].
    intros Hyes. apply Hdir in Hyes. congruence.
Qed.

Lemma add_lookup_witness :
  let s := Store "db" ∅ ∅ ∅ [] in
  let d := Disk ∅ true Writes in
  exists s' d' r,
    add s d ["a"; "b"; "a"] ["t1"; "t2"; "t3"]
      [[1%float]; [0%float]; [1%float]]
      [{[ "doc_id" := PStr "X" ]}; {[ "doc_id" := PStr "Y" ]}; {[ "doc_id" := PStr "Z" ]}]
    = (s', d', r) /\
    (StoreSpec.can_make_dir s d -> r = Ok tt) /\
    (~ StoreSpec.can_make_dir s d -> r = Raise OSError /\ d' = d) /\
    (forall j id, ["a"; "b"; "a"] !! j = Some id ->
       (forall j', (j < j')%nat -> ["a"; "b"; "a"] !! j' <> Some id) ->
       documents s' !! id = ["t1"; "t2"; "t3"] !! j /\
       embeddings s' !! id = [[1%float]; [0%float]; [1%float]] !! j /\
       metadatas s' !! id
       = [{[ "doc_id" := PStr "X" ]}; {[ "doc_id" := PStr "Y" ]};
          ({[ "doc_id" := PStr "Z" ]} : gmap string pyval)] !! j) /\
    (forall id, ~ In id ["a"; "b"; "a"] ->
       documents s' !! id = documents s !! id /\
       embeddings s' !! id = embeddings s !! id /\
       metadatas s' !! id = metadatas s !! id).
Proof. intros s d. apply add_lookup; simpl; lia. Defined.

(** X9: [add] returns exactly when no array is shorter than [ids] (a
    longer array is accepted, its tail ignored) and the directory of the
    persistence path can be made.  With a shorter array it raises
    [IndexError], otherwise [OSError] from [os.makedirs]; in both cases
    the disk is as it was, whatever has been put into the mappings. *)
Theorem add_raises_iff s d ids docs embs metas :
  exists s' d',
    ((List.length ids <= List.length docs)%nat /\
     (List.length ids <= List.length embs)%nat /\
     (List.length ids <= List.length metas)%nat /\
     StoreSpec.can_make_dir s d /\
     _save s' d = (d', Ok tt) /\
     add s d ids docs embs metas = (s', d', Ok tt))
    \/
    ((List.length ids <= List.length docs)%nat /\
     (List.length ids <= List.length embs)%nat /\
     (List.length ids <= List.length metas)%nat /\
     ~ StoreSpec.can_make_dir s d /\
     add s d ids docs embs metas = (s', d, Raise OSError))
    \/
    (~ ((List.length ids <= List.length docs)%nat /\
        (List.length ids <= List.length embs)%nat /\
        (List.length ids <= List.length metas)%nat) /\
     add s d ids docs embs metas = (s', d, Raise IndexError)).
Proof.
  destruct (add_loop_result ids 0 docs embs metas s) as [Hok Hbad].
  destruct (add_loop 0 ids docs embs metas s) as [s' r] eqn:Hrun. simpl in Hok, Hbad.
  destruct (le_dec (List.length ids) (List.length docs)) as [Hd|Hd];
    [destruct (le_dec (List.length ids) (List.length embs)) as [He|He];
     [destruct (le_dec (List.length ids) (List.length metas)) as [Hm|Hm]|]|].
  - rewrite Hok in Hrun by (right; lia).
    pose proof (add_loop_lookup _ _ _ _ _ _ _ Hrun) as (Hpath & _).
    assert (Hdir : makedirs d (persist_path s') = Ok tt <-> StoreSpec.can_make_dir s d)
      by (rewrite Hpath; apply makedirs_Ok).
    destruct (add_result s d ids docs embs metas s' Hrun)
      as [(Hmk & d' & Hsave & Hadd)|(Hmk & Hadd)].
    + exists s', d'. left. repeat (split; [assumption|]). split; [now apply Hdir|]. auto.
    + exists s', d. right. left. repeat (split; [assumption|]). split; [|exact Hadd].
      intros Hyes. apply Hdir in Hyes. congruence.
  - exists s', d. right. right. split; [lia|]. unfold add. rewrite Hrun, Hbad; [reflexivity| |lia].
    intros ->. simpl in *. lia.
  - exists s', d. right. right. split; [lia|]. unfold add. rewrite Hrun, Hbad; [reflexivity| |lia].
    intros ->. simpl in *. lia.
  - exists s', d. right. right. split; [lia|]. unfold add. rewrite Hrun, Hbad; [reflexivity| |lia].
    intros ->. simpl in *. lia.
Qed.

(** X10: when the data file can be written, after every [add] and every
    [delete] that returns, a store constructed on the same path is the
    store that the call left in memory. *)
Theorem restart_after_mutation s d :
  write_ok d = true ->
  (forall ids docs embs metas s' d',
      add s d ids docs embs metas = (s', d', Ok tt) ->
      persist_path s' = persist_path s /\ init (persist_path s) d' = s') /\
  (forall w s' d' n,
      delete s d w = (s', d', Ok n) ->
      persist_path s' = persist_path s /\ init (persist_path s) d' = s').
Proof.
  intros Hw. split.
  - intros ids docs embs metas s' d' [Hrun Hsave]%add_Ok.
    apply add_loop_lookup in Hrun as (Hpath & _).
    split; [exact Hpath|]. rewrite <- Hpath. unfold init.
    rewrite (load_written (Store (persist_path s') ∅ ∅ ∅ []) s' d d' Hsave Hw eq_refl).
    destruct s'; reflexivity.
  - intros w s' d' n (Hrun & Hsave & _)%delete_Ok.
    pose proof (delete_loop_path _ _ _ _ Hrun) as Hpath.
    split; [exact Hpath|]. rewrite <- Hpath. unfold init.
    rewrite (load_written (Store (persist_path s') ∅ ∅ ∅ []) s' d d' Hsave Hw eq_refl).
    destruct s'; reflexivity.
Qed.

Lemma restart_after_mutation_witness :
  let s := Store "db" {[ "a" := "ta" ]} {[ "a" := [1%float; 0%float] ]}
             {[ "a" := {[ "doc_id" := PStr "X" ]} ]} ["a"] in
  (forall ids docs embs metas s' d',
      add s (Disk ∅ true Writes) ids docs embs metas = (s', d', Ok tt) ->
      persist_path s' = persist_path s /\ init (persist_path s) d' = s') /\
  (forall w s' d' n,
      delete s (Disk ∅ true Writes) w = (s', d', Ok n) ->
      persist_path s' = persist_path s /\ init (persist_path s) d' = s').
Proof. apply restart_after_mutation. reflexivity. Defined.

End MoreStoreFacts.

(** ** More about reading the store *)

Section MoreReadFacts.

Import VectorStore.

Implicit Types (s : store) (d : disk) (id : string) (w : gmap string pyval)
  (q : embedding).

Lemma or_none_None {A : Type} (l : list A) : or_none l = None <-> l = [].
Proof. destruct l; simpl; split; congruence. Qed.

Lemma or_none_Some {A : Type} (l l' : list A) : or_none l = Some l' -> l' = l /\ l <> [].
Proof. destruct l; simpl; [discriminate|]. intros [= <-]. split; congruence. Qed.

Lemma map_nil_iff {A B : Type} (f : A -> B) (l : list A) : List.map f l = [] <-> l = [].
Proof. destruct l; simpl; split; congruence. Qed.

Lemma selected_stored s where_ id :
  same_keys s -> In id (List.map fst (select s where_)) ->
  is_Some (documents s !! id) /\ is_Some (embeddings s !! id)
  /\ is_Some (metadatas s !! id).
Proof.
  intros Hs (m & Hm & _)%select_ids_In. apply same_keys_lookup; eauto.
Qed.

Lemma pairs_column {A : Type} (m : gmap string A) (l : list (string * A)) :
  (forall kv, In kv l -> m !! fst kv = Some (snd kv)) ->
  Forall2 (fun id x => m !! id = Some x) (List.map fst l) (List.map snd l).
Proof.
  induction l as [|kv l IH]; intros H; simpl; constructor.
  - apply H. now left.
  - apply IH. intros kv' Hin. apply H. now right.
Qed.

(** X11: on a store whose mappings have the same key set, [get] lists
    the ids of exactly the records whose metadata passes the filter, each
    once; the texts and metadata it returns are the stored ones, in the
    order of the ids; and a column is [None] exactly when [include] leaves
    it out or no record is selected. *)
Theorem get_columns s where_ include :
  same_keys s ->
  NoDup (gr_ids (get s where_ include)) /\
  (forall id, In id (gr_ids (get s where_ include))
              <-> exists m, metadatas s !! id = Some m /\ passes where_ m) /\
  (gr_documents (get s where_ include) = None
   <-> included include "documents" = false \/ gr_ids (get s where_ include) = []) /\
  (forall docs, gr_documents (get s where_ include) = Some docs ->
     Forall2 (fun id t => documents s !! id = Some t) (gr_ids (get s where_ include)) docs) /\
  (gr_metadatas (get s where_ include) = None
   <-> included include "metadatas" = false \/ gr_ids (get s where_ include) = []) /\
  (forall metas, gr_metadatas (get s where_ include) = Some metas ->
     Forall2 (fun id m => metadatas s !! id = Some m) (gr_ids (get s where_ include)) metas).
Proof.
  intros Hs. unfold get. simpl.
  split; [apply select_ids_NoDup|]. split; [intros id; apply select_ids_In|].
  split; [|split; [|split]].
  - rewrite or_none_None, map_nil_iff. destruct (included include "documents").
    + rewrite map_nil_iff. split; [now right | intros [?|?]; [discriminate | assumption]].
    + split; [now left | reflexivity].
  - intros docs [-> Hne]%or_none_Some.
    destruct (included include "documents"); [|congruence].
    rewrite <- (map_map fst (fun id => default ""%string (documents s !! id))).
    apply lookup_column. intros id Hid. now apply (selected_stored s where_ id Hs).
  - rewrite or_none_None, map_nil_iff. destruct (included include "metadatas").
    + rewrite map_nil_iff. split; [now right | intros [?|?]; [discriminate | assumption]].
    + split; [now left | reflexivity].
  - intros metas [-> Hne]%or_none_Some.
    destruct (included include "metadatas"); [|congruence].
    apply pairs_column. intros [id m] Hin. now apply select_In in Hin.
Qed.

Lemma get_columns_witness :
  let s := Store "db" {[ "a" := "ta"; "b" := "tb"; "c" := "tc" ]}
             {[ "a" := [1%float; 0%float]; "b" := [0%float; 1%float];
                "c" := [1%float; 1%float] ]}
             {[ "a" := {[ "doc_id" := PStr "X" ]}; "b" := {[ "doc_id" := PStr "Y" ]};
                "c" := {[ "doc_id" := PStr "X" ]} ]} ["a"; "b"; "c"] in
  let where_ : option (gmap string pyval) := Some {[ "doc_id" := PStr "X" ]} in
  let include := Some ["metadatas"] in
  NoDup (gr_ids (get s where_ include)) /\
  (forall id, In id (gr_ids (get s where_ include))
              <-> exists m, metadatas s !! id = Some m /\ passes where_ m) /\
  (gr_documents (get s where_ include) = None
   <-> included include "documents" = false \/ gr_ids (get s where_ include) = []) /\
  (forall docs, gr_documents (get s where_ include) = Some docs ->
     Forall2 (fun id t => documents s !! id = Some t) (gr_ids (get s where_ include)) docs) /\
  (gr_metadatas (get s where_ include) = None
   <-> included include "metadatas" = false \/ gr_ids (get s where_ include) = []) /\
  (forall metas, gr_metadatas (get s where_ include) = Some metas ->
     Forall2 (fun id m => metadatas s !! id = Some m) (gr_ids (get s where_ include)) metas).
Proof.
  intros s where_ include. apply get_columns.
  split; simpl; rewrite !dom_insert_L, !dom_singleton_L; reflexivity.
Defined.

(** [get] lists the ids in the order of their first insertion: [add]
    of a stored id leaves it at its place, and [delete] takes ids out. *)
Example get_in_insertion_order :
  let meta (doc : string) : metadata := {[ "doc_id" := PStr doc ]} in
  let d := Disk ∅ true Writes in
  let s0 := Store "db" ∅ ∅ ∅ [] in
  let s1 := fst (fst (add s0 d ["b"; "a"] ["tb"; "ta"] [[1%float]; [0%float]]
                        [meta "Y"; meta "X"])) in
  let s2 := fst (fst (add s1 d ["b"; "c"] ["tb'"; "tc"] [[1%float]; [1%float]]
                        [meta "Z"; meta "X"])) in
  let s3 := fst (fst (delete s2 d (meta "Z"))) in
  let s4 := fst (fst (add s3 d ["b"] ["tb"] [[1%float]] [meta "X"])) in
  gr_ids (get s1 None None) = ["b"; "a"] /\
  gr_ids (get s2 None None) = ["b"; "a"; "c"] /\
  gr_ids (get s2 (Some (meta "X")) None) = ["a"; "c"] /\
  gr_ids (get s3 None None) = ["a"; "c"] /\
  gr_ids (get s4 None None) = ["a"; "c"; "b"].
Proof. repeat split; vm_compute; reflexivity. Qed.

(** After [delete] no record matches the filter any more. *)
Lemma to_delete_after s s' w :
  (forall id, In id (to_delete s w) -> metadatas s' !! id = None) ->
  (forall id, ~ In id (to_delete s w) -> metadatas s' !! id = metadatas s !! id) ->
  to_delete s' w = [].
Proof.
  intros Hgone Hkept. destruct (to_delete s' w) as [|id l] eqn:He; [reflexivity|].
  exfalso. assert (Hin : In id (to_delete s' w)) by (rewrite He; now left).
  apply to_delete_In in Hin as (m & Hm & Hf).
  destruct (in_dec string_dec id (to_delete s w)) as [Hold|Hnew].
  - rewrite (Hgone id Hold) in Hm. discriminate.
  - rewrite (Hkept id Hnew) in Hm. apply Hnew. apply to_delete_In. eauto.
Qed.

(** X12: on a store whose mappings have the same key set, a second
    [delete] with the same filter finds nothing: it leaves the mappings as
    the first call left them and returns 0 (where the directory of the
    persistence path cannot be made it raises [OSError], as the first call
    did), and [get] with this filter returns no id. *)
Theorem delete_twice s d w :
  same_keys s ->
  exists s' d1 r1 d2 r2,
    delete s d w = (s', d1, r1) /\
    delete s' d1 w = (s', d2, r2) /\
    (StoreSpec.can_make_dir s d -> r2 = Ok 0) /\
    (~ StoreSpec.can_make_dir s d -> r1 = Raise OSError /\ r2 = Raise OSError) /\
    forall include, gr_ids (get s' (Some w) include) = [].
Proof.
  intros Hs.
  destruct (delete_loop_spec (to_delete s w) s (select_ids_NoDup s (Some w)))
    as (s' & Hrun & Hpath & Hgone & Hkept).
  { intros id Hid. apply to_delete_In in Hid as (m & Hm & _).
    apply same_keys_lookup; eauto. }
  assert (He : to_delete s' w = []).
  { apply (to_delete_after s); intros id Hid; [now apply Hgone | now apply Hkept]. }
  assert (Hrun' : delete_loop (to_delete s' w) s' = (s', Ok tt)) by now rewrite He.
  assert (Hfirst : exists d1 r1, delete s d w = (s', d1, r1) /\ dirs_ok d1 = dirs_ok d
            /\ (~ StoreSpec.can_make_dir s d -> r1 = Raise OSError)).
  { pose proof (delete_flags s d w) as Hflags.
    destruct (delete_result s d w s' Hrun) as [(Hm & d1 & _ & Hdel)|(Hm & Hdel)];
      rewrite Hdel in Hflags; simpl in Hflags; do 2 eexists;
      (split; [exact Hdel|]); (split; [exact Hflags|]); [|intros _; reflexivity].
    intros Hno. exfalso. apply Hno. apply makedirs_Ok in Hm. now rewrite Hpath in Hm. }
  destruct Hfirst as (d1 & r1 & Hdel & Hflags & Hr1).
  assert (Hdir : makedirs d1 (persist_path s') = Ok tt <-> StoreSpec.can_make_dir s d).
  { rewrite makedirs_Ok, Hpath, Hflags. reflexivity. }
  destruct (delete_result s' d1 w s' Hrun') as [(Hm & d2 & _ & Hdel')|(Hm & Hdel')];
    rewrite ?He in Hdel'; simpl in Hdel'.
  - exists s', d1, r1, d2, (Ok 0). split; [exact Hdel|]. split; [exact Hdel'|].
    split; [reflexivity|]. split; [|intros include; exact He].
    intros Hno. exfalso. apply Hno, Hdir, Hm.
  - exists s', d1, r1, d1, (Raise OSError). split; [exact Hdel|]. split; [exact Hdel'|].
    split; [|split; [auto | intros include; exact He]].
    intros Hyes. apply Hdir in Hyes. congruence.
Qed.

Lemma delete_twice_witness :
  let s := Store "db" {[ "a" := "ta"; "b" := "tb" ]}
             {[ "a" := [1%float; 0%float]; "b" := [0%float; 1%float] ]}
             {[ "a" := {[ "doc_id" := PStr "X" ]}; "b" := {[ "doc_id" := PStr "Y" ]} ]} ["a"; "b"] in
  let d := Disk ∅ true Writes in
  let w : gmap string pyval := {[ "doc_id" := PStr "X" ]} in
  exists s' d1 r1 d2 r2,
    delete s d w = (s', d1, r1) /\
    delete s' d1 w = (s', d2, r2) /\
    (StoreSpec.can_make_dir s d -> r2 = Ok 0) /\
    (~ StoreSpec.can_make_dir s d -> r1 = Raise OSError /\ r2 = Raise OSError) /\
    forall include, gr_ids (get s' (Some w) include) = [].
Proof.
  intros s d w. apply delete_twice.
  split; simpl; rewrite !dom_insert_L, !dom_singleton_L; reflexivity.
Defined.

(** X13: on a store whose mappings have the same key set, [delete] with
    the empty filter removes every record: it leaves the three mappings
    empty, and returns the number of records when the directory of the
    persistence path can be made; otherwise it raises [OSError] after the
    removal and the disk is as it was. *)
Theorem delete_everything s d :
  same_keys s ->
  exists s' d' r,
    delete s d ∅ = (s', d', r) /\
    persist_path s' = persist_path s /\
    documents s' = ∅ /\ embeddings s' = ∅ /\ metadatas s' = ∅ /\
    (StoreSpec.can_make_dir s d -> r = Ok (Z.of_nat (size (metadatas s)))) /\
    (~ StoreSpec.can_make_dir s d -> r = Raise OSError /\ d' = d).
Proof.
  intros Hs.
  assert (Hall : to_delete s ∅ = List.map fst (items s)).
  { unfold to_delete, select. f_equal. apply filter_all. intros kv _. reflexivity. }
  destruct (delete_loop_spec (to_delete s ∅) s (select_ids_NoDup s (Some ∅)))
    as (s' & Hrun & Hpath & Hgone & Hkept).
  { intros id Hid. apply to_delete_In in Hid as (m & Hm & _).
    apply same_keys_lookup; eauto. }
  assert (Hnone : forall id, documents s' !! id = None /\ embeddings s' !! id = None
                             /\ metadatas s' !! id = None).
  { intros id. destruct (in_dec string_dec id (to_delete s ∅)) as [Hin|Hout];
      [now apply Hgone|].
    destruct (Hkept id Hout) as (-> & -> & ->).
    assert (Hm : metadatas s !! id = None).
    { destruct (metadatas s !! id) as [m|] eqn:Hm; [|reflexivity].
      exfalso. apply Hout. apply to_delete_In. exists m. split; [exact Hm | reflexivity]. }
    destruct Hs as [H1 H2]. rewrite <- !not_elem_of_dom in *.
    rewrite H1, H2. auto. }
  assert (Hlen : List.length (to_delete s ∅) = size (metadatas s))
    by (rewrite Hall, length_map, (Permutation_length (stored_items_perm s));
        apply length_map_to_list).
  assert (Hdir : makedirs d (persist_path s') = Ok tt <-> StoreSpec.can_make_dir s d)
    by (rewrite Hpath; apply makedirs_Ok).
  assert (Hempty : documents s' = ∅ /\ embeddings s' = ∅ /\ metadatas s' = ∅).
  { repeat split; apply map_eq; intros id; rewrite lookup_empty; apply (Hnone id). }
  destruct Hempty as (Hd & He & Hm).
  destruct (delete_result s d ∅ s' Hrun) as [(Hmk & d' & _ & Hdel)|(Hmk & Hdel)].
  - exists s', d', (Ok (Z.of_nat (List.length (to_delete s ∅)))).
    repeat (split; [assumption|]). split; [now rewrite Hlen|].
    intros Hno. exfalso. apply Hno, Hdir, Hmk.
  - exists s', d, (Raise OSError). repeat (split; [assumption|]). split; [|auto].
    intros Hyes. apply Hdir in Hyes. congruence.
Qed.

Lemma delete_everything_witness :
  let s := Store "db" {[ "a" := "ta"; "b" := "tb" ]}
             {[ "a" := [1%float; 0%float]; "b" := [0%float; 1%float] ]}
             {[ "a" := {[ "doc_id" := PStr "X" ]}; "b" := {[ "doc_id" := PStr "Y" ]} ]} ["a"; "b"] in
  let d := Disk ∅ true Writes in
  exists s' d' r,
    delete s d ∅ = (s', d', r) /\
    persist_path s' = persist_path s /\
    documents s' = ∅ /\ embeddings s' = ∅ /\ metadatas s' = ∅ /\
    (StoreSpec.can_make_dir s d -> r = Ok (Z.of_nat (size (metadatas s)))) /\
    (~ StoreSpec.can_make_dir s d -> r = Raise OSError /\ d' = d).
Proof.
  intros s d. apply delete_everything.
  split; simpl; rewrite !dom_insert_L, !dom_singleton_L; reflexivity.
Defined.

End MoreReadFacts.

(** ** More about [query] *)

Section MoreQueryFacts.

Import VectorStore.

Implicit Types (s : store) (id : string) (q : embedding).

Section WithLibraries.

Context {blas : Numpy.Blas} {sorting : ListSort}.

Lemma candidates_embedded s q where_ :
  same_keys s ->
  (forall id e, embeddings s !! id = Some e -> List.length e = List.length q) ->
  forall id, In id (candidates s where_) ->
    exists e, embeddings s !! id = Some e /\ List.length e = List.length q.
Proof.
  intros Hs Hdim id Hid. destruct (selected_stored s where_ id Hs Hid) as (_ & [e He] & _).
  eauto.
Qed.

Lemma embeddings_empty_candidates s where_ :
  same_keys s -> embeddings s = ∅ -> candidates s where_ = [].
Proof.
  intros Hs He. destruct (candidates s where_) as [|id l] eqn:Hc; [reflexivity|].
  destruct (selected_stored s where_ id Hs) as (_ & [e Hemb] & _).
  { unfold candidates in Hc. rewrite Hc. now left. }
  rewrite He in Hemb. discriminate.
Qed.

(** What [query] returns when every candidate has an embedding of the
    dimension of the query. *)
Lemma query_columns s q n where_ :
  same_keys s ->
  (forall id e, embeddings s !! id = Some e -> List.length e = List.length q) ->
  exists dl,
    distances_of s q (candidates s where_) = Ok dl /\
    List.map fst dl = candidates s where_ /\
    query s [q] n where_
    = Ok (QueryResult
            (List.map fst (take_py n (list_sort dl)))
            (List.map (fun id => default ""%string (documents s !! id))
               (List.map fst (take_py n (list_sort dl))))
            (List.map (fun id => default ∅ (metadatas s !! id))
               (List.map fst (take_py n (list_sort dl))))
            (List.map snd (take_py n (list_sort dl)))).
Proof.
  intros Hs Hdim.
  destruct (distances_of_spec s q (candidates s where_)
              (candidates_embedded s q where_ Hs Hdim)) as (dl & Hdl & Hfst & _).
  exists dl. split; [exact Hdl|]. split; [exact Hfst|].
  assert (Hnil : candidates s where_ = [] -> take_py n (list_sort dl) = []).
  { intros He. rewrite He in Hfst. destruct dl; [|discriminate].
    unfold take_py. rewrite list_sort_nil. simpl. now rewrite firstn_nil. }
  unfold query. destruct (decide (embeddings s = ∅)) as [He|Hne].
  - rewrite Hnil by now apply embeddings_empty_candidates. reflexivity.
  - destruct (candidates s where_) as [|id ids] eqn:Hc.
    + rewrite Hnil by reflexivity. reflexivity.
    + rewrite Hdl. reflexivity.
Qed.

Lemma take_py_length {A : Type} (n : Z) (l : list A) :
  (0 <= n -> List.length (take_py n l) = Nat.min (Z.to_nat n) (List.length l)) /\
  (n < 0 -> List.length (take_py n l) = (List.length l - Z.to_nat (- n))%nat).
Proof.
  unfold take_py, adjust. rewrite length_firstn.
  destruct (Z.ltb_spec n 0); split; intros; lia.
Qed.

Lemma sorted_app_le {A : Type} (R : A -> A -> Prop) (l1 l2 : list A) x y :
  StronglySorted R (l1 ++ l2) -> In x l1 -> In y l2 -> R x y.
Proof.
  induction l1 as [|z l1 IH]; simpl; intros Hs Hx Hy; [destruct Hx|].
  apply StronglySorted_inv in Hs as [Hs Hz]. destruct Hx as [->|Hx]; [|now apply IH].
  rewrite List.Forall_forall in Hz. apply Hz. apply in_or_app. now right.
Qed.

Lemma combine_columns {A B : Type} (l : list (A * B)) :
  combine (List.map fst l) (List.map snd l) = l.
Proof. induction l as [|[a b] l IH]; simpl; [reflexivity | now rewrite IH]. Qed.

Lemma take_py_split {A : Type} (n : Z) (l : list A) : exists rest, l = take_py n l ++ rest.
Proof.
  unfold take_py. eexists. symmetry. apply firstn_skipn.
Qed.

(** X14: on a store whose mappings have the same key set and whose
    embeddings have the dimension of the query, [query] returns four lists
    of the same length: for [n_results >= 0] that is the smaller of
    [n_results] and the number of records that pass the filter, and for a
    negative [n_results] it is that number less [-n_results].  When no
    distance is NaN, the records left out are the farthest: a record that
    passes the filter and is not returned is at least as far from the
    query as every record returned. *)
Theorem query_length s q n where_ :
  same_keys s ->
  (forall id e, embeddings s !! id = Some e -> List.length e = List.length q) ->
  exists r,
    query s [q] n where_ = Ok r /\
    List.length (qr_documents r) = List.length (qr_ids r) /\
    List.length (qr_metadatas r) = List.length (qr_ids r) /\
    List.length (qr_distances r) = List.length (qr_ids r) /\
    (0 <= n ->
     List.length (qr_ids r)
     = Nat.min (Z.to_nat n) (List.length (gr_ids (get s where_ None)))) /\
    (n < 0 ->
     List.length (qr_ids r)
     = (List.length (gr_ids (get s where_ None)) - Z.to_nat (- n))%nat) /\
    ((forall id dist, distance_of s q id dist -> PrimFloat.is_nan dist = false) ->
     forall id m e id' dist',
       metadatas s !! id = Some m -> passes where_ m -> embeddings s !! id = Some e ->
       ~ In id (qr_ids r) ->
       In (id', dist') (combine (qr_ids r) (qr_distances r)) ->
       (dist' <=? cosine q e)%float = true).
Proof.
  intros Hs Hdim.
  destruct (query_ranking s q n where_ Hs Hdim)
    as (ranked & r & Hq & Hnd & Hin & Hsorted & Hids & Hdists & Hdocs & Hmetas & _).
  exists r. split; [exact Hq|].
  split; [symmetry; apply (Forall2_length _ _ _ Hdocs)|].
  split; [symmetry; apply (Forall2_length _ _ _ Hmetas)|].
  split; [now rewrite Hids, Hdists, !length_map|].
  assert (Hlen : List.length ranked = List.length (select s where_)).
  { rewrite <- (length_map fst ranked), <- (length_map fst (select s where_)).
    apply Permutation_length, NoDup_Permutation;
      [exact Hnd | apply select_ids_NoDup |].
    intros id. rewrite !list_elem_of_In, select_ids_In. split.
    - intros ([id' dist] & <- & Hr)%in_map_iff. now apply Hin in Hr as [Hr _].
    - intros (m & Hm & Hp).
      destruct (same_keys_lookup s id Hs) as (_ & [e He] & _); [eauto|].
      apply in_map_iff. exists (id, cosine q e). split; [reflexivity|].
      apply Hin. split; [eauto | exists e; auto]. }
  destruct (take_py_length n ranked) as [Hpos Hneg].
  rewrite Hlen in Hpos, Hneg.
  split; [intros Hn; simpl; now rewrite Hids, !length_map, Hpos|].
  split; [intros Hn; simpl; now rewrite Hids, !length_map, Hneg|].
  intros Hnan id m e id' dist' Hm Hp He Hout Hret.
  rewrite Hids, Hdists, combine_columns in Hret.
  assert (Hall : In (id, cosine q e) ranked).
  { apply Hin. split; [eauto | exists e; auto]. }
  destruct (take_py_split n ranked) as [rest Hsplit].
  rewrite Hsplit in Hall. apply in_app_or in Hall as [Hall|Hall].
  { exfalso. apply Hout. rewrite Hids. now apply (in_map fst) in Hall. }
  specialize (Hsorted Hnan). rewrite Hsplit in Hsorted.
  exact (sorted_app_le by_distance _ _ _ _ Hsorted Hret Hall).
Qed.

Lemma distances_of_mismatch s q ids :
  (forall id, In id ids -> is_Some (embeddings s !! id)) ->
  (exists id e, In id ids /\ embeddings s !! id = Some e
                /\ List.length e <> List.length q) ->
  distances_of s q ids = Raise ValueError.
Proof.
  induction ids as [|id0 ids IH]; intros Hall (id & e & Hin & He & Hlen); [destruct Hin|].
  simpl. destruct (Hall id0 (or_introl eq_refl)) as [e0 He0]. rewrite He0.
  unfold cosine_distance, Numpy.dot.
  destruct (Nat.eqb_spec (List.length q) (List.length e0)) as [Heq|Hne]; [|reflexivity].
  rewrite IH; [reflexivity | intros; apply Hall; now right |].
  exists id, e. split; [|auto]. destruct Hin as [<-|Hin]; [|exact Hin].
  rewrite He0 in He. injection He as <-. congruence.
Qed.

(** X15: on a store whose mappings have the same key set, [query]
    raises [ValueError] when a record that passes the filter has an
    embedding whose dimension differs from that of the query. *)
Theorem query_dimension_mismatch s q n where_ :
  same_keys s ->
  (exists id m e,
      metadatas s !! id = Some m /\ selected where_ m = true /\
      embeddings s !! id = Some e /\ List.length e <> List.length q) ->
  query s [q] n where_ = Raise ValueError.
Proof.
  intros Hs (id & m & e & Hm & Hsel & He & Hlen).
  assert (Hin : In id (candidates s where_)).
  { apply select_ids_In. exists m. split; [exact Hm | now apply selected_spec]. }
  unfold query. destruct (decide (embeddings s = ∅)) as [Hempty|_].
  { rewrite Hempty in He. discriminate. }
  destruct (candidates s where_) as [|id0 ids] eqn:Hc; [destruct Hin|].
  rewrite distances_of_mismatch; [reflexivity | |].
  - intros id' Hid'. apply (selected_stored s where_ id' Hs).
    unfold candidates in Hc. now rewrite Hc.
  - exists id, e. auto.
Qed.

(** X16: on a store whose mappings have the same key set and whose
    embeddings have the dimension of the query, [query] with [n_results]
    at least the number of records that pass the filter returns the ids
    that [get] returns for the same filter, in another order. *)
Theorem query_all_is_get s q k where_ include :
  same_keys s ->
  (forall id e, embeddings s !! id = Some e -> List.length e = List.length q) ->
  (List.length (gr_ids (get s where_ include)) <= k)%nat ->
  exists r,
    query s [q] (Z.of_nat k) where_ = Ok r /\
    Permutation (qr_ids r) (gr_ids (get s where_ include)).
Proof.
  intros Hs Hdim Hk.
  destruct (query_columns s q (Z.of_nat k) where_ Hs Hdim) as (dl & _ & Hfst & Hq).
  eexists. split; [exact Hq|]. simpl. unfold candidates in Hfst.
  rewrite take_py_nat, firstn_all2.
  - rewrite <- (Permutation_map fst (list_sort_perm dl)). now rewrite Hfst.
  - rewrite <- (Permutation_length (list_sort_perm dl)).
    simpl in Hk. rewrite <- Hfst, length_map in Hk. exact Hk.
Qed.

End WithLibraries.

#[local] Existing Instance Numpy.left_to_right.
#[local] Existing Instance insertion_sort.

Lemma query_length_witness :
  let s := Store "db"
             {[ "a" := "ta"; "b" := "tb"; "c" := "tc" ]}
             {[ "a" := [1%float; 0%float]; "b" := [0%float; 1%float];
                "c" := [1%float; 0%float] ]}
             {[ "a" := {[ "doc_id" := PStr "X" ]}; "b" := {[ "doc_id" := PStr "Y" ]};
                "c" := {[ "doc_id" := PStr "X" ]} ]} ["a"; "b"; "c"] in
  let q := [1%float; 0%float] in
  exists r,
    query s [q] (-1) None = Ok r /\
    List.length (qr_documents r) = List.length (qr_ids r) /\
    List.length (qr_metadatas r) = List.length (qr_ids r) /\
    List.length (qr_distances r) = List.length (qr_ids r) /\
    (0 <= -1 ->
     List.length (qr_ids r)
     = Nat.min (Z.to_nat (-1)) (List.length (gr_ids (get s None None)))) /\
    (-1 < 0 ->
     List.length (qr_ids r)
     = (List.length (gr_ids (get s None None)) - Z.to_nat (- -1))%nat) /\
    ((forall id dist, distance_of s q id dist -> PrimFloat.is_nan dist = false) ->
     forall id m e id' dist',
       metadatas s !! id = Some m -> passes None m -> embeddings s !! id = Some e ->
       ~ In id (qr_ids r) ->
       In (id', dist') (combine (qr_ids r) (qr_distances r)) ->
       (dist' <=? cosine q e)%float = true).
Proof.
  apply query_length.
  - split; reflexivity.
  - apply (bool_decide_unpack (map_Forall _ _)). vm_compute. reflexivity.
Defined.

Lemma query_dimension_mismatch_witness :
  query (Store "db" {[ "a" := "ta" ]} {[ "a" := [1%float; 0%float] ]}
           {[ "a" := {[ "doc_id" := PStr "X" ]} ]} ["a"])
        [[1%float]] 5 None
  = Raise ValueError.
Proof.
  apply query_dimension_mismatch.
  - split; simpl; rewrite !dom_singleton_L; reflexivity.
  - exists "a", {[ "doc_id" := PStr "X" ]}, [1%float; 0%float].
    repeat split; simpl; try apply lookup_singleton_eq. discriminate.
Defined.

Lemma query_all_is_get_witness :
  let s := Store "db"
             {[ "a" := "ta"; "b" := "tb"; "c" := "tc" ]}
             {[ "a" := [1%float; 0%float]; "b" := [0%float; 1%float];
                "c" := [1%float; 0%float] ]}
             {[ "a" := {[ "doc_id" := PStr "X" ]}; "b" := {[ "doc_id" := PStr "Y" ]};
                "c" := {[ "doc_id" := PStr "X" ]} ]} ["a"; "b"; "c"] in
  exists r,
    query s [[1%float; 0%float]] (Z.of_nat 5) (Some {[ "doc_id" := PStr "X" ]}) = Ok r /\
    Permutation (qr_ids r) (gr_ids (get s (Some {[ "doc_id" := PStr "X" ]}) None)).
Proof.
  apply query_all_is_get.
  - split; reflexivity.
  - apply (bool_decide_unpack (map_Forall _ _)). vm_compute. reflexivity.
  - vm_compute. lia.
Defined.

End MoreQueryFacts.

(** ** Indexing, counting and deleting documents *)

Section DocumentFacts.

Import VectorStore Documents DocSpec.

Implicit Types (s : store) (d : disk) (id doc : string).

Lemma count_length s doc :
  get_document_chunk_count s doc = Z.of_nat (List.length (to_delete s (by_doc doc))).
Proof.
  unfold get_document_chunk_count, get, to_delete. simpl.
  now destruct (List.map fst (select s (Some (by_doc doc)))).
Qed.

(** The filter [{"doc_id": doc}] looks at the field [doc_id] only. *)
Lemma matches_by_doc (meta : gmap string pyval) doc :
  _matches_filter meta (by_doc doc) = true <-> of_document meta doc.
Proof.
  rewrite matches_filter_spec, matches_by_kind_cases.
  unfold by_doc, of_document, field_is. split.
  - intros H. destruct (H "doc_id" (PStr doc) (lookup_singleton_eq _ _)) as (field & Hf & Hv).
    destruct field; try (left; congruence). right. eauto.
  - intros H k v [<- <-]%lookup_singleton_Some.
    destruct H as [H|(l & H & Hin)]; eexists; (split; [exact H|]); [reflexivity | exact Hin].
Qed.

Lemma to_delete_by_doc s doc id :
  In id (to_delete s (by_doc doc))
  <-> exists meta, metadatas s !! id = Some meta /\ of_document meta doc.
Proof.
  rewrite to_delete_In. split; intros (m & Hm & Hf); exists m; (split; [exact Hm|]);
    now apply matches_by_doc.
Qed.

Lemma chunk_metadata_doc_id uploaded_at device_name doc_type (c : Models.Chunk string) :
  chunk_metadata uploaded_at device_name doc_type c !! "doc_id"
  = Some (PStr (Models.doc_id (Models.metadata c))).
Proof. unfold chunk_metadata. simpl. apply lookup_insert_eq. Qed.

Lemma chunk_metadata_of_document uploaded_at device_name doc_type
    (c : Models.Chunk string) doc :
  of_document (chunk_metadata uploaded_at device_name doc_type c) doc
  <-> Models.doc_id (Models.metadata c) = doc.
Proof.
  unfold of_document, field_is. rewrite chunk_metadata_doc_id. split.
  - intros [[= ->]|(l & [=] & _)]. reflexivity.
  - intros ->. now left.
Qed.

Lemma NoDup_map_filter {A B : Type} (f : A -> B) (p : A -> bool) (l : list A) :
  NoDup (List.map f l) -> NoDup (List.map f (List.filter p l)).
Proof.
  induction l as [|x l IH]; simpl; intros Hnd; [constructor|].
  apply NoDup_cons in Hnd as [Hx Hnd]. destruct (p x); simpl; [|auto].
  apply NoDup_cons. split; [|auto].
  intros Hin. apply Hx. apply list_elem_of_In in Hin. apply list_elem_of_In.
  apply in_map_iff in Hin as (y & Hy & Hin). apply in_map_iff. exists y.
  split; [exact Hy|]. now apply filter_In in Hin.
Qed.

(** The ids that [index_chunks] passes to [add]. *)
Local Abbreviation chunk_ids chunks :=
  (List.map (fun c : Models.Chunk string => Models.chunk_id (Models.metadata c)) chunks).

(** The loop of [add] on the lists that [index_chunks] builds from
    chunks with distinct ids. *)
Lemma add_loop_chunks uploaded_at device_name doc_type s s'
    (chunks : list (Models.Chunk string)) embs :
  NoDup (chunk_ids chunks) ->
  add_loop 0 (chunk_ids chunks) (List.map Models.text chunks) embs
    (List.map (chunk_metadata uploaded_at device_name doc_type) chunks) s
  = (s', Ok tt) ->
  (forall j c, chunks !! j = Some c ->
     documents s' !! Models.chunk_id (Models.metadata c) = Some (Models.text c) /\
     embeddings s' !! Models.chunk_id (Models.metadata c) = embs !! j /\
     metadatas s' !! Models.chunk_id (Models.metadata c)
     = Some (chunk_metadata uploaded_at device_name doc_type c)) /\
  (forall id, ~ In id (chunk_ids chunks) ->
     documents s' !! id = documents s !! id /\
     embeddings s' !! id = embeddings s !! id /\
     metadatas s' !! id = metadatas s !! id).
Proof.
  intros Hnd Hrun.
  pose proof (add_loop_lookup _ _ _ _ _ _ _ Hrun) as (_ & Hset & Hkept).
  split; [|exact Hkept].
  intros j c Hj.
  destruct (Hset j (Models.chunk_id (Models.metadata c))) as (H1 & H2 & H3).
  - now rewrite list_lookup_fmap, Hj.
  - intros j' Hlt Hj'.
    assert (j = j'); [|lia].
    eapply NoDup_lookup; [exact Hnd | | exact Hj']. now rewrite list_lookup_fmap, Hj.
  - simpl in H1, H2, H3. rewrite H1, H2, H3.
    now rewrite !list_lookup_fmap, Hj.
Qed.

Section WithProvider.

Variable provider : list string -> result (list embedding).

(** What [index_chunks] does when the provider returns an embedding for
    every chunk. *)
Lemma index_chunks_add uploaded_at s d (chunks : list (Models.Chunk string))
    doc filename device_name doc_type embs :
  get_embeddings provider (List.map Models.text chunks) = Ok embs ->
  (List.length chunks <= List.length embs)%nat ->
  exists s' d' r,
    index_chunks provider uploaded_at s d chunks doc filename device_name doc_type
    = (s', d', r) /\
    add_loop 0 (chunk_ids chunks) (List.map Models.text chunks) embs
      (List.map (chunk_metadata uploaded_at device_name doc_type) chunks) s
    = (s', Ok tt) /\
    (chunks = [] \/ StoreSpec.can_make_dir s d -> r = Ok (Z.of_nat (List.length chunks))) /\
    (chunks <> [] -> ~ StoreSpec.can_make_dir s d -> r = Raise OSError /\ d' = d).
Proof.
  intros Hemb Hlen. unfold index_chunks.
  destruct chunks as [|c0 chunks0] eqn:Hc.
  { exists s, d, (Ok 0). repeat split. congruence. }
  rewrite <- Hc in *. rewrite Hemb.
  match goal with |- context [add s d ?ids ?docs embs ?metas] =>
    destruct (add_loop_result ids 0 docs embs metas s) as [Hok _];
    destruct (add_loop 0 ids docs embs metas s) as [s' r] eqn:Hrun;
    pose proof (add_result s d ids docs embs metas s') as Hadd end.
  simpl in Hok.
  assert (Hr : r = Ok tt) by (apply Hok; right; rewrite !length_map; lia).
  subst r. pose proof (add_loop_lookup _ _ _ _ _ _ _ Hrun) as (Hpath & _).
  assert (Hdir : makedirs d (persist_path s') = Ok tt <-> StoreSpec.can_make_dir s d)
    by (rewrite Hpath; apply makedirs_Ok).
  destruct (Hadd Hrun) as [(Hmk & d' & _ & ->)|(Hmk & ->)].
  - exists s', d', (Ok (Z.of_nat (List.length chunks))).
    split; [reflexivity|]. split; [reflexivity|]. split; [reflexivity|].
    intros _ Hno. exfalso. apply Hno, Hdir, Hmk.
  - exists s', d, (Raise OSError).
    split; [reflexivity|]. split; [reflexivity|]. split; [|auto].
    intros [He|Hyes]; [rewrite Hc in He; discriminate|].
    apply Hdir in Hyes. congruence.
Qed.

(** X17: when the embedding provider returns an embedding for every
    chunk and the chunk ids are distinct, [index_chunks] stores every
    chunk: afterwards the id of every chunk maps to its text, its
    embedding and the metadata built from it, every other entry is
    unchanged, and the three mappings have the same key set if they had
    before and the provider returned no embedding too many.  It returns the
    number of chunks when there is no chunk or the directory of the
    persistence path can be made; otherwise it raises [OSError] after the
    chunks have been stored, and the disk is as it was. *)
Theorem index_chunks_stores uploaded_at s d (chunks : list (Models.Chunk string))
    doc filename device_name doc_type embs :
  get_embeddings provider (List.map Models.text chunks) = Ok embs ->
  (List.length chunks <= List.length embs)%nat ->
  NoDup (chunk_ids chunks) ->
  exists s' d' r,
    index_chunks provider uploaded_at s d chunks doc filename device_name doc_type
    = (s', d', r) /\
    (chunks = [] \/ StoreSpec.can_make_dir s d -> r = Ok (Z.of_nat (List.length chunks))) /\
    (chunks <> [] -> ~ StoreSpec.can_make_dir s d -> r = Raise OSError /\ d' = d) /\
    (forall j c, chunks !! j = Some c ->
       documents s' !! Models.chunk_id (Models.metadata c) = Some (Models.text c) /\
       embeddings s' !! Models.chunk_id (Models.metadata c) = embs !! j /\
       metadatas s' !! Models.chunk_id (Models.metadata c)
       = Some (chunk_metadata uploaded_at device_name doc_type c)) /\
    (forall id, ~ In id (chunk_ids chunks) ->
       documents s' !! id = documents s !! id /\
       embeddings s' !! id = embeddings s !! id /\
       metadatas s' !! id = metadatas s !! id) /\
    (same_keys s -> List.length embs = List.length chunks -> same_keys s').
Proof.
  intros Hemb Hlen Hnd.
  destruct (index_chunks_add uploaded_at s d chunks doc filename device_name doc_type
              embs Hemb Hlen) as (s' & d' & r & Hidx & Hrun & Hok & Hbad).
  exists s', d', r. split; [exact Hidx|]. split; [exact Hok|]. split; [exact Hbad|].
  destruct (add_loop_chunks _ _ _ _ _ _ _ Hnd Hrun) as [Hset Hkept].
  split; [exact Hset|]. split; [exact Hkept|].
  intros Hs Heq.
  destruct (add_loop_same_keys (chunk_ids chunks) 0
              (List.map Models.text chunks) embs
              (List.map (chunk_metadata uploaded_at device_name doc_type) chunks) s)
    as (s'' & Hrun' & Hs'); [rewrite !length_map; simpl; lia.. | exact Hs |].
  rewrite Hrun in Hrun'. now injection Hrun' as <-.
Qed.

(** X18: after [index_chunks] has stored chunks with distinct ids, none
    of which was in the store, the chunk count of every document has grown
    by the number of indexed chunks that carry its [doc_id]. *)
Theorem index_chunks_count uploaded_at s d (chunks : list (Models.Chunk string))
    doc filename device_name doc_type embs doc' :
  get_embeddings provider (List.map Models.text chunks) = Ok embs ->
  (List.length chunks <= List.length embs)%nat ->
  NoDup (chunk_ids chunks) ->
  (forall id, In id (chunk_ids chunks) -> metadatas s !! id = None) ->
  get_document_chunk_count
    (fst (fst (index_chunks provider uploaded_at s d chunks doc filename
                 device_name doc_type))) doc'
  = get_document_chunk_count s doc'
    + Z.of_nat (List.length
                  (List.filter
                     (fun c => String.eqb (Models.doc_id (Models.metadata c)) doc')
                     chunks)).
Proof.
  intros Hemb Hlen Hnd Hfresh.
  destruct (index_chunks_add uploaded_at s d chunks doc filename device_name doc_type
              embs Hemb Hlen) as (s' & d' & r & Hidx & Hrun & _).
  rewrite Hidx. simpl.
  destruct (add_loop_chunks _ _ _ _ _ _ _ Hnd Hrun) as [Hset Hkept].
  rewrite !count_length, <- Nat2Z.inj_add. f_equal.
  set (mine := List.filter
                 (fun c => String.eqb (Models.doc_id (Models.metadata c)) doc') chunks).
  rewrite <- (length_map (fun c => Models.chunk_id (Models.metadata c)) mine).
  rewrite <- length_app. apply Permutation_length. apply NoDup_Permutation.
  - apply select_ids_NoDup.
  - apply NoDup_app. split; [apply select_ids_NoDup|]. split.
    + intros id Hold%list_elem_of_In Hnew%list_elem_of_In.
      apply to_delete_by_doc in Hold as (m & Hm & _).
      rewrite Hfresh in Hm; [discriminate|].
      apply in_map_iff in Hnew as (c & <- & Hc). apply in_map_iff. exists c.
      split; [reflexivity|]. now apply filter_In in Hc.
    + now apply NoDup_map_filter.
  - intros id. rewrite elem_of_app, !list_elem_of_In, !to_delete_by_doc.
    destruct (in_dec string_dec id (chunk_ids chunks)) as [Hin|Hout].
    + apply in_map_iff in Hin as (c & <- & Hc).
      apply list_elem_of_In, list_elem_of_lookup in Hc as [j Hj].
      destruct (Hset j c Hj) as (_ & _ & Hm). rewrite Hm. split.
      * intros (m & [= <-] & Hdoc). right.
        apply chunk_metadata_of_document in Hdoc.
        apply in_map_iff. exists c. split; [reflexivity|]. apply filter_In.
        split; [|now apply String.eqb_eq].
        apply list_elem_of_In, list_elem_of_lookup. eauto.
      * intros [(m & Hold & _)|Hnew].
        -- rewrite Hfresh in Hold; [discriminate|]. apply in_map_iff. exists c.
           split; [reflexivity|]. apply list_elem_of_In, list_elem_of_lookup. eauto.
        -- apply in_map_iff in Hnew as (c' & Hid & Hc').
           apply filter_In in Hc' as [Hc' Hdoc]. apply String.eqb_eq in Hdoc.
           apply list_elem_of_In, list_elem_of_lookup in Hc' as [j' Hj'].
           assert (j' = j).
           { eapply NoDup_lookup; [exact Hnd | |].
             - rewrite list_lookup_fmap, Hj'. simpl. rewrite Hid. reflexivity.
             - rewrite list_lookup_fmap, Hj. reflexivity. }
           subst j'. assert (c' = c) by congruence. subst c'.
           eexists. split; [reflexivity|]. now apply chunk_metadata_of_document.
    + destruct (Hkept id Hout) as (_ & _ & ->). split; [now left|].
      intros [H|Hnew]; [exact H|]. exfalso. apply Hout.
      apply in_map_iff in Hnew as (c & <- & Hc). apply in_map_iff. exists c.
      split; [reflexivity|]. now apply filter_In in Hc.
Qed.

End WithProvider.

Lemma index_chunks_stores_witness :
  let embed := fun texts : list string =>
                 Ok (List.map (fun _ : string => [1%float; 0%float]) texts) in
  let chunk := fun id text =>
     Models.Build_Chunk string text
       (Models.Build_ChunkMetadata string "D1" "report.pdf" id (Some 1) 0
          None "other" ["ISO 10993"] None [] [] []) in
  let chunks := [chunk "D1_chunk_0" "Biocompatibility per ISO 10993";
                 chunk "D1_chunk_1" "Cytotoxicity"]%string in
  let embs := [[1%float; 0%float]; [1%float; 0%float]] in
  let s := Store "db" {[ "old" := "text" ]} {[ "old" := [0%float; 1%float] ]}
             {[ "old" := {[ "doc_id" := PStr "D0" ]} ]} ["old"] in
  let d := Disk ∅ true Writes in
  exists s' d' r,
    index_chunks embed "2024-01-01T00:00:00" s d chunks "D1" "report.pdf" None "other"
    = (s', d', r) /\
    (chunks = [] \/ StoreSpec.can_make_dir s d -> r = Ok (Z.of_nat (List.length chunks))) /\
    (chunks <> [] -> ~ StoreSpec.can_make_dir s d -> r = Raise OSError /\ d' = d) /\
    (forall j c', chunks !! j = Some c' ->
       documents s' !! Models.chunk_id (Models.metadata c') = Some (Models.text c') /\
       embeddings s' !! Models.chunk_id (Models.metadata c') = embs !! j /\
       metadatas s' !! Models.chunk_id (Models.metadata c')
       = Some (chunk_metadata "2024-01-01T00:00:00" None "other" c')) /\
    (forall id, ~ In id (chunk_ids chunks) ->
       documents s' !! id = documents s !! id /\
       embeddings s' !! id = embeddings s !! id /\
       metadatas s' !! id = metadatas s !! id) /\
    (same_keys s -> List.length embs = List.length chunks -> same_keys s').
Proof.
  intros embed chunk chunks embs s d. apply (index_chunks_stores embed).
  - reflexivity.
  - simpl. lia.
  - simpl. repeat (apply NoDup_cons; split;
                   [rewrite list_elem_of_In; simpl; intuition discriminate|]).
    apply NoDup_nil. exact I.
Defined.

Lemma index_chunks_count_witness :
  let embed := fun texts : list string =>
                 Ok (List.map (fun _ : string => [1%float; 0%float]) texts) in
  let chunk := fun doc id =>
     Models.Build_Chunk string "Biocompatibility per ISO 10993"
       (Models.Build_ChunkMetadata string doc "report.pdf" id (Some 1) 0
          None "other" ["ISO 10993"] None [] [] []) in
  let chunks := [chunk "D1" "D1_chunk_0"; chunk "D2" "D2_chunk_0";
                 chunk "D1" "D1_chunk_1"]%string in
  let s := Store "db" ∅ ∅ ∅ [] in
  get_document_chunk_count
    (fst (fst (index_chunks embed "2024-01-01T00:00:00" s (Disk ∅ true Writes) chunks
                 "D1" "report.pdf" None "other"))) "D1"
  = get_document_chunk_count s "D1"
    + Z.of_nat (List.length
                  (List.filter
                     (fun c => String.eqb (Models.doc_id (Models.metadata c)) "D1")
                     chunks)).
Proof.
  intros embed chunk chunks s.
  apply (index_chunks_count embed "2024-01-01T00:00:00" s (Disk ∅ true Writes) chunks "D1"
           "report.pdf" None "other" (List.map (fun _ => [1%float; 0%float]) chunks)).
  - reflexivity.
  - simpl. lia.
  - simpl. repeat (apply NoDup_cons; split; [rewrite list_elem_of_In; simpl; intuition discriminate|]).
    apply NoDup_nil. exact I.
  - intros id _. reflexivity.
Defined.

(** X19: [document_exists] holds exactly when some stored record
    belongs to the document. *)
Theorem document_exists_iff s doc :
  document_exists s doc = true
  <-> exists id meta, metadatas s !! id = Some meta /\ of_document meta doc.
Proof.
  unfold document_exists. rewrite count_length.
  destruct (to_delete s (by_doc doc)) as [|id l] eqn:Hl; simpl.
  - split; [discriminate|]. intros (id & meta & Hm & Hdoc). exfalso.
    assert (Hin : In id (to_delete s (by_doc doc))) by (apply to_delete_by_doc; eauto).
    now rewrite Hl in Hin.
  - split; [intros _ | reflexivity].
    assert (Hin : In id (to_delete s (by_doc doc))) by (rewrite Hl; now left).
    apply to_delete_by_doc in Hin as (meta & Hm & Hdoc). eauto.
Qed.

(** X20: on a store whose mappings have the same key set,
    [delete_document] removes the document: afterwards the document does
    not exist, every record that belonged to it is gone from the three
    mappings and every other record is unchanged.  For a document that did
    not exist it returns 0 and touches neither store nor disk; otherwise it
    returns the chunk count of the document when the directory of the
    persistence path can be made, and raises [OSError] after the removal,
    with the disk as it was, when it cannot. *)
Theorem delete_document_removes s d doc :
  same_keys s ->
  exists s' d' r,
    delete_document s d doc = (s', d', r) /\
    (document_exists s doc = false -> s' = s /\ d' = d /\ r = Ok 0) /\
    (document_exists s doc = false \/ StoreSpec.can_make_dir s d
     -> r = Ok (get_document_chunk_count s doc)) /\
    (document_exists s doc = true -> ~ StoreSpec.can_make_dir s d
     -> r = Raise OSError /\ d' = d) /\
    document_exists s' doc = false /\
    (forall id meta, metadatas s !! id = Some meta -> of_document meta doc ->
       documents s' !! id = None /\ embeddings s' !! id = None
       /\ metadatas s' !! id = None) /\
    (forall id, (forall meta, metadatas s !! id = Some meta -> ~ of_document meta doc) ->
       documents s' !! id = documents s !! id /\
       embeddings s' !! id = embeddings s !! id /\
       metadatas s' !! id = metadatas s !! id) /\
    same_keys s'.
Proof.
  intros Hs. unfold delete_document, document_exists. rewrite count_length.
  destruct (to_delete s (by_doc doc)) as [|id0 l] eqn:Hl.
  - exists s, d, (Ok 0). simpl.
    split; [reflexivity|]. split; [auto|]. split; [reflexivity|].
    split; [discriminate|]. split; [|split; [|split]].
    + rewrite count_length, Hl. reflexivity.
    + intros id meta Hm Hdoc. exfalso.
      assert (Hin : In id (to_delete s (by_doc doc))) by (apply to_delete_by_doc; eauto).
      now rewrite Hl in Hin.
    + auto.
    + exact Hs.
  - rewrite <- Hl.
    assert (Hpos : (Z.of_nat (List.length (to_delete s (by_doc doc))) =? 0) = false)
      by (rewrite Hl; reflexivity).
    assert (Hgt : (Z.of_nat (List.length (to_delete s (by_doc doc))) >? 0) = true)
      by (rewrite Hl; reflexivity).
    rewrite Hpos, Hgt.
    destruct (delete_loop_spec (to_delete s (by_doc doc)) s)
      as (s' & Hrun & Hpath & Hgone & Hkept).
    { apply select_ids_NoDup. }
    { intros id Hin. now apply (selected_stored s (Some (by_doc doc))). }
    assert (Hdir : makedirs d (persist_path s') = Ok tt <-> StoreSpec.can_make_dir s d)
      by (rewrite Hpath; apply makedirs_Ok).
    assert (Hafter : document_exists s' doc = false /\
      (forall id meta, metadatas s !! id = Some meta -> of_document meta doc ->
         documents s' !! id = None /\ embeddings s' !! id = None
         /\ metadatas s' !! id = None) /\
      (forall id, (forall meta, metadatas s !! id = Some meta -> ~ of_document meta doc) ->
         documents s' !! id = documents s !! id /\
         embeddings s' !! id = embeddings s !! id /\
         metadatas s' !! id = metadatas s !! id) /\
      same_keys s').
    { split; [|split; [|split]].
      - unfold document_exists.
        rewrite count_length, (to_delete_after s s' (by_doc doc)); [reflexivity | |].
        + intros id Hin. now destruct (Hgone id Hin) as (_ & _ & ?).
        + intros id Hout. now destruct (Hkept id Hout) as (_ & _ & ?).
      - intros id meta Hm Hdoc. apply Hgone. apply to_delete_by_doc. eauto.
      - intros id Hnot. apply Hkept. intros (meta & Hm & Hdoc)%to_delete_by_doc.
        exact (Hnot meta Hm Hdoc).
      - pose proof (delete_loop_same_keys (to_delete s (by_doc doc)) s Hs) as Hs'.
        now rewrite Hrun in Hs'. }
    destruct (delete_result s d (by_doc doc) s' Hrun) as [(Hmk & d' & _ & ->)|(Hmk & ->)].
    + exists s', d', (Ok (Z.of_nat (List.length (to_delete s (by_doc doc))))).
      split; [reflexivity|]. split; [discriminate|]. split; [reflexivity|].
      split; [|exact Hafter]. intros _ Hno. exfalso. apply Hno, Hdir, Hmk.
    + exists s', d, (Raise OSError).
      split; [reflexivity|]. split; [discriminate|]. split; [|split; [auto | exact Hafter]].
      intros [?|Hyes]; [discriminate|]. apply Hdir in Hyes. congruence.
Qed.

Lemma delete_document_removes_witness :
  let s := Store "db" {[ "a" := "ta"; "b" := "tb" ]}
             {[ "a" := [1%float; 0%float]; "b" := [0%float; 1%float] ]}
             {[ "a" := {[ "doc_id" := PStr "X" ]}; "b" := {[ "doc_id" := PStr "Y" ]} ]} ["a"; "b"] in
  let d := Disk ∅ true Writes in
  exists s' d' r,
    delete_document s d "X" = (s', d', r) /\
    (document_exists s "X" = false -> s' = s /\ d' = d /\ r = Ok 0) /\
    (document_exists s "X" = false \/ StoreSpec.can_make_dir s d
     -> r = Ok (get_document_chunk_count s "X")) /\
    (document_exists s "X" = true -> ~ StoreSpec.can_make_dir s d
     -> r = Raise OSError /\ d' = d) /\
    document_exists s' "X" = false /\
    (forall id meta, metadatas s !! id = Some meta -> of_document meta "X" ->
       documents s' !! id = None /\ embeddings s' !! id = None
       /\ metadatas s' !! id = None) /\
    (forall id, (forall meta, metadatas s !! id = Some meta -> ~ of_document meta "X") ->
       documents s' !! id = documents s !! id /\
       embeddings s' !! id = embeddings s !! id /\
       metadatas s' !! id = metadatas s !! id) /\
    same_keys s'.
Proof.
  intros s d. apply delete_document_removes.
  split; simpl; rewrite !dom_insert_L, !dom_singleton_L; reflexivity.
Defined.

End DocumentFacts.

(** ** Querying chunks *)

Section QueryChunksFacts.

Import VectorStore Documents DocSpec.

Implicit Types (s : store) (meta : gmap string pyval).

Lemma matches_insert meta k v (w : gmap string pyval) :
  w !! k = None ->
  matches_by_kind meta (<[k := PStr v]> w) <-> field_is meta k v /\ matches_by_kind meta w.
Proof.
  intros Hk. rewrite !matches_by_kind_cases. unfold field_is. split.
  - intros H. split.
    + destruct (H k (PStr v) (lookup_insert_eq _ _ _)) as (field & Hf & Hv).
      destruct field; try (left; congruence). right. eauto.
    + intros k' v' Hk'. apply H. rewrite lookup_insert_ne; [exact Hk'|].
      intros ->. congruence.
  - intros [Hf Hw] k' v'. rewrite lookup_insert_Some. intros [[<- <-]|[_ Hk']].
    + destruct Hf as [Hf|(l & Hf & Hin)]; eexists; (split; [exact Hf|]);
        [reflexivity | exact Hin].
    + now apply Hw.
Qed.

Lemma matches_empty meta : matches_by_kind meta ∅.
Proof. intros k v Hk. now rewrite lookup_empty in Hk. Qed.

(** X21: a record passes the filter that [query_chunks] builds exactly
    when, for each of [doc_id], [device_name] and [doc_type] that is given
    and not the empty string, its field of that name is the given string or
    a list that holds it; an argument that is [None] or [""] filters
    nothing. *)
Theorem build_where_matches meta doc_id device_name doc_type :
  _matches_filter meta (build_where doc_id device_name doc_type) = true
  <-> (truthy doc_id = true -> field_is meta "doc_id" (default ""%string doc_id)) /\
      (truthy device_name = true
       -> field_is meta "device_name" (default ""%string device_name)) /\
      (truthy doc_type = true -> field_is meta "doc_type" (default ""%string doc_type)).
Proof.
  rewrite matches_filter_spec. unfold build_where.
  destruct (truthy doc_id), (truthy device_name), (truthy doc_type);
    rewrite ?matches_insert
      by (rewrite ?lookup_insert_ne by discriminate; apply lookup_empty);
    pose proof (matches_empty meta); split; intros; intuition discriminate.
Qed.

Lemma holds_standard_listed meta standard :
  standards_listed meta ->
  exists b, holds_standard meta standard = Ok b /\ (b = true <-> cites meta standard).
Proof.
  intros Hl. unfold holds_standard, cites.
  destruct (meta !! "standards_referenced"%string) as [v|] eqn:Hv; simpl.
  - destruct (Hl v Hv) as [l ->]. eexists. split; [reflexivity|].
    rewrite py_in_In. split; [eauto|]. now intros (l' & [= <-] & Hin).
  - exists false. split; [reflexivity|]. split; [discriminate|].
    now intros (l & [=] & _).
Qed.

Lemma standard_check meta standard :
  standards_listed meta ->
  exists b,
    (if truthy standard then holds_standard meta (default ""%string standard)
     else Ok true) = Ok b /\
    (b = true <-> (truthy standard = true -> cites meta (default ""%string standard))).
Proof.
  intros Hl. destruct (truthy standard).
  - destruct (holds_standard_listed meta (default ""%string standard) Hl) as (b & Hb & Hiff).
    exists b. split; [exact Hb|]. rewrite Hiff. tauto.
  - exists true. split; [reflexivity|]. split; [discriminate | reflexivity].
Qed.

(** The loop of [query_chunks] over result columns that are as long as
    the list of ids. *)
Lemma format_results_columns standard results ids : forall i,
  (forall j id, ids !! j = Some id ->
     exists text meta dist,
       qr_documents results !! (i + j)%nat = Some text /\
       qr_metadatas results !! (i + j)%nat = Some meta /\
       qr_distances results !! (i + j)%nat = Some dist /\
       standards_listed meta) ->
  exists hits,
    format_results standard results i ids = Ok hits /\
    sublist (List.map hit_chunk_id hits) ids /\
    Forall (fun h => exists j,
              ids !! j = Some (hit_chunk_id h) /\
              qr_documents results !! (i + j)%nat = Some (hit_text h) /\
              qr_metadatas results !! (i + j)%nat = Some (hit_metadata h) /\
              qr_distances results !! (i + j)%nat = Some (hit_distance h) /\
              (truthy standard = true
               -> cites (hit_metadata h) (default ""%string standard))) hits /\
    (forall j id meta, ids !! j = Some id ->
       qr_metadatas results !! (i + j)%nat = Some meta ->
       (truthy standard = true -> cites meta (default ""%string standard)) ->
       In id (List.map hit_chunk_id hits)).
Proof.
  induction ids as [|id0 rest IH]; intros i Hcols.
  - exists []. simpl. split; [reflexivity|]. split; [constructor|].
    split; [constructor|]. intros j id meta Hj. discriminate.
  - destruct (Hcols 0%nat id0 eq_refl) as (text & meta & dist & Hd & Hm & Hx & Hl).
    rewrite Nat.add_0_r in Hd, Hm, Hx.
    destruct (IH (S i)) as (hits & Hrun & Hsub & Hall & Hfull).
    { intros j id Hj. specialize (Hcols (S j) id Hj).
      now rewrite Nat.add_succ_r in Hcols. }
    assert (Hshift : Forall (fun h => exists j,
              (id0 :: rest) !! j = Some (hit_chunk_id h) /\
              qr_documents results !! (i + j)%nat = Some (hit_text h) /\
              qr_metadatas results !! (i + j)%nat = Some (hit_metadata h) /\
              qr_distances results !! (i + j)%nat = Some (hit_distance h) /\
              (truthy standard = true
               -> cites (hit_metadata h) (default ""%string standard))) hits).
    { eapply List.Forall_impl; [|exact Hall]. intros h (j & Hj & H1 & H2 & H3 & H4).
      exists (S j). rewrite Nat.add_succ_r. auto. }
    destruct (standard_check meta standard Hl) as (b & Hb & Hiff).
    simpl. rewrite Hm, Hb. destruct b.
    + rewrite Hd, Hx, Hrun. eexists. split; [reflexivity|]. simpl.
      split; [now apply sublist_skip|]. split.
      * constructor; [|exact Hshift]. exists 0%nat. simpl. rewrite Nat.add_0_r.
        split; [reflexivity|]. split; [exact Hd|]. split; [exact Hm|].
        split; [exact Hx|]. now apply Hiff.
      * intros [|j] id meta' Hj Hm' Hc; simpl in Hj.
        -- left. congruence.
        -- right. rewrite Nat.add_succ_r in Hm'. eapply Hfull; eauto.
    + rewrite Hrun. exists hits. split; [reflexivity|].
      split; [now apply sublist_cons|]. split; [exact Hshift|].
      intros [|j] id meta' Hj Hm' Hc; simpl in Hj.
      * exfalso. rewrite Nat.add_0_r, Hm in Hm'. injection Hm' as <-.
        apply Hiff in Hc. discriminate.
      * rewrite Nat.add_succ_r in Hm'. eapply Hfull; eauto.
Qed.

Section WithLibraries.

Context {blas : Numpy.Blas} {sorting : ListSort}.

(** X22: on a store whose mappings have the same key set, whose
    embeddings have the dimension of the query's embedding and whose
    records list their standards, [query_chunks] returns: its hits are, in
    the order of the store's [query] result for the filter built from the
    arguments, those of the [top_k] results that cite [standard] (all of
    them for a [standard] that is [None] or [""]); every hit holds the
    stored text and metadata of its chunk and the cosine distance
    [1 - (e.x) / (|e| * |x| + 1e-8)] of the chunk's embedding [x], with
    the sums of products as numpy's [dot] gives them, and its metadata
    passes the filter. *)
Theorem query_chunks_hits (provider : list string -> result (list embedding))
    s q doc_id device_name doc_type standard top_k e :
  same_keys s ->
  get_embedding provider q = Ok e ->
  (forall id emb, embeddings s !! id = Some emb -> List.length emb = List.length e) ->
  (forall id meta, metadatas s !! id = Some meta -> standards_listed meta) ->
  exists results hits,
    query s [e] top_k
      (if decide (build_where doc_id device_name doc_type = ∅) then None
       else Some (build_where doc_id device_name doc_type))
    = Ok results /\
    query_chunks provider s q doc_id device_name doc_type standard top_k = Ok hits /\
    sublist (List.map hit_chunk_id hits) (qr_ids results) /\
    (forall id,
       In id (List.map hit_chunk_id hits)
       <-> In id (qr_ids results) /\
           (truthy standard = true ->
            exists meta, metadatas s !! id = Some meta
                         /\ cites meta (default ""%string standard))) /\
    Forall (fun h =>
              documents s !! hit_chunk_id h = Some (hit_text h) /\
              metadatas s !! hit_chunk_id h = Some (hit_metadata h) /\
              distance_of s e (hit_chunk_id h) (hit_distance h) /\
              matches_by_kind (hit_metadata h)
                (build_where doc_id device_name doc_type)) hits /\
    (0 <= top_k -> Z.of_nat (List.length hits) <= top_k).
Proof.
  intros Hs Hemb Hdim Hstd.
  set (w := build_where doc_id device_name doc_type).
  set (where_ := if decide (w = ∅) then None else Some w).
  destruct (query_columns s e top_k where_ Hs Hdim) as (dl & Hdl & Hfst & Hq).
  destruct (distances_of_spec s e (candidates s where_)
              (candidates_embedded s e where_ Hs Hdim)) as (dl' & Hdl' & _ & Hdist).
  rewrite Hdl in Hdl'. injection Hdl' as <-.
  set (top := take_py top_k (list_sort dl)) in *.
  assert (Htop : forall x, In x top -> In x dl).
  { intros x Hx. apply In_firstn in Hx.
    eapply Permutation_in; [symmetry; apply list_sort_perm | exact Hx]. }
  assert (Hcand : forall x, In x top ->
            is_Some (documents s !! fst x) /\ is_Some (metadatas s !! fst x)
            /\ passes where_ (default ∅ (metadatas s !! fst x))
            /\ distance_of s e (fst x) (snd x)).
  { intros x Hx. apply Htop in Hx.
    assert (Hin : In (fst x) (candidates s where_))
      by (rewrite <- Hfst; now apply in_map).
    destruct (selected_stored s where_ (fst x) Hs Hin) as (Hd & _ & Hm).
    split; [exact Hd|]. split; [exact Hm|]. split.
    - apply select_ids_In in Hin as (meta & -> & Hp). exact Hp.
    - rewrite List.Forall_forall in Hdist. now apply Hdist. }
  set (results := QueryResult (List.map fst top)
        (List.map (fun id => default ""%string (documents s !! id)) (List.map fst top))
        (List.map (fun id => default ∅ (metadatas s !! id)) (List.map fst top))
        (List.map snd top)) in *.
  destruct (format_results_columns standard results (List.map fst top) 0)
    as (hits & Hrun & Hsub & Hall & Hfull).
  { intros j id Hj. simpl. rewrite !list_lookup_fmap in *.
    destruct (top !! j) as [x|] eqn:Hx; [|discriminate]. simpl in *.
    injection Hj as <-. do 3 eexists. repeat (split; [reflexivity|]).
    assert (Hin : In x top) by (apply list_elem_of_In, list_elem_of_lookup; eauto).
    destruct (Hcand x Hin) as (_ & [meta Hm] & _). rewrite Hm. simpl. eauto. }
  exists results, hits. split; [exact Hq|]. split.
  { unfold query_chunks. fold w. fold where_. rewrite Hemb, Hq.
    destruct (qr_ids results) eqn:Hids; [|rewrite <- Hids; exact Hrun].
    simpl in Hids. rewrite Hids in Hrun. simpl in Hrun. now injection Hrun as <-. }
  split; [exact Hsub|].
  assert (Hhit : forall h, In h hits -> exists x,
            In x top /\ fst x = hit_chunk_id h /\ snd x = hit_distance h /\
            hit_text h = default ""%string (documents s !! fst x) /\
            hit_metadata h = default ∅ (metadatas s !! fst x) /\
            (truthy standard = true
             -> cites (hit_metadata h) (default ""%string standard))).
  { rewrite List.Forall_forall in Hall. intros h Hh.
    destruct (Hall h Hh) as (j & Hj & H1 & H2 & H3 & H4). simpl in *.
    rewrite !list_lookup_fmap in *.
    destruct (top !! j) as [x|] eqn:Hx; [|discriminate]. simpl in *.
    exists x. split; [apply list_elem_of_In, list_elem_of_lookup; eauto|].
    split; [congruence|]. split; [congruence|]. split; [congruence|].
    split; [congruence | exact H4]. }
  split; [|split].
  - intros id. split.
    + intros Hin. apply in_map_iff in Hin as (h & <- & Hh).
      destruct (Hhit h Hh) as (x & Hx & Hid & _ & _ & Hmeta & Hc).
      split; [simpl; rewrite <- Hid; now apply in_map|].
      intros Ht. destruct (Hcand x Hx) as (_ & [meta Hm] & _).
      rewrite Hid in *. exists meta. split; [exact Hm|].
      specialize (Hc Ht). now rewrite Hmeta, Hm in Hc.
    + intros [Hin Hc]. simpl in Hin.
      apply list_elem_of_In, list_elem_of_lookup in Hin as [j Hj].
      eapply (Hfull j id); [exact Hj | simpl; rewrite list_lookup_fmap, Hj; reflexivity |].
      intros Ht. destruct (Hc Ht) as (meta & Hm & Hcites). now rewrite Hm.
  - apply List.Forall_forall. intros h Hh.
    destruct (Hhit h Hh) as (x & Hx & Hid & Hdx & Htx & Hmeta & _).
    destruct (Hcand x Hx) as ([doc Hd] & [meta Hm] & Hp & Hdist').
    rewrite Hid in *. rewrite Hd in Htx. rewrite Hm in Hmeta, Hp. simpl in *.
    split; [congruence|]. split; [congruence|]. split; [congruence|].
    rewrite Hmeta. unfold where_ in Hp.
    destruct (decide (w = ∅)) as [->|_]; [apply matches_empty | exact Hp].
  - intros Hk. apply sublist_length in Hsub. rewrite !length_map in Hsub.
    destruct (take_py_length top_k (list_sort dl)) as [Hlen _].
    fold top in Hlen. specialize (Hlen Hk). lia.
Qed.

End WithLibraries.

#[local] Existing Instance Numpy.left_to_right.
#[local] Existing Instance insertion_sort.

Lemma query_chunks_hits_witness :
  let embed := fun texts : list string =>
                 Ok (List.map (fun _ : string => [1%float; 0%float]) texts) in
  let s := Store "db"
             {[ "a" := "ta"; "b" := "tb" ]}
             {[ "a" := [1%float; 0%float]; "b" := [0%float; 1%float] ]}
             {[ "a" := {[ "doc_id" := PStr "X";
                          "standards_referenced" := PList [PStr "ISO 10993"] ]};
                "b" := {[ "doc_id" := PStr "X";
                          "standards_referenced" := PList [] ]} ]} ["a"; "b"] in
  let e := [1%float; 0%float] in
  exists results hits,
    query s [e] 5
      (if decide (build_where (Some "X") None (Some "") = ∅) then None
       else Some (build_where (Some "X") None (Some "")))
    = Ok results /\
    query_chunks embed s "which standard?" (Some "X") None (Some "")
      (Some "ISO 10993") 5 = Ok hits /\
    sublist (List.map hit_chunk_id hits) (qr_ids results) /\
    (forall id,
       In id (List.map hit_chunk_id hits)
       <-> In id (qr_ids results) /\
           (truthy (Some "ISO 10993") = true ->
            exists meta, metadatas s !! id = Some meta
                         /\ cites meta (default ""%string (Some "ISO 10993")))) /\
    Forall (fun h =>
              documents s !! hit_chunk_id h = Some (hit_text h) /\
              metadatas s !! hit_chunk_id h = Some (hit_metadata h) /\
              distance_of s e (hit_chunk_id h) (hit_distance h) /\
              matches_by_kind (hit_metadata h)
                (build_where (Some "X") None (Some ""))) hits /\
    (0 <= 5 -> Z.of_nat (List.length hits) <= 5).
Proof.
  intros embed s e. apply (query_chunks_hits embed).
  - split; simpl; rewrite !dom_insert_L, !dom_singleton_L; reflexivity.
  - reflexivity.
  - apply (bool_decide_unpack (map_Forall _ _)). vm_compute. reflexivity.
  - intros id meta Hm v Hv. simpl in Hm.
    apply lookup_insert_Some in Hm as [[_ <-]|[_ Hm]];
      [|apply lookup_singleton_Some in Hm as [_ <-]];
      vm_compute in Hv; injection Hv as <-; eexists; reflexivity.
Defined.

End QueryChunksFacts.

(** ** Indexing with too few embeddings *)

Section ShortEmbeddings.

Import VectorStore Documents.

Implicit Types (s : store) (d : disk).

(** The loop of [add] stops at the first index that has a text but no
    embedding, after it has stored the text. *)
Lemma add_loop_stops ids : forall i docs embs metas s k id doc,
  ids !! k = Some id ->
  (forall j, (j < k)%nat ->
     is_Some (docs !! (i + j)%nat) /\ is_Some (embs !! (i + j)%nat)
     /\ is_Some (metas !! (i + j)%nat)) ->
  docs !! (i + k)%nat = Some doc ->
  embs !! (i + k)%nat = None ->
  exists s',
    add_loop i ids docs embs metas s = (s', Raise IndexError) /\
    documents s' !! id = Some doc /\
    (embeddings s !! id = None -> (forall j, (j < k)%nat -> ids !! j <> Some id) ->
     embeddings s' !! id = None).
Proof.
  induction ids as [|id0 ids IH]; intros i docs embs metas s k id doc Hk Hdef Hd He;
    [discriminate|].
  destruct k as [|k]; simpl.
  - rewrite Nat.add_0_r in Hd, He. simpl in Hk. injection Hk as ->.
    rewrite Hd, He. eexists. split; [reflexivity|]. simpl.
    split; [apply lookup_insert_eq | auto].
  - destruct (Hdef 0%nat ltac:(lia)) as ([doc0 H0] & [emb0 H1] & [meta0 H2]).
    rewrite Nat.add_0_r in H0, H1, H2. rewrite H0, H1, H2. simpl.
    destruct (IH (S i) docs embs metas
                (Store (persist_path s) (<[id0 := doc0]> (documents s))
                   (<[id0 := emb0]> (embeddings s)) (<[id0 := meta0]> (metadatas s))
                   (if decide (is_Some (metadatas s !! id0)) then keys s
                    else keys s ++ [id0]))
                k id doc) as (s' & Hrun & Hdoc & Hemb).
    + exact Hk.
    + intros j Hj. specialize (Hdef (S j) ltac:(lia)). now rewrite Nat.add_succ_r in Hdef.
    + now rewrite Nat.add_succ_r in Hd.
    + now rewrite Nat.add_succ_r in He.
    + exists s'. split; [exact Hrun|]. split; [exact Hdoc|].
      intros Hnone Hfresh. apply Hemb.
      * simpl. rewrite lookup_insert_ne; [exact Hnone|].
        intros ->. now apply (Hfresh 0%nat ltac:(lia)).
      * intros j Hj. apply (Hfresh (S j)). lia.
Qed.

(** X30: when the embedding provider returns fewer embeddings than
    there are chunks, [index_chunks] raises [IndexError] and does not
    write the data file, but the store in memory is already changed: the
    text of the first chunk without embedding is stored, and if its id was
    new and is not shared with an earlier chunk, it has no embedding, so
    the three mappings no longer have the same key set. *)
Theorem index_chunks_short_embeddings (provider : list string -> result (list embedding))
    uploaded_at s d (chunks : list (Models.Chunk string)) doc filename device_name
    doc_type embs c :
  get_embeddings provider (List.map Models.text chunks) = Ok embs ->
  chunks !! List.length embs = Some c ->
  NoDup (List.map (fun c => Models.chunk_id (Models.metadata c)) chunks) ->
  embeddings s !! Models.chunk_id (Models.metadata c) = None ->
  exists s',
    index_chunks provider uploaded_at s d chunks doc filename device_name doc_type
    = (s', d, Raise IndexError) /\
    documents s' !! Models.chunk_id (Models.metadata c) = Some (Models.text c) /\
    embeddings s' !! Models.chunk_id (Models.metadata c) = None /\
    ~ same_keys s'.
Proof.
  intros Hemb Hc Hnd Hnew. unfold index_chunks.
  destruct chunks as [|c0 chunks0] eqn:Hchunks; [discriminate|].
  rewrite <- Hchunks in *. rewrite Hemb. unfold add.
  destruct (add_loop_stops
              (List.map (fun c => Models.chunk_id (Models.metadata c)) chunks) 0
              (List.map Models.text chunks) embs
              (List.map (chunk_metadata uploaded_at device_name doc_type) chunks) s
              (List.length embs) (Models.chunk_id (Models.metadata c)) (Models.text c))
    as (s' & Hrun & Hdoc & Hnone).
  - now rewrite list_lookup_fmap, Hc.
  - intros j Hj. simpl. rewrite !list_lookup_fmap.
    assert (Hlt : (j < List.length chunks)%nat).
    { apply lookup_lt_Some in Hc. lia. }
    destruct (lookup_lt_is_Some_2 chunks j Hlt) as [cj ->].
    split; [simpl; eauto|]. split; [now apply lookup_lt_is_Some_2 | simpl; eauto].
  - simpl. now rewrite list_lookup_fmap, Hc.
  - simpl. apply lookup_ge_None_2. lia.
  - rewrite Hrun. exists s'. split; [reflexivity|]. split; [exact Hdoc|].
    assert (He : embeddings s' !! Models.chunk_id (Models.metadata c) = None).
    { apply Hnone; [exact Hnew|]. intros j Hj Hid.
      assert (j = List.length embs); [|lia].
      eapply NoDup_lookup; [exact Hnd | exact Hid |].
      now rewrite list_lookup_fmap, Hc. }
    split; [exact He|]. intros [Hdom _].
    assert (Hin : Models.chunk_id (Models.metadata c) ∈ dom (documents s'))
      by (apply elem_of_dom; eauto).
    rewrite Hdom in Hin. apply elem_of_dom in Hin as [e Hin]. congruence.
Qed.

Lemma index_chunks_short_embeddings_witness :
  let embed := fun texts : list string => Ok [[1%float; 0%float]] in
  let chunk := fun id text =>
     Models.Build_Chunk string text
       (Models.Build_ChunkMetadata string "D1" "report.pdf" id (Some 1) 0
          None "other" [] None [] [] []) in
  let s := Store "db" ∅ ∅ ∅ [] in
  let d := Disk ∅ true Writes in
  exists s',
    index_chunks embed "2024-01-01T00:00:00" s d
      [chunk "D1_chunk_0" "Scope."; chunk "D1_chunk_1" "Purpose."]%string
      "D1" "report.pdf" None "other"
    = (s', d, Raise IndexError) /\
    documents s' !! Models.chunk_id (Models.metadata (chunk "D1_chunk_1" "Purpose."))%string
    = Some (Models.text (chunk "D1_chunk_1" "Purpose."))%string /\
    embeddings s' !! Models.chunk_id (Models.metadata (chunk "D1_chunk_1" "Purpose."))%string
    = None /\
    ~ same_keys s'.
Proof.
  intros embed chunk s d.
  apply (index_chunks_short_embeddings embed "2024-01-01T00:00:00" s d
           [chunk "D1_chunk_0" "Scope."; chunk "D1_chunk_1" "Purpose."]%string
           "D1" "report.pdf" None "other" [[1%float; 0%float]]).
  - reflexivity.
  - reflexivity.
  - simpl. repeat (apply NoDup_cons; split;
                   [rewrite list_elem_of_In; simpl; intuition discriminate|]).
    apply NoDup_nil. exact I.
  - reflexivity.
Defined.

End ShortEmbeddings.

(** ** Sets and sorted lists of strings *)

Section SequenceFacts.

Import PySeq ExtractSpec.

Implicit Types (a b c x y : text) (l : list text).

Lemma text_eqb_eq a b : text_eqb a b = true <-> a = b.
Proof.
  revert b. induction a as [|x a IH]; intros [|y b]; simpl;
    try (split; [discriminate | intros [=]]); [tauto|].
  rewrite andb_true_iff, N.eqb_eq, IH. split; [now intros [-> ->] | now intros [= -> ->]].
Qed.

Lemma existsb_text_eqb x l : existsb (text_eqb x) l = true <-> In x l.
Proof.
  rewrite existsb_exists. split.
  - intros (y & Hin & Hy). apply text_eqb_eq in Hy. now subst.
  - intros Hin. exists x. split; [exact Hin | now apply text_eqb_eq].
Qed.

Lemma distinct_In x l : In x (distinct l) <-> In x l.
Proof.
  induction l as [|y l IH]; simpl; [tauto|].
  destruct (existsb (text_eqb y) l) eqn:Hy; simpl; rewrite IH; [|tauto].
  apply existsb_text_eqb in Hy. split; [tauto|]. intros [<-|H]; auto.
Qed.

Lemma distinct_NoDup l : NoDup (distinct l).
Proof.
  induction l as [|y l IH]; simpl; [constructor|].
  destruct (existsb (text_eqb y) l) eqn:Hy; [exact IH|].
  apply NoDup_cons. split; [|exact IH].
  rewrite list_elem_of_In, distinct_In. intros Hin.
  apply existsb_text_eqb in Hin. congruence.
Qed.

Lemma str_lt_irrefl a : str_lt a a = false.
Proof.
  induction a as [|x a IH]; simpl; [reflexivity|].
  now rewrite N.ltb_irrefl, N.eqb_refl, IH.
Qed.

Lemma str_lt_cons (x y : char) a b :
  str_lt (x :: a) (y :: b) = true <-> (x < y)%N \/ (x = y /\ str_lt a b = true).
Proof.
  simpl. rewrite orb_true_iff, andb_true_iff, N.ltb_lt, N.eqb_eq. tauto.
Qed.

Lemma str_lt_trans a : forall b c,
  str_lt a b = true -> str_lt b c = true -> str_lt a c = true.
Proof.
  induction a as [|x a IH]; intros [|y b] [|z c]; try discriminate; try reflexivity.
  rewrite !str_lt_cons. intros [H1|[-> H1]] [H2|[-> H2]]; [left; lia | now left | now left|].
  right. split; [reflexivity|]. eapply IH; eauto.
Qed.

Lemma str_lt_total a : forall b,
  str_lt a b = false -> str_lt b a = false -> a = b.
Proof.
  induction a as [|x a IH]; intros [|y b]; try discriminate; [reflexivity|].
  intros H1 H2.
  assert (Hxy : ~ ((x < y)%N \/ (x = y /\ str_lt a b = true)))
    by (rewrite <- str_lt_cons; congruence).
  assert (Hyx : ~ ((y < x)%N \/ (y = x /\ str_lt b a = true)))
    by (rewrite <- str_lt_cons; congruence).
  assert (x = y) by lia. subst y. f_equal. apply IH.
  - destruct (str_lt a b); [exfalso; apply Hxy; auto | reflexivity].
  - destruct (str_lt b a); [exfalso; apply Hyx; auto | reflexivity].
Qed.

Lemma str_lt_le a b : str_lt a b = true -> str_le a b.
Proof.
  intros H. unfold str_le. destruct (str_lt b a) eqn:H'; [|reflexivity].
  pose proof (str_lt_trans a b a H H') as Haa. now rewrite str_lt_irrefl in Haa.
Qed.

Lemma str_le_trans a b c : str_le a b -> str_le b c -> str_le a c.
Proof.
  unfold str_le. intros Hab Hbc. destruct (str_lt c a) eqn:Hca; [|reflexivity].
  destruct (str_lt a b) eqn:Hlt.
  - pose proof (str_lt_trans c a b Hca Hlt). congruence.
  - assert (a = b) by now apply str_lt_total. subst. congruence.
Qed.

Lemma str_le_antisym a b : str_le a b -> str_le b a -> a = b.
Proof. unfold str_le. intros H1 H2. now apply str_lt_total. Qed.

Lemma insert_sorted_perm x l : Permutation (x :: l) (insert_sorted x l).
Proof.
  induction l as [|y l IH]; simpl; [reflexivity|].
  destruct (str_lt x y); [reflexivity|].
  rewrite perm_swap. now apply perm_skip.
Qed.

Lemma sorted_fold_perm l : forall acc,
  Permutation (acc ++ l) (fold_left (fun acc x => insert_sorted x acc) l acc).
Proof.
  induction l as [|x l IH]; intros acc; simpl; [now rewrite app_nil_r|].
  rewrite <- IH. rewrite <- insert_sorted_perm.
  symmetry. apply Permutation_middle.
Qed.

Lemma sorted_perm l : Permutation l (sorted l).
Proof. unfold sorted. now rewrite <- sorted_fold_perm. Qed.

Lemma sorted_In x l : In x (sorted l) <-> In x l.
Proof.
  split; apply Permutation_in; [symmetry|]; apply sorted_perm.
Qed.

Lemma insert_sorted_le x l :
  StronglySorted str_le l -> StronglySorted str_le (insert_sorted x l).
Proof.
  intros Hs. induction Hs as [|y l Hs IH Hy]; simpl; [repeat constructor|].
  destruct (str_lt x y) eqn:Hxy.
  - constructor; [now constructor|]. constructor; [now apply str_lt_le|].
    eapply List.Forall_impl; [|exact Hy]. intros z Hz.
    eapply str_le_trans; [apply str_lt_le; exact Hxy | exact Hz].
  - constructor; [exact IH|].
    rewrite List.Forall_forall in *. intros z Hz.
    apply (Permutation_in _ (Permutation_sym (insert_sorted_perm x l))) in Hz.
    destruct Hz as [<-|Hz]; [exact Hxy | now apply Hy].
Qed.

Lemma sorted_le l : StronglySorted str_le (sorted l).
Proof.
  unfold sorted. generalize (SSorted_nil str_le). generalize (@nil text).
  induction l as [|x l IH]; intros acc Hacc; simpl; [exact Hacc|].
  apply IH. now apply insert_sorted_le.
Qed.

Lemma sorted_unique l : forall l',
  StronglySorted str_le l -> StronglySorted str_le l' -> Permutation l l' -> l = l'.
Proof.
  induction l as [|x l IH]; intros l' Hs Hs' Hp.
  - now apply Permutation_nil in Hp.
  - destruct l' as [|y l']; [now apply Permutation_sym, Permutation_nil in Hp|].
    apply StronglySorted_inv in Hs as [Hs Hx]. apply StronglySorted_inv in Hs' as [Hs' Hy].
    rewrite List.Forall_forall in Hx, Hy.
    assert (x = y).
    { assert (Hin : In x (y :: l')) by (apply (Permutation_in _ Hp); now left).
      assert (Hin' : In y (x :: l))
        by (apply (Permutation_in _ (Permutation_sym Hp)); now left).
      destruct Hin as [->|Hin]; [reflexivity|].
      destruct Hin' as [->|Hin']; [reflexivity|].
      apply str_le_antisym; auto. }
    subst y. f_equal. apply IH; auto. now apply Permutation_cons_inv in Hp.
Qed.

Lemma ascending_of_le l : StronglySorted str_le l -> NoDup l -> ascending l.
Proof.
  intros Hs. induction Hs as [|x l Hs IH Hx]; intros Hnd; [constructor|].
  apply NoDup_cons in Hnd as [Hnx Hnd]. constructor; [now apply IH|].
  rewrite List.Forall_forall in *. intros y Hy.
  destruct (str_lt x y) eqn:Hxy; [reflexivity|]. exfalso.
  apply Hnx. apply list_elem_of_In.
  rewrite (str_lt_total x y Hxy (Hx y Hy)). exact Hy.
Qed.

Lemma sorted_distinct_ascending l : ascending (sorted (distinct l)).
Proof.
  apply ascending_of_le; [apply sorted_le|].
  rewrite <- sorted_perm. apply distinct_NoDup.
Qed.

Lemma ascending_firstn k l : ascending l -> ascending (firstn k l).
Proof.
  intros Hs. revert k. induction Hs as [|x l Hs IH Hx]; intros [|k]; simpl;
    try constructor; [apply IH|].
  rewrite List.Forall_forall in *. intros y Hy. apply Hx. now apply In_firstn in Hy.
Qed.

(** X23: [sorted] returns the same list for every order in which the
    elements of a set are enumerated. *)
Theorem sorted_any_order l l' : Permutation l l' -> sorted l = sorted l'.
Proof.
  intros Hp. apply sorted_unique; [apply sorted_le | apply sorted_le |].
  now rewrite <- !sorted_perm.
Qed.

Lemma sorted_any_order_witness :
  sorted [of_string "REQ-2"; of_string "REQ-10"; of_string "FR1"]
  = sorted [of_string "FR1"; of_string "REQ-2"; of_string "REQ-10"].
Proof.
  apply sorted_any_order.
  change (Permutation ([of_string "REQ-2"; of_string "REQ-10"] ++ [of_string "FR1"])
            ([of_string "FR1"] ++ [of_string "REQ-2"; of_string "REQ-10"])).
  apply Permutation_app_comm.
Defined.

End SequenceFacts.

(** ** The metadata extractor *)

Section ExtractorFacts.

Import PySeq ExtractSpec ChunkSpec MetadataExtractor.

Variable re_search_ignorecase : string -> text -> bool.
Variable re_findall_ignorecase : string -> text -> list text.
Variable re_match : string -> text -> bool.
Variable upper : text -> text.

Lemma ascending_app (l1 l2 : list text) :
  ascending (l1 ++ l2) ->
  forall y x, In y l1 -> In x l2 -> str_lt y x = true.
Proof.
  induction l1 as [|z l1 IH]; simpl; intros Hs y x Hy Hx; [destruct Hy|].
  apply StronglySorted_inv in Hs as [Hs Hz]. destruct Hy as [<-|Hy].
  - rewrite List.Forall_forall in Hz. apply Hz. apply in_or_app. now right.
  - now apply IH.
Qed.

(** X24: [detect_requirement_ids], [detect_test_case_ids] and
    [detect_risk_ids] return at most 10 ids in strictly ascending order
    (so none twice); each is the upper-cased text of a match of one of the
    patterns of its kind, and an upper-cased match that is left out is
    greater than each of the 10 that are returned.  The empty text gives
    the empty list. *)
Theorem detect_ids_capped kind t :
  (List.length (detect_ids re_findall_ignorecase upper kind t) <= 10)%nat /\
  ascending (detect_ids re_findall_ignorecase upper kind t) /\
  (forall x,
     In x (detect_ids re_findall_ignorecase upper kind t) ->
     t <> [] /\
     exists pattern m, In pattern (ID_PATTERNS kind)
                       /\ In m (re_findall_ignorecase pattern t) /\ x = upper m) /\
  (forall pattern m,
     t <> [] -> In pattern (ID_PATTERNS kind) -> In m (re_findall_ignorecase pattern t) ->
     In (upper m) (detect_ids re_findall_ignorecase upper kind t)
     \/ (List.length (detect_ids re_findall_ignorecase upper kind t) = 10%nat /\
         Forall (fun y => str_lt y (upper m) = true)
           (detect_ids re_findall_ignorecase upper kind t))).
Proof.
  unfold detect_ids. destruct t as [|c t'].
  { simpl. split; [lia|]. split; [constructor|]. split; [intros x []|]. congruence. }
  set (t := c :: t').
  set (found := flat_map (fun pattern => List.map upper (re_findall_ignorecase pattern t))
                  (ID_PATTERNS kind)).
  change 10 with (Z.of_nat 10). rewrite take_py_nat.
  assert (Hfound : forall x, In x (sorted (distinct found))
            <-> exists pattern m, In pattern (ID_PATTERNS kind)
                  /\ In m (re_findall_ignorecase pattern t) /\ x = upper m).
  { intros x. rewrite sorted_In, distinct_In. unfold found. rewrite in_flat_map. split.
    - intros (p & Hp & Hx). apply in_map_iff in Hx as (m & <- & Hm). eauto.
    - intros (p & m & Hp & Hm & ->). exists p. split; [exact Hp|]. now apply in_map. }
  split; [rewrite length_firstn; lia|].
  split; [apply ascending_firstn, sorted_distinct_ascending|].
  split.
  - intros x Hx. split; [discriminate|]. apply Hfound. now apply In_firstn in Hx.
  - intros p m _ Hp Hm.
    assert (Hin : In (upper m) (sorted (distinct found))) by (apply Hfound; eauto).
    rewrite <- (firstn_skipn 10 (sorted (distinct found))) in Hin.
    apply in_app_or in Hin as [Hin|Hin]; [now left | right].
    split.
    + rewrite length_firstn.
      assert (List.length (skipn 10 (sorted (distinct found))) <> 0%nat)
        by (destruct (skipn 10 (sorted (distinct found))); [destruct Hin | discriminate]).
      rewrite length_skipn in *. lia.
    + apply List.Forall_forall. intros y Hy.
      eapply (ascending_app (firstn 10 (sorted (distinct found)))
                (skipn 10 (sorted (distinct found)))); [|exact Hy | exact Hin].
      rewrite firstn_skipn. apply sorted_distinct_ascending.
Qed.

(** X25: [detect_standards] returns, in strictly ascending order, the
    names of exactly those standards whose pattern is found in the text;
    the empty text gives the empty list. *)
Theorem detect_standards_found t :
  ascending (detect_standards re_search_ignorecase t) /\
  forall name,
    In name (detect_standards re_search_ignorecase t)
    <-> t <> [] /\
        exists entry, In entry STANDARD_PATTERNS /\ name = of_string (fst entry)
                      /\ re_search_ignorecase (snd entry) t = true.
Proof.
  unfold detect_standards. destruct t as [|c t'].
  { split; [constructor|]. intros name. split; [intros [] | now intros [? _]]. }
  split; [apply sorted_distinct_ascending|].
  intros name. rewrite sorted_In, distinct_In, in_map_iff. split.
  - intros (entry & <- & Hin). apply filter_In in Hin as [Hin Hs].
    split; [discriminate|]. eauto.
  - intros (_ & entry & Hin & -> & Hs). exists entry. split; [reflexivity|].
    apply filter_In. auto.
Qed.

Lemma until_newline_prefix t : exists r, t = until_newline t ++ r.
Proof.
  induction t as [|c t IH]; simpl; [now exists []|].
  destruct (c =? 10)%N; [now exists (c :: t)|].
  destruct IH as [r Hr]. exists r. simpl. now rewrite <- Hr.
Qed.

Lemma until_newline_none t : Forall (fun c => c <> 10%N) (until_newline t).
Proof.
  induction t as [|c t IH]; simpl; [constructor|].
  destruct (N.eqb_spec c 10); [constructor | now constructor].
Qed.

Lemma slice_firstn t (k : nat) : slice t 0 (Z.of_nat k) = firstn k t.
Proof.
  unfold slice, adjust. change (0 <? 0) with false. cbv iota.
  destruct (Z.ltb_spec (Z.of_nat k) 0); [lia|].
  pose proof (len_nonneg t). rewrite (Z.min_l 0) by lia.
  change (Z.to_nat 0) with 0%nat. rewrite skipn_O, Z.sub_0_r.
  unfold len. destruct (Nat.le_gt_cases k (List.length t)).
  - f_equal. lia.
  - rewrite !firstn_all2; [reflexivity | lia | lia].
Qed.

(** X26: a heading that [detect_section_heading] returns has at most
    80 characters, holds no line feed, does not start with white space and
    occurs in the text as a contiguous piece: it is the start of the first
    line of the trimmed text, trimmed, which has fewer than 100 characters
    and matches a heading pattern. *)
Theorem detect_section_heading_bounds t h :
  detect_section_heading re_match t = Some h ->
  len h <= 80 /\
  Forall (fun c => c <> 10%N) h /\
  lstrip h = h /\
  substring_of h t /\
  h = firstn 80 (strip (until_newline (strip t))) /\
  len (strip (until_newline (strip t))) < 100 /\
  exists pattern, In pattern heading_patterns
                  /\ re_match pattern (strip (until_newline (strip t))) = true.
Proof.
  unfold detect_section_heading. destruct t as [|c t']; [discriminate|].
  set (t := c :: t'). set (line := strip (until_newline (strip t))).
  destruct (Z.ltb_spec (len line) 100) as [Hlen|]; [|discriminate].
  destruct (existsb (fun pattern => re_match pattern line) heading_patterns) eqn:Hm;
    [|discriminate].
  change 80 with (Z.of_nat 80). rewrite slice_firstn. intros [= <-].
  destruct (strip_split (until_newline (strip t))) as (pre & post & Hu & _ & _).
  fold line in Hu.
  destruct (until_newline_prefix (strip t)) as [rest Hrest].
  destruct (strip_split t) as (pre' & post' & Ht & _ & _).
  split; [|split; [|split; [|split; [|split; [reflexivity|split; [exact Hlen|]]]]]].
  - unfold len. rewrite length_firstn. lia.
  - pose proof (until_newline_none (strip t)) as Hnl. rewrite Hu in Hnl.
    apply Forall_app in Hnl as [_ Hnl]. apply Forall_app in Hnl as [Hnl _].
    rewrite List.Forall_forall in *. intros x Hx. apply Hnl. now apply In_firstn in Hx.
  - apply lstrip_fixed. intros x r Hx.
    destruct line as [|y line'] eqn:Hline; [discriminate|].
    simpl in Hx. injection Hx as <- _.
    now apply (strip_head (until_newline (strip t)) y line').
  - exists (pre' ++ pre), (skipn 80 line ++ post ++ rest ++ post').
    rewrite Ht at 1. rewrite Hrest at 1. rewrite Hu at 1.
    rewrite <- (firstn_skipn 80 line) at 1. now rewrite <- !app_assoc.
  - apply existsb_exists in Hm as (p & Hp & Hm). eauto.
Qed.

(** X27: [aggregate_standards_from_chunks] returns, in strictly
    ascending order, exactly the strings that occur in the list
    [standards_referenced] of one of the dictionaries. *)
Theorem aggregate_standards_union chunks_metadata :
  ascending (aggregate_standards_from_chunks chunks_metadata) /\
  forall x,
    In x (aggregate_standards_from_chunks chunks_metadata)
    <-> exists standards, In (Strings standards) chunks_metadata /\ In x standards.
Proof.
  unfold aggregate_standards_from_chunks. split; [apply sorted_distinct_ascending|].
  intros x. rewrite sorted_In, distinct_In, in_flat_map. split.
  - intros ([| l |] & Hin & Hx); try destruct Hx. eauto.
  - intros (l & Hin & Hx). exists (Strings l). auto.
Qed.

End ExtractorFacts.

Section ExtractorWitnesses.

Import PySeq ExtractSpec ChunkSpec MetadataExtractor.

Lemma detect_section_heading_bounds_witness :
  let matches := fun (_ : string) (_ : text) => true in
  let t := of_string (String.append "  4.2 Risk Analysis" (String "010" "The device")) in
  let h := of_string "4.2 Risk Analysis" in
  len h <= 80 /\
  Forall (fun c => c <> 10%N) h /\
  lstrip h = h /\
  substring_of h t /\
  h = firstn 80 (strip (until_newline (strip t))) /\
  len (strip (until_newline (strip t))) < 100 /\
  exists pattern, In pattern heading_patterns
                  /\ matches pattern (strip (until_newline (strip t))) = true.
Proof.
  intros matches t h. apply (detect_section_heading_bounds matches t h). reflexivity.
Defined.

End ExtractorWitnesses.

(** ** Chunking a document *)

Section DocChunkerFacts.

Import Chunker DocChunker.

Variable re_search_ignorecase : string -> text -> bool.
Variable re_findall_ignorecase : string -> text -> list text.
Variable re_match : string -> text -> bool.
Variable upper : text -> text.

(** The functions of [chunker.py] over these library functions. *)
Local Abbreviation make_chunk_ :=
  (make_chunk re_search_ignorecase re_findall_ignorecase re_match upper).
Local Abbreviation page_loop_ :=
  (page_loop re_search_ignorecase re_findall_ignorecase re_match upper).
Local Abbreviation pages_loop_ :=
  (pages_loop re_search_ignorecase re_findall_ignorecase re_match upper).
Local Abbreviation chunk_document_ :=
  (chunk_document re_search_ignorecase re_findall_ignorecase re_match upper).

Implicit Types (doc_id filename : text) (device_name : option text)
  (doc_type : DocType) (page_number : option Z).

Lemma of_string_inj (a b : string) : of_string a = of_string b -> a = b.
Proof.
  unfold of_string. intros H.
  rewrite <- (string_of_list_ascii_of_string a), <- (string_of_list_ascii_of_string b).
  f_equal. revert H. generalize (list_ascii_of_string a) (list_ascii_of_string b).
  intros la. induction la as [|x la IH]; intros [|y lb]; simpl; try discriminate;
    [reflexivity|].
  intros [= Hxy Hl]. f_equal; [|now apply IH].
  rewrite <- (ascii_N_embedding x), <- (ascii_N_embedding y). now rewrite Hxy.
Qed.

Lemma chunk_id_of_inj doc_id (i j : Z) : chunk_id_of doc_id i = chunk_id_of doc_id j -> i = j.
Proof.
  unfold chunk_id_of. intros H. apply app_inv_head in H. apply app_inv_head in H.
  apply of_string_inj in H. now apply pretty_Z_inj in H.
Qed.

(** A blank text has no chunks. *)
Lemma chunk_text_blank fuel t chunk_size chunk_overlap :
  strip t = [] -> chunk_text fuel t chunk_size chunk_overlap = Some [].
Proof. intros He. unfold chunk_text, chunk_run. now rewrite He. Qed.

Lemma chunk_text_is_Some fuel t chunk_size chunk_overlap :
  1 <= chunk_size -> (List.length t <= fuel)%nat ->
  is_Some (chunk_text fuel t chunk_size chunk_overlap).
Proof.
  intros Hsize Hfuel. unfold chunk_text.
  destruct (chunk_run_returns t chunk_size chunk_overlap fuel Hsize Hfuel) as [r ->].
  simpl. eauto.
Qed.

(** The text and the page number of a chunk. *)
Local Abbreviation placed c :=
  (Models.text c, Models.page_number (Models.metadata c)).

Lemma page_loop_spec doc_id filename device_name doc_type page_number text_chunks :
  forall all_chunks chunk_index,
    page_loop_ doc_id filename device_name doc_type page_number
      text_chunks all_chunks chunk_index
    = (all_chunks
       ++ imap (fun j t => make_chunk_ doc_id filename device_name
                             doc_type page_number (chunk_index + Z.of_nat j) t)
            text_chunks,
       chunk_index + Z.of_nat (List.length text_chunks)).
Proof.
  induction text_chunks as [|t rest IH]; intros all_chunks chunk_index; simpl.
  - now rewrite app_nil_r, Z.add_0_r.
  - rewrite IH, <- app_assoc. simpl. f_equal; [|lia]. f_equal.
    rewrite Z.add_0_r. f_equal. apply imap_ext. intros j x _. simpl. f_equal. lia.
Qed.

(** The loop over the pages appends, for each page in turn, one chunk
    for each piece that [chunk_text] cuts from the page. *)
Lemma pages_loop_spec fuel doc_id filename device_name doc_type chunk_size chunk_overlap :
  1 <= chunk_size ->
  forall pages all_chunks chunk_index,
    (forall page, In page pages -> (List.length (Parser.text page) <= fuel)%nat) ->
    exists new,
      pages_loop_ fuel doc_id filename device_name doc_type
        chunk_size chunk_overlap pages all_chunks chunk_index
      = Some (all_chunks ++ new) /\
      List.map (fun c => placed c) new
      = flat_map (fun page =>
                    List.map (fun t => (t, Parser.page_number page))
                      (default [] (chunk_text fuel (Parser.text page)
                                     chunk_size chunk_overlap))) pages /\
      forall j c, new !! j = Some c ->
        c = make_chunk_ doc_id filename device_name doc_type
              (Models.page_number (Models.metadata c))
              (chunk_index + Z.of_nat j) (Models.text c).
Proof.
  intros Hsize pages.
  induction pages as [|page rest IH]; intros all_chunks chunk_index Hfuel.
  - exists []. simpl. split; [now rewrite app_nil_r|]. split; [reflexivity|].
    intros j c Hj. discriminate.
  - assert (Hrest : forall p, In p rest -> (List.length (Parser.text p) <= fuel)%nat)
      by (intros p Hp; apply Hfuel; now right).
    destruct (chunk_text_is_Some fuel (Parser.text page) chunk_size chunk_overlap Hsize)
      as [text_chunks Hc]; [apply Hfuel; now left|].
    assert (Hblank : strip (Parser.text page) = [] -> text_chunks = []).
    { intros He. rewrite (chunk_text_blank fuel _ chunk_size chunk_overlap He) in Hc.
      now injection Hc. }
    simpl. rewrite Hc. simpl.
    destruct (Parser.text page) as [|x t] eqn:Ht.
    { rewrite (Hblank eq_refl). simpl. apply IH, Hrest. }
    destruct (strip (x :: t)) as [|y r] eqn:Hs.
    { rewrite (Hblank eq_refl). simpl. apply IH, Hrest. }
    clear Hblank. rewrite page_loop_spec.
    set (new1 := imap (fun j t0 => make_chunk_ doc_id filename
                         device_name doc_type (Parser.page_number page)
                         (chunk_index + Z.of_nat j) t0) text_chunks).
    destruct (IH (all_chunks ++ new1) (chunk_index + Z.of_nat (List.length text_chunks))
                Hrest) as (new2 & Hrun & Hnew & Hpos).
    exists (new1 ++ new2). split; [now rewrite app_assoc|]. split.
    + rewrite map_app, Hnew. simpl. f_equal. unfold new1.
      apply list_eq. intros i.
      rewrite !list_lookup_fmap, list_lookup_imap.
      now destruct (text_chunks !! i).
    + assert (Hlen : List.length new1 = List.length text_chunks)
        by (unfold new1; apply length_imap).
      intros j c Hj. apply lookup_app_Some in Hj as [Hj|[Hge Hj]].
      * unfold new1 in Hj. rewrite list_lookup_imap in Hj.
        destruct (text_chunks !! j) as [t0|]; [|discriminate].
        simpl in Hj. injection Hj as <-. reflexivity.
      * rewrite (Hpos _ _ Hj) at 1. f_equal. rewrite Hlen in *. lia.
Qed.

(** X28: with [chunk_size >= 1], [chunk_document] returns, and its
    chunks are, page after page in the order of the document, the pieces
    that [chunk_text] cuts from the page's text, each with the page's
    number; a page whose text is empty or white space gives none. *)
Theorem chunk_document_pages fuel doc doc_id device_name doc_type chunk_size chunk_overlap :
  1 <= chunk_size ->
  (forall page, In page (Parser.pages doc)
                -> (List.length (Parser.text page) <= fuel)%nat) ->
  exists chunks,
    chunk_document_ fuel doc doc_id device_name doc_type
      chunk_size chunk_overlap = Some chunks /\
    List.map (fun c => placed c) chunks
    = flat_map (fun page =>
                  List.map (fun t => (t, Parser.page_number page))
                    (default [] (chunk_text fuel (Parser.text page)
                                   chunk_size chunk_overlap))) (Parser.pages doc) /\
    forall page, In page (Parser.pages doc) -> Forall blank (Parser.text page) ->
      chunk_text fuel (Parser.text page) chunk_size chunk_overlap = Some [].
Proof.
  intros Hsize Hfuel. unfold chunk_document.
  destruct (pages_loop_spec fuel doc_id (Parser.filename doc) device_name doc_type
              chunk_size chunk_overlap Hsize (Parser.pages doc) [] 0 Hfuel)
    as (new & Hrun & Hnew & _).
  exists new. split; [exact Hrun|]. split; [exact Hnew|].
  intros page _ Hb. apply chunk_text_blank. now apply strip_blank.
Qed.

(** X29: the chunk at position [j] of the list that [chunk_document]
    returns has the chunk index [j] and the id
    [f"{doc_id}_chunk_{j}"], carries the document's id and file name, the
    given device name and document type, and the metadata extracted from
    its own text; no two chunks have the same id. *)
Theorem chunk_document_numbering fuel doc doc_id device_name doc_type
    chunk_size chunk_overlap :
  1 <= chunk_size ->
  (forall page, In page (Parser.pages doc)
                -> (List.length (Parser.text page) <= fuel)%nat) ->
  exists chunks,
    chunk_document_ fuel doc doc_id device_name doc_type
      chunk_size chunk_overlap = Some chunks /\
    (forall j c, chunks !! j = Some c ->
       c = make_chunk_ doc_id (Parser.filename doc) device_name
             doc_type (Models.page_number (Models.metadata c)) (Z.of_nat j)
             (Models.text c)) /\
    NoDup (List.map (fun c => Models.chunk_id (Models.metadata c)) chunks).
Proof.
  intros Hsize Hfuel. unfold chunk_document.
  destruct (pages_loop_spec fuel doc_id (Parser.filename doc) device_name doc_type
              chunk_size chunk_overlap Hsize (Parser.pages doc) [] 0 Hfuel)
    as (new & Hrun & _ & Hpos).
  exists new. split; [exact Hrun|]. split; [exact Hpos|].
  apply NoDup_alt. intros i j id Hi Hj.
  rewrite list_lookup_fmap in Hi, Hj.
  destruct (new !! i) as [ci|] eqn:Hci; [|discriminate].
  destruct (new !! j) as [cj|] eqn:Hcj; [|discriminate].
  simpl in Hi, Hj. rewrite (Hpos _ _ Hci) in Hi. rewrite (Hpos _ _ Hcj) in Hj.
  simpl in Hi, Hj. injection Hi as Hi. injection Hj as Hj.
  rewrite <- Hj in Hi. apply chunk_id_of_inj in Hi. lia.
Qed.

End DocChunkerFacts.

Section DocChunkerWitnesses.

Import Chunker DocChunker.

Lemma chunk_document_pages_witness :
  let search := fun (_ : string) (_ : text) => false in
  let findall := fun (_ : string) (_ : text) => @nil text in
  let upper := fun t : text => t in
  let doc := Parser.Build_ParsedDocument (of_string "report.pdf")
               [ Parser.Build_ParsedPage (of_string "Scope. Purpose of the device.") (Some 1);
                 Parser.Build_ParsedPage (of_string "   ") (Some 2) ] in
  exists chunks,
    chunk_document search findall search upper 40 doc (of_string "D1") None other 10 2 = Some chunks /\
    List.map (fun c => (Models.text c, Models.page_number (Models.metadata c))) chunks
    = flat_map (fun page =>
                  List.map (fun t => (t, Parser.page_number page))
                    (default [] (chunk_text 40 (Parser.text page) 10 2)))
        (Parser.pages doc) /\
    forall page, In page (Parser.pages doc) -> Forall blank (Parser.text page) ->
      chunk_text 40 (Parser.text page) 10 2 = Some [].
Proof.
  intros search findall upper doc.
  apply (chunk_document_pages search findall search upper); [lia|].
  intros page [<-|[<-|[]]]; vm_compute; lia.
Defined.

Lemma chunk_document_numbering_witness :
  let search := fun (_ : string) (_ : text) => false in
  let findall := fun (_ : string) (_ : text) => @nil text in
  let upper := fun t : text => t in
  let doc := Parser.Build_ParsedDocument (of_string "report.pdf")
               [ Parser.Build_ParsedPage (of_string "Scope. Purpose of the device.") (Some 1);
                 Parser.Build_ParsedPage (of_string "Risk analysis follows.") (Some 2) ] in
  exists chunks,
    chunk_document search findall search upper 40 doc (of_string "D1") None other 10 2 = Some chunks /\
    (forall j c, chunks !! j = Some c ->
       c = make_chunk search findall search upper (of_string "D1") (Parser.filename doc) None other
             (Models.page_number (Models.metadata c)) (Z.of_nat j) (Models.text c)) /\
    NoDup (List.map (fun c => Models.chunk_id (Models.metadata c)) chunks).
Proof.
  intros search findall upper doc.
  apply (chunk_document_numbering search findall search upper); [lia|].
  intros page [<-|[<-|[]]]; vm_compute; lia.
Defined.

End DocChunkerWitnesses.
